(** * Invoice page assembly and ledger matching: a shallow embedding

    The development follows two scripts of the repository:
    - the OCR post-processing script (page classifiers, [processInvoices],
      [createMergedInvoice], the vendor comparison, the line item filter
      and [main]) and
    - the ledger/OCR merge script ([normalizeInvoiceNumber],
      [normalizeDate], [normalizeVendorForLedgerMatch], [matchInvoices],
      the choice of the documents and the assembly of the merged output in
      [main]),
    and the CSV reader and writer both scripts carry ([parseCSV],
    [escapeCSVField], [writeCSV]).

    JavaScript values are embedded as the inductive type [JS.value];
    an exception is an explicit outcome; objects that the code compares by
    reference carry an identity.

    Idealisations of the embedding, stated once:
    - a number is an exact rational (binary rounding of doubles and the
      infinities are not represented; NaN is);
    - a string is a sequence of 8-bit code units; case mapping is the ASCII
      one and white space is the ASCII white space together with U+00A0;
    - [Array.prototype.sort] is the stable sort the language standard
      prescribes, written as an insertion sort;
    - an object is the list of its properties in the order they were set
      (the place the language gives to index-like names is not
      represented);
    - [JSON.parse] and the text clean-up in front of it are parameters: the
      functions start from parsed values. *)

From Stdlib Require Import List String Ascii ZArith QArith Qround Qabs Bool Lia.
From Stdlib Require Import DecimalString Permutation Sorted Lqa.
Import ListNotations.
Close Scope Q_scope.
Open Scope list_scope.
Open Scope string_scope.
Set Warnings "-register-all".

(* ===================================================================== *)
(** * A fragment of JavaScript *)
(* ===================================================================== *)

Module JS.

(** ** Outcomes: a returned value or a thrown exception *)

Inductive outcome (A : Type) : Type :=
| Ret (a : A)
| Throw (e : string).
Arguments Ret {A} a.
Arguments Throw {A} e.

Definition bind {A B} (m : outcome A) (k : A -> outcome B) : outcome B :=
  match m with
  | Ret a => k a
  | Throw e => Throw e
  end.

Notation "x <- m ;; k" := (bind m (fun x => k))
  (at level 61, m at next level, right associativity).

Definition returns {A} (m : outcome A) : Prop := exists a, m = Ret a.

(** ** Values *)

Inductive value : Type :=
| VUndef
| VNull
| VBool (b : bool)
| VNum (q : Q)
| VNaN
| VStr (s : string)
| VArr (items : list value)
| VObj (props : list (string * value)).

(** ToBoolean. *)
Definition truthy (v : value) : bool :=
  match v with
  | VUndef | VNull | VNaN => false
  | VBool b => b
  | VNum q => negb (Qeq_bool q 0%Q)
  | VStr s => negb (s =? "")
  | VArr _ | VObj _ => true
  end.

(** [a === b].  Two arrays or two objects are equal only when they are the
    same heap object; the operands compared in this program are a literal and
    a field, or fields of two different parsed documents, so they never
    are. *)
Definition strict_eq (a b : value) : bool :=
  match a, b with
  | VUndef, VUndef => true
  | VNull, VNull => true
  | VBool x, VBool y => Bool.eqb x y
  | VNum x, VNum y => Qeq_bool x y
  | VStr x, VStr y => (x =? y)
  | _, _ => false
  end.

(** [a || b] and [a && b] on values (the second operand has no effect of its
    own here, so it is passed evaluated). *)
Definition or_else (a b : value) : value := if truthy a then a else b.
Definition and_then (a b : value) : value := if truthy a then b else a.

(** ** Property access *)

Fixpoint lookup (k : string) (props : list (string * value)) : value :=
  match props with
  | [] => VUndef
  | (k', v) :: rest => if k' =? k then v else lookup k rest
  end.

(** The own property [k] of a value that is neither null nor undefined.  The
    names read by this program are field names of the parsed documents; on a
    primitive or an array they are absent. *)
Definition own_prop (v : value) (k : string) : value :=
  match v with
  | VObj props => lookup k props
  | _ => VUndef
  end.

(** [v.k]: a TypeError on null and undefined. *)
Definition get (v : value) (k : string) : outcome value :=
  match v with
  | VUndef | VNull => Throw "TypeError"
  | _ => Ret (own_prop v k)
  end.

(** [v?.k]. *)
Definition get_opt (v : value) (k : string) : value :=
  match v with
  | VUndef | VNull => VUndef
  | _ => own_prop v k
  end.

(** ** Strings *)

Definition is_space (c : ascii) : bool :=
  let n := nat_of_ascii c in
  ((9 <=? n) && (n <=? 13) || (n =? 32) || (n =? 160))%nat.

Definition is_digit (c : ascii) : bool :=
  let n := nat_of_ascii c in ((48 <=? n) && (n <=? 57))%nat.

Definition lower_char (c : ascii) : ascii :=
  let n := nat_of_ascii c in
  if ((65 <=? n) && (n <=? 90))%nat then ascii_of_nat (n + 32) else c.

Definition upper_char (c : ascii) : ascii :=
  let n := nat_of_ascii c in
  if ((97 <=? n) && (n <=? 122))%nat then ascii_of_nat (n - 32) else c.

Fixpoint map_string (f : ascii -> ascii) (s : string) : string :=
  match s with
  | EmptyString => EmptyString
  | String c rest => String (f c) (map_string f rest)
  end.

Definition toLowerCase : string -> string := map_string lower_char.
Definition toUpperCase : string -> string := map_string upper_char.

Fixpoint drop_while (p : ascii -> bool) (l : list ascii) : list ascii :=
  match l with
  | [] => []
  | c :: rest => if p c then drop_while p rest else l
  end.

Definition trim (s : string) : string :=
  let l := drop_while is_space (list_ascii_of_string s) in
  string_of_list_ascii (rev (drop_while is_space (rev l))).

(** [hay.includes(needle)]. *)
Fixpoint includes (needle hay : string) : bool :=
  String.prefix needle hay ||
  match hay with
  | EmptyString => false
  | String _ rest => includes needle rest
  end.

(** [s.replace(/^0+/, '')]. *)
Definition strip_leading_zeros (s : string) : string :=
  string_of_list_ascii
    (drop_while (fun c => Ascii.eqb c "0"%char) (list_ascii_of_string s)).

Fixpoint all_digits (l : list ascii) : bool :=
  match l with
  | [] => true
  | c :: rest => is_digit c && all_digits rest
  end.

(** [s.padStart(2, '0')]. *)
Definition padStart2 (s : string) : string :=
  match String.length s with
  | O => "00"
  | S O => "0" ++ s
  | _ => s
  end.

(** ** Numbers and their conversions *)

Definition string_of_Z (z : Z) : string :=
  NilZero.string_of_int (Z.to_int z).

Fixpoint frac_digits (fuel : nat) (r d : Z) : string :=
  match fuel with
  | O => ""
  | S fuel' =>
      if (r =? 0)%Z then ""
      else string_of_Z ((10 * r) / d) ++ frac_digits fuel' ((10 * r) mod d) d
  end.

(** Number to string: plain decimal notation (the exponent notation of very
    large and very small magnitudes is not represented). *)
Definition string_of_num (q : Q) : string :=
  let q' := Qred q in
  let n := Qnum q' in
  let d := Zpos (Qden q') in
  let a := Z.abs n in
  (if (n <? 0)%Z then "-" else "") ++
  string_of_Z (a / d) ++
  (if (a mod d =? 0)%Z then "" else "." ++ frac_digits 20 (a mod d) d).

Definition join_comma (l : list string) : string :=
  match l with
  | [] => ""
  | s :: rest => fold_left (fun acc x => acc ++ "," ++ x) rest s
  end.

(** [String(v)]. *)
Fixpoint to_string (v : value) : string :=
  match v with
  | VUndef => "undefined"
  | VNull => "null"
  | VBool true => "true"
  | VBool false => "false"
  | VNum q => string_of_num q
  | VNaN => "NaN"
  | VStr s => s
  | VArr items =>
      join_comma
        (map (fun x => match x with
                       | VUndef | VNull => ""
                       | _ => to_string x
                       end) items)
  | VObj _ => "[object Object]"
  end.

Fixpoint digits_value (l : list ascii) (acc : Z) : Z :=
  match l with
  | [] => acc
  | c :: rest => digits_value rest (10 * acc + (Z.of_nat (nat_of_ascii c) - 48))
  end.

Fixpoint span_digits (l : list ascii) : list ascii * list ascii :=
  match l with
  | [] => ([], [])
  | c :: rest =>
      if is_digit c
      then let (ds, tl) := span_digits rest in (c :: ds, tl)
      else ([], l)
  end.

Definition parse_exponent (l : list ascii) : option Z :=
  match l with
  | [] => Some 0%Z
  | c :: rest =>
      if Ascii.eqb c "e"%char || Ascii.eqb c "E"%char then
        let (neg, ds) :=
          match rest with
          | s :: r =>
              if Ascii.eqb s "-"%char then (true, r)
              else if Ascii.eqb s "+"%char then (false, r)
              else (false, rest)
          | [] => (false, rest)
          end in
        match ds with
        | [] => None
        | _ => if all_digits ds
               then Some (if neg then (- digits_value ds 0)%Z else digits_value ds 0)
               else None
        end
      else None
  end.

Definition parse_unsigned (l : list ascii) : option Q :=
  let (ip, r1) := span_digits l in
  let (fp, r2) :=
    match r1 with
    | c :: r => if Ascii.eqb c "."%char then span_digits r else ([], r1)
    | [] => ([], r1)
    end in
  let has_dot :=
    match r1 with
    | c :: _ => Ascii.eqb c "."%char
    | [] => false
    end in
  match ip, fp with
  | [], [] => None
  | _, _ =>
      match parse_exponent (if has_dot then r2 else r1) with
      | None => None
      | Some e =>
          let m := digits_value (ip ++ fp)%list 0 in
          Some (Qred (inject_Z m * Qpower (inject_Z 10) (e - Z.of_nat (List.length fp))))%Q
      end
  end.

(** StringToNumber for decimal literals (radix prefixes and [Infinity] are
    read as NaN). *)
Definition string_to_number (s : string) : option Q :=
  match list_ascii_of_string (trim s) with
  | [] => Some 0%Q
  | c :: rest =>
      if Ascii.eqb c "-"%char then option_map Qopp (parse_unsigned rest)
      else if Ascii.eqb c "+"%char then parse_unsigned rest
      else parse_unsigned (c :: rest)
  end.

(** ToNumber; [None] is NaN. *)
Definition to_number (v : value) : option Q :=
  match v with
  | VUndef | VNaN | VObj _ => None
  | VNull => Some 0%Q
  | VBool b => Some (if b then 1%Q else 0%Q)
  | VNum q => Some q
  | VStr s => string_to_number s
  | VArr _ => string_to_number (to_string v)
  end.

Definition of_number (n : option Q) : value :=
  match n with
  | Some q => VNum q
  | None => VNaN
  end.

Definition lift2 (f : Q -> Q -> Q) (a b : value) : value :=
  match to_number a, to_number b with
  | Some x, Some y => VNum (f x y)
  | _, _ => VNaN
  end.

(** [a - b] and [a * b]. *)
Definition sub (a b : value) : value := lift2 Qminus a b.
Definition mul (a b : value) : value := lift2 Qmult a b.

Definition is_stringy (v : value) : bool :=
  match v with
  | VStr _ | VArr _ | VObj _ => true
  | _ => false
  end.

(** [a + b]: concatenation as soon as one operand is a string after
    ToPrimitive, numeric addition otherwise. *)
Definition add (a b : value) : value :=
  if is_stringy a || is_stringy b
  then VStr (to_string a ++ to_string b)
  else lift2 Qplus a b.

Fixpoint string_ltb (a b : string) : bool :=
  match a, b with
  | _, EmptyString => false
  | EmptyString, String _ _ => true
  | String x a', String y b' =>
      (nat_of_ascii x <? nat_of_ascii y)%nat ||
      ((nat_of_ascii x =? nat_of_ascii y)%nat && string_ltb a' b')
  end.

(** [a > b]: code-unit order when both operands are strings after
    ToPrimitive, numeric order otherwise; false as soon as a NaN appears. *)
Definition gt (a b : value) : bool :=
  if is_stringy a && is_stringy b
  then string_ltb (to_string b) (to_string a)
  else match to_number a, to_number b with
       | Some x, Some y => negb (Qle_bool x y)
       | _, _ => false
       end.

(** [Math.round]: to the nearest integer, halves upwards. *)
Definition round (v : value) : value :=
  match to_number v with
  | Some q => VNum (inject_Z (Qfloor (q + (1 # 2))%Q))
  | None => VNaN
  end.

(** ** Array.prototype.sort

    The stable sort of the standard, as an insertion sort; [after a b] says
    that [a] has to come after [b]. *)
Section Sort.
Context {A : Type} (after : A -> A -> bool).

Fixpoint insert (x : A) (l : list A) : list A :=
  match l with
  | [] => [x]
  | y :: rest => if after x y then y :: insert x rest else x :: l
  end.

Fixpoint sort_with (l : list A) : list A :=
  match l with
  | [] => []
  | x :: rest => insert x (sort_with rest)
  end.
End Sort.

(** With a comparison function: [cmp a b] is the value the function returns;
    a positive number puts [b] first, anything else (NaN included, read as
    +0) keeps the order. *)
Definition sort {A : Type} (cmp : A -> A -> value) : list A -> list A :=
  sort_with (fun a b => gt (cmp a b) (VNum 0%Q)).

(** Without one: by the code units of the elements' strings. *)
Definition sort_default : list value -> list value :=
  sort_with (fun a b => string_ltb (to_string b) (to_string a)).

(** ** Objects, arrays and sets *)

(** [{...obj, k: v}]: an existing key keeps its place. *)
Fixpoint set_prop (k : string) (v : value) (props : list (string * value))
  : list (string * value) :=
  match props with
  | [] => [(k, v)]
  | (k', v') :: rest =>
      if k' =? k then (k, v) :: rest else (k', v') :: set_prop k v rest
  end.

Fixpoint indexed (i : nat) (items : list value) : list (string * value) :=
  match items with
  | [] => []
  | x :: rest => (string_of_Z (Z.of_nat i), x) :: indexed (S i) rest
  end.

Fixpoint chars (s : string) : list value :=
  match s with
  | EmptyString => []
  | String c rest => VStr (String c EmptyString) :: chars rest
  end.

(** The own enumerable properties copied by [{...v}]. *)
Definition spread (v : value) : list (string * value) :=
  match v with
  | VObj props => props
  | VArr items => indexed 0 items
  | VStr s => indexed 0 (chars s)
  | _ => []
  end.

(** [v.length]. *)
Definition length_of (v : value) : value :=
  match v with
  | VArr items => VNum (inject_Z (Z.of_nat (List.length items)))
  | VStr s => VNum (inject_Z (Z.of_nat (String.length s)))
  | _ => own_prop v "length"
  end.

(** The elements [...v] spreads into an argument list; an object is not
    iterable. *)
Definition iterate (v : value) : outcome (list value) :=
  match v with
  | VArr items => Ret items
  | VStr s => Ret (chars s)
  | _ => Throw "TypeError"
  end.

(** The elements visited by [v.forEach(...)]; only arrays have the method. *)
Definition forEach_items (v : value) : outcome (list value) :=
  match v with
  | VArr items => Ret items
  | _ => Throw "TypeError"
  end.

(** What the callback of [flatMap] contributes. *)
Definition flatten1 (v : value) : list value :=
  match v with
  | VArr items => items
  | _ => [v]
  end.

(** SameValueZero, the equality of [Set]; two parsed objects are never the
    same object. *)
Definition same_value_zero (a b : value) : bool :=
  match a, b with
  | VNaN, VNaN => true
  | _, _ => strict_eq a b
  end.

Definition set_add (s : list value) (v : value) : list value :=
  if existsb (same_value_zero v) s then s else (s ++ [v])%list.

Definition set_of (l : list value) : list value := fold_left set_add l [].

Definition concat_sep (sep : string) (l : list string) : string :=
  match l with
  | [] => ""
  | s :: rest => fold_left (fun acc x => acc ++ sep ++ x) rest s
  end.

(** [arr.join(sep)]. *)
Definition join (sep : string) (l : list value) : string :=
  concat_sep sep
    (map (fun x => match x with
                   | VUndef | VNull => ""
                   | _ => to_string x
                   end) l).

(** [Math.max(...l)] on a non-empty list ([-Infinity], the value on the
    empty list, is not represented). *)
Definition math_max (l : list value) : value :=
  match l with
  | [] => VNaN
  | x :: rest =>
      fold_left (fun acc y =>
                   match to_number acc, to_number y with
                   | Some a, Some b => VNum (if Qle_bool a b then b else a)
                   | _, _ => VNaN
                   end) rest (of_number (to_number x))
  end.

(** ** JSON.stringify *)

Definition char (n : nat) : string := String (ascii_of_nat n) "".

Definition hex_digit (n : nat) : string :=
  char (if (n <? 10)%nat then 48 + n else 87 + n).

Definition escape_char (c : ascii) : string :=
  let n := nat_of_ascii c in
  if (n =? 34)%nat then "\" ++ char 34
  else if (n =? 92)%nat then "\\"
  else if (n =? 8)%nat then "\b"
  else if (n =? 9)%nat then "\t"
  else if (n =? 10)%nat then "\n"
  else if (n =? 12)%nat then "\f"
  else if (n =? 13)%nat then "\r"
  else if (n <? 32)%nat
       then "\u00" ++ hex_digit (n / 16) ++ hex_digit (n mod 16)
  else String c "".

Fixpoint escape (s : string) : string :=
  match s with
  | EmptyString => ""
  | String c rest => escape_char c ++ escape rest
  end.

Definition quote (s : string) : string := char 34 ++ escape s ++ char 34.

Fixpoint spaces (n : nat) : string :=
  match n with
  | O => ""
  | S k => " " ++ spaces k
  end.

(** [JSON.stringify(v, null, indent)] at nesting depth [depth]; [indent = 0]
    is the compact form.  [None] is [undefined]: the property is left out of
    an object and printed as [null] in an array. *)
Fixpoint stringify_at (indent depth : nat) (v : value) : option string :=
  let inner := spaces (indent * S depth) in
  let outer := spaces (indent * depth) in
  let nl := if (indent =? 0)%nat then "" else char 10 in
  let colon := if (indent =? 0)%nat then ":" else ": " in
  match v with
  | VUndef => None
  | VNull | VNaN => Some "null"
  | VBool true => Some "true"
  | VBool false => Some "false"
  | VNum q => Some (string_of_num q)
  | VStr s => Some (quote s)
  | VArr items =>
      match items with
      | [] => Some "[]"
      | _ =>
          let parts :=
            map (fun x => match stringify_at indent (S depth) x with
                          | Some t => inner ++ t
                          | None => inner ++ "null"
                          end) items in
          Some ("[" ++ nl ++ concat_sep ("," ++ nl) parts ++ nl ++ outer ++ "]")
      end
  | VObj props =>
      let parts :=
        (fix members (l : list (string * value)) : list string :=
           match l with
           | [] => []
           | (k, x) :: rest =>
               match stringify_at indent (S depth) x with
               | Some t => (inner ++ quote k ++ colon ++ t) :: members rest
               | None => members rest
               end
           end) props in
      match parts with
      | [] => Some "{}"
      | _ => Some ("{" ++ nl ++ concat_sep ("," ++ nl) parts ++ nl ++ outer ++ "}")
      end
  end.

Definition stringify (v : value) : option string := stringify_at 0 0 v.
Definition stringify_pretty (v : value) : option string := stringify_at 2 0 v.

End JS.

Import JS.

(* ===================================================================== *)
(** * Page classifiers (OCR post-processing script) *)
(* ===================================================================== *)

Module Classifier.

(** [/^97\d+$/.test(s)]. *)
Definition folio_pattern (s : string) : bool :=
  match list_ascii_of_string s with
  | a :: b :: c :: rest =>
      Ascii.eqb a "9"%char && Ascii.eqb b "7"%char && all_digits (c :: rest)
  | _ => false
  end.

Definition isEffectiveContinuationPage (ocr : value) : outcome value :=
  if negb (truthy ocr) then Ret (VBool false) else
  cont <- get ocr "meta_is_continuation_page" ;;
  if strict_eq cont (VBool true) then Ret (VBool true) else
  date <- get ocr "invoice_date" ;;
  let hasNoDate :=
    negb (truthy date) || strict_eq date (VStr "null")
    || strict_eq date (VStr "YYYY-MM-DD") in
  num <- get ocr "invoice_number" ;;
  let hasNoInvoiceNum :=
    negb (truthy num) || strict_eq num (VStr "N/A")
    || strict_eq num (VStr "null") || strict_eq num (VStr "string")
    || strict_eq num (VStr "unknown") in
  vid <- get ocr "vendor_id" ;;
  let hasNoVendorId := negb (truthy vid) in
  bu <- get ocr "bu_code" ;;
  let hasNoBuCode := negb (truthy bu) in
  vn <- get ocr "vendor_name" ;;
  let hasUnknownVendor :=
    negb (truthy vn) || strict_eq vn (VStr "unknown")
    || strict_eq vn (VStr "Unknown") in
  if hasNoDate && (hasNoInvoiceNum || hasNoVendorId) then Ret (VBool true) else
  if hasUnknownVendor && hasNoDate && hasNoVendorId && hasNoBuCode
  then Ret (VBool true) else
  Ret (VBool false).

Definition isHeaderPage (ocr : value) : outcome value :=
  if negb (truthy ocr) then Ret (VBool false) else
  vid <- get ocr "vendor_id" ;;
  if negb (truthy vid) then Ret vid else
  bu <- get ocr "bu_code" ;;
  if negb (truthy bu) then Ret bu else
  date <- get ocr "invoice_date" ;;
  if negb (truthy date) then Ret date else
  cont <- get ocr "meta_is_continuation_page" ;;
  Ret (VBool (negb (truthy cont))).

Definition isFolioPage (ocr : value) : outcome value :=
  if negb (truthy ocr) then Ret (VBool false) else
  invoiceNum <- get ocr "invoice_number" ;;
  if negb (truthy invoiceNum) then Ret invoiceNum else
  Ret (VBool (folio_pattern (to_string invoiceNum))).

(** The classifier of the specification, written from its sentence: the
    three disjuncts over the page's own fields. *)
Definition declared_continuation (p : value) : bool :=
  strict_eq (own_prop p "meta_is_continuation_page") (VBool true).

Definition date_missing (p : value) : bool :=
  let d := own_prop p "invoice_date" in
  negb (truthy d) || strict_eq d (VStr "null") || strict_eq d (VStr "YYYY-MM-DD").

Definition number_missing_or_placeholder (p : value) : bool :=
  let n := own_prop p "invoice_number" in
  negb (truthy n) || strict_eq n (VStr "N/A") || strict_eq n (VStr "null")
  || strict_eq n (VStr "string") || strict_eq n (VStr "unknown").

Definition vendor_id_missing (p : value) : bool :=
  negb (truthy (own_prop p "vendor_id")).

Definition business_code_missing (p : value) : bool :=
  negb (truthy (own_prop p "bu_code")).

Definition vendor_unknown (p : value) : bool :=
  let v := own_prop p "vendor_name" in
  negb (truthy v) || strict_eq v (VStr "unknown") || strict_eq v (VStr "Unknown").

Definition spec_effective_continuation (p : value) : Prop :=
  declared_continuation p = true
  \/ (date_missing p = true
      /\ (number_missing_or_placeholder p = true \/ vendor_id_missing p = true))
  \/ (vendor_unknown p = true /\ date_missing p = true
      /\ vendor_id_missing p = true /\ business_code_missing p = true).

Definition is_boolean (v : value) : Prop := exists b, v = VBool b.

Definition boolean_or_falsy (v : value) : Prop :=
  is_boolean v \/ truthy v = false.

End Classifier.

(* ===================================================================== *)
(** * Document assembly (OCR post-processing script) *)
(* ===================================================================== *)

Module Assembler.
Import Classifier.

(** A page: the CSV row (an object built by the CSV reader) and the parsed
    OCR payload of its [OCR] column. *)
Record page : Type := mkPage {
  row : list (string * value);
  ocr : value
}.

(** ** Vendor normalisation *)

(** [name.toLowerCase()] is a TypeError when [name] is not a string. *)
Definition normalizeVendorName (name : value) : outcome string :=
  if negb (truthy name) then Ret "" else
  match name with
  | VStr s =>
      let normalized := trim (toLowerCase s) in
      if includes "extended stay" normalized
         || includes "esa management" normalized
         || includes "esa suites" normalized
      then Ret "esa"
      else Ret normalized
  | _ => Throw "TypeError"
  end.

Definition isSameVendor (vendor1 vendor2 : value) : outcome bool :=
  a <- normalizeVendorName vendor1 ;;
  b <- normalizeVendorName vendor2 ;;
  Ret (a =? b).

Definition isUnknownVendor (vendorName : value) : outcome bool :=
  if negb (truthy vendorName) then Ret true else
  match vendorName with
  | VStr s =>
      let normalized := trim (toLowerCase s) in
      Ret ((normalized =? "unknown") || (normalized =? ""))
  | _ => Throw "TypeError"
  end.

(** ** Lazy connectives over outcomes *)

(** [a && m] and [a || m] where [a] is already evaluated. *)
Definition and_lazy (a : bool) (m : outcome bool) : outcome bool :=
  if a then m else Ret false.

Definition or_lazy (a : bool) (m : outcome bool) : outcome bool :=
  if a then Ret true else m.

(** [a && m] on values: [a] itself when it is falsy. *)
Definition and_value (a : value) (m : outcome value) : outcome value :=
  if truthy a then m else Ret a.

Definition test (m : outcome value) : outcome bool :=
  v <- m ;; Ret (truthy v).

Notation "a &&> m" := (and_lazy a m) (at level 45, right associativity).
Notation "a ||> m" := (or_lazy a m) (at level 46, right associativity).

Definition zero : value := VNum 0%Q.
Definition one : value := VNum 1%Q.

(** [o?.meta_source_page || 0] and [o?.invoice_total || 0]. *)
Definition source_page (o : value) : value :=
  or_else (get_opt o "meta_source_page") zero.

Definition total_of (o : value) : value :=
  or_else (get_opt o "invoice_total") zero.

(** The comparison function of both page sorts. *)
Definition by_source_page (a b : page) : value :=
  sub (source_page (ocr a)) (source_page (ocr b)).

(** ** One iteration of the grouping loop

    The loop reads the fields of the current, previous and first page with
    [?.]; where it reads one with a plain [.] the same field has just been
    found truthy through [?.] (as in [cur?.invoice_number &&
    cur.invoice_number !== 'N/A']), so both reads are [get_opt].  In the
    look-ahead the plain reads on the next page stand behind [nextOcr &&]
    and are [get]. *)

(** What the loop computes about the current page before it looks at the
    open group. *)
Record signals : Type := mkSignals {
  isContinuation : bool;
  isEffectiveCont : value;
  isHeader : value;
  hasGrandTotal : bool;
  invoiceTotal : value;
  currentPage : value
}.

Definition page_signals (currentOcr : value) : outcome signals :=
  eff <- isEffectiveContinuationPage currentOcr ;;
  hdr <- isHeaderPage currentOcr ;;
  Ret {| isContinuation :=
           strict_eq (get_opt currentOcr "meta_is_continuation_page") (VBool true);
         isEffectiveCont := eff;
         isHeader := hdr;
         hasGrandTotal :=
           strict_eq (get_opt currentOcr "meta_has_grand_total") (VBool true);
         invoiceTotal := total_of currentOcr;
         currentPage := source_page currentOcr |}.

(** [cur.bu_code && first.bu_code && cur.bu_code === first.bu_code]. *)
Definition same_bu_code (a b : value) : bool :=
  truthy (get_opt a "bu_code") && truthy (get_opt b "bu_code")
  && strict_eq (get_opt a "bu_code") (get_opt b "bu_code").

(** The merge signals: the [if ... else if] chain that may set [shouldMerge].
    A branch whose outer test holds ends the chain, whether or not its inner
    test sets the flag. *)
Definition merge_signal (s : signals) (isConsecutive : bool)
    (currentOcr prevOcr firstOcr : value) : outcome bool :=
  let cv := get_opt currentOcr "vendor_name" in
  let pv := get_opt prevOcr "vendor_name" in
  let fv := get_opt firstOcr "vendor_name" in
  c1 <- (isContinuation s && isConsecutive) &&> isSameVendor cv pv ;;
  if c1 then Ret true else
  c2 <- isConsecutive &&>
        (sv <- isSameVendor cv pv ;;
         Ret (sv && negb (hasGrandTotal s) && strict_eq (invoiceTotal s) zero)) ;;
  if c2 then Ret true else
  c3 <- (truthy (get_opt currentOcr "invoice_number")
         && negb (strict_eq (get_opt currentOcr "invoice_number") (VStr "N/A"))
         && strict_eq (get_opt prevOcr "invoice_number")
                      (get_opt currentOcr "invoice_number"))
        &&> isSameVendor cv pv ;;
  if c3 then Ret true else
  if (isContinuation s || truthy (isEffectiveCont s))
     && negb (truthy (get_opt currentOcr "vendor_id"))
     && negb (truthy (get_opt currentOcr "bu_code"))
     && isConsecutive
  then
    sv <- isSameVendor cv fv ;; sv ||> isUnknownVendor cv
  else
  c5 <- (truthy (isEffectiveCont s) && isConsecutive) &&> isSameVendor cv fv ;;
  if c5 then test (isHeaderPage firstOcr) else
  folio <- test (isFolioPage currentOcr) ;;
  c6 <- (folio && isConsecutive) &&> isSameVendor cv fv ;;
  if c6 then
    h <- test (isHeaderPage firstOcr) ;;
    Ret (h && negb (truthy (get_opt currentOcr "vendor_id")))
  else
  folio' <- test (isFolioPage currentOcr) ;;
  c7 <- (folio' && isConsecutive && same_bu_code currentOcr firstOcr
         && negb (truthy (get_opt currentOcr "vendor_id")))
        &&> isSameVendor cv fv ;;
  if c7 then Ret true else
  (truthy (isEffectiveCont s) && isConsecutive) &&>
  (u <- isUnknownVendor cv ;;
   Ret (u && strict_eq (get_opt currentOcr "meta_invoice_type")
                       (get_opt firstOcr "meta_invoice_type")
          && negb (truthy (get_opt currentOcr "vendor_id"))
          && negb (truthy (get_opt currentOcr "bu_code")))).

(** The first three overrides, an [if ... else if] chain; true when one of
    them clears the flag. *)
Definition override_chain (s : signals) (currentOcr prevOcr firstOcr : value)
  : outcome bool :=
  if truthy (isHeader s) && negb (isContinuation s) then Ret true else
  let plain := negb (isContinuation s) && negb (truthy (isEffectiveCont s)) in
  o2 <- (plain
         && truthy (get_opt currentOcr "invoice_number")
         && negb (strict_eq (get_opt currentOcr "invoice_number") (VStr "N/A"))
         && truthy (get_opt firstOcr "invoice_number")
         && negb (strict_eq (get_opt firstOcr "invoice_number") (VStr "N/A"))
         && negb (strict_eq (get_opt currentOcr "invoice_number")
                            (get_opt firstOcr "invoice_number")))
        &&> (f <- test (isFolioPage currentOcr) ;; Ret (negb f)) ;;
  if o2 then Ret true else
  if plain && hasGrandTotal s
     && truthy (get_opt prevOcr "meta_has_grand_total")
     && gt (invoiceTotal s) zero
     && gt (total_of prevOcr) zero
  then
    f <- test (isFolioPage currentOcr) ;;
    let isFolioWithSameBuCode := f && same_bu_code currentOcr firstOcr in
    Ret (negb isFolioWithSameBuCode)
  else Ret false.

(** The flag after the override block. *)
Definition apply_overrides (s : signals) (isConsecutive : bool)
    (prevPage : value) (currentOcr prevOcr firstOcr : value) : outcome bool :=
  o123 <- override_chain s currentOcr prevOcr firstOcr ;;
  sv <- isSameVendor (get_opt currentOcr "vendor_name")
                     (get_opt firstOcr "vendor_name") ;;
  o4 <- negb sv &&>
        (u <- isUnknownVendor (get_opt currentOcr "vendor_name") ;; Ret (negb u)) ;;
  let o5 := negb isConsecutive && gt (currentPage s) (add prevPage one) in
  Ret (negb (o123 || o4 || o5)).

Definition shouldMerge (s : signals) (currentOcr prevOcr firstOcr : value)
  : outcome bool :=
  let prevPage := source_page prevOcr in
  let isConsecutive := strict_eq (currentPage s) (add prevPage one) in
  m <- merge_signal s isConsecutive currentOcr prevOcr firstOcr ;;
  if m then apply_overrides s isConsecutive prevPage currentOcr prevOcr firstOcr
  else Ret false.

(** The look-ahead made after a page with a positive grand total has been
    appended: [shouldContinue]. *)
Definition shouldContinue (s : signals) (nextOcr firstOcr : value)
  : outcome value :=
  nextIsConsecutive <-
    and_value nextOcr
      (p <- get nextOcr "meta_source_page" ;;
       Ret (VBool (strict_eq p (add (currentPage s) one)))) ;;
  nextIsEffectiveCont <-
    and_value nextOcr (isEffectiveContinuationPage nextOcr) ;;
  nextIsSameVendor <-
    and_value nextOcr
      (v <- get nextOcr "vendor_name" ;;
       b <- isSameVendor v (get_opt firstOcr "vendor_name") ;;
       Ret (VBool b)) ;;
  nextIsFolio <- and_value nextOcr (isFolioPage nextOcr) ;;
  nextHasSameBuCode <-
    and_value nextOcr
      (b <- get nextOcr "bu_code" ;;
       and_value b
         (Ret (and_then (get_opt firstOcr "bu_code")
                 (VBool (strict_eq b (get_opt firstOcr "bu_code")))))) ;;
  nextIsNewHeader <- and_value nextOcr (isHeaderPage nextOcr) ;;
  and_value nextIsConsecutive
    (and_value nextIsSameVendor
       (if truthy nextIsEffectiveCont then Ret nextIsEffectiveCont else
        and_value nextIsFolio
          (and_value nextHasSameBuCode
             (and_value (VBool (negb (truthy nextIsNewHeader)))
                (v <- get nextOcr "vendor_id" ;;
                 Ret (VBool (negb (truthy v)))))))).

Definition state : Type := (list (list page) * list page)%type.

(** The body of the [for] loop on page [current], [next] being the page
    after it, if any. *)
Definition step (current : page) (next : option page) (st : state)
  : outcome state :=
  let '(invoiceGroups, currentGroup) := st in
  let currentOcr := ocr current in
  s <- page_signals currentOcr ;;
  match currentGroup with
  | [] => Ret (invoiceGroups, [current])
  | firstInGroup :: _ =>
      let prev := last currentGroup firstInGroup in
      m <- shouldMerge s currentOcr (ocr prev) (ocr firstInGroup) ;;
      if m then
        let currentGroup' := (currentGroup ++ [current])%list in
        if hasGrandTotal s && gt (invoiceTotal s) zero
           && negb (truthy (isEffectiveCont s))
        then
          let nextOcr := match next with
                         | Some p => ocr p
                         | None => VUndef
                         end in
          c <- shouldContinue s nextOcr (ocr firstInGroup) ;;
          if negb (truthy c)
          then Ret ((invoiceGroups ++ [currentGroup'])%list, [])
          else Ret (invoiceGroups, currentGroup')
        else Ret (invoiceGroups, currentGroup')
      else Ret ((invoiceGroups ++ [currentGroup])%list, [current])
  end.

Fixpoint loop (pages : list page) (st : state) : outcome state :=
  match pages with
  | [] => Ret st
  | current :: rest =>
      st' <- step current (hd_error rest) st ;;
      loop rest st'
  end.

(** "Don't forget the last group". *)
Definition finish (st : state) : list (list page) :=
  let '(invoiceGroups, currentGroup) := st in
  match currentGroup with
  | [] => invoiceGroups
  | _ => (invoiceGroups ++ [currentGroup])%list
  end.

Section ProcessInvoices.

(** [parseOCR] (boilerplate stripping, brace repair and [JSON.parse], null
    when the text does not parse) is given; it receives the [OCR] column of
    the row. *)
Variable parseOCR : value -> value.

Definition pagesWithOcr (rows : list (list (string * value))) : list page :=
  filter (fun p => negb (strict_eq (ocr p) VNull))
         (map (fun r => mkPage r (parseOCR (lookup "OCR" r))) rows).

Definition processInvoices (rows : list (list (string * value)))
  : outcome (list (list page)) :=
  let sorted := sort by_source_page (pagesWithOcr rows) in
  st <- loop sorted ([], []) ;;
  Ret (finish st).

End ProcessInvoices.

End Assembler.

(* ===================================================================== *)
(** * Field reconciliation (OCR post-processing script) *)
(* ===================================================================== *)

Module Reconciler.
Import Assembler.

Definition str (s : string) : value := VStr s.
Definition num (z : Z) : value := VNum (inject_Z z).

(** ** Line items *)

(** The key of [deduplicateLineItems]; reading a field of a null item is a
    TypeError. *)
Definition line_item_key (item : value) : outcome string :=
  d <- get item "date" ;;
  desc <- get item "description" ;;
  a <- get item "amount" ;;
  Ret (to_string (or_else d (str "")) ++ "|"
       ++ to_string (or_else desc (str "")) ++ "|"
       ++ to_string (or_else a zero)).

Fixpoint dedup_from (seen : list string) (items : list value)
  : outcome (list value) :=
  match items with
  | [] => Ret []
  | item :: rest =>
      key <- line_item_key item ;;
      if existsb (String.eqb key) seen
      then dedup_from seen rest
      else kept <- dedup_from (key :: seen) rest ;; Ret (item :: kept)
  end.

Definition deduplicateLineItems (items : list value) : outcome (list value) :=
  dedup_from [] items.

(** [pageOcrs.forEach(ocr => { if (ocr?.line_items && ocr.line_items.length
    > 0) allLineItems.push(...ocr.line_items) })]. *)
Fixpoint collect_line_items (pageOcrs : list value) (acc : list value)
  : outcome (list value) :=
  match pageOcrs with
  | [] => Ret acc
  | o :: rest =>
      let li := get_opt o "line_items" in
      if truthy li && gt (length_of li) zero
      then items <- iterate li ;; collect_line_items rest (acc ++ items)%list
      else collect_line_items rest acc
  end.

(** [pageOcrs.forEach(ocr => { if (ocr?.[field]) ocr[field].forEach(c =>
    set.add(f(c))) })]. *)
Fixpoint collect_set (field : string) (f : value -> value)
    (pageOcrs : list value) (acc : list value) : outcome (list value) :=
  match pageOcrs with
  | [] => Ret acc
  | o :: rest =>
      let xs := get_opt o field in
      if truthy xs
      then items <- forEach_items xs ;;
           collect_set field f rest (fold_left set_add (map f items) acc)
      else collect_set field f rest acc
  end.

(** [typeof c === 'string' ? c : JSON.stringify(c)]. *)
Definition allocation_key (c : value) : value :=
  match c with
  | VStr _ => c
  | _ => match stringify c with
         | Some s => VStr s
         | None => VUndef
         end
  end.

Section CreateMergedInvoice.

(** [JSON.parse] is given. *)
Variable JSON_parse : string -> outcome value.

(** [try { return JSON.parse(c) } catch { return c }]. *)
Definition parse_or_keep (c : value) : value :=
  match JSON_parse (to_string c) with
  | Ret v => v
  | Throw _ => c
  end.

Definition single_page (p : page) : value :=
  let o := ocr p in
  VObj
    (set_prop "all_source_rows" (VArr [lookup "Number" (row p)])
       (set_prop "all_source_file_ids" (VArr [lookup "File ID" (row p)])
          (set_prop "merge_info"
             (VObj [("page_count", num 1);
                    ("source_pages", VArr [source_page o]);
                    ("was_merged", VBool false);
                    ("merge_reasoning", str "Single-page invoice")])
             (spread o)))).

(** The page the totals are taken from: the first of the pages with a grand
    total and a positive amount, sorted by decreasing amount. *)
Definition pagesWithTotal (pages : list page) : list page :=
  sort (fun a b => sub (total_of (ocr b)) (total_of (ocr a)))
       (filter (fun p => truthy (get_opt (ocr p) "meta_has_grand_total")
                         && gt (total_of (ocr p)) zero) pages).

Definition first_ocr (pages : list page) : value :=
  match pages with
  | [] => VUndef
  | p :: _ => ocr p
  end.

Definition totalOcr_of (pages : list page) : value :=
  or_else (first_ocr (pagesWithTotal pages)) (first_ocr pages).

Definition headerOcr_of (pages : list page) : value :=
  let headerPage :=
    find (fun p => truthy (get_opt (ocr p) "vendor_id")
                   || truthy (get_opt (ocr p) "bu_code")
                   || truthy (get_opt (ocr p) "processor_name")) pages in
  or_else (match headerPage with
           | Some p => ocr p
           | None => VUndef
           end) (first_ocr pages).

Definition merge_reasoning (pageOcrs sourcePages : list value) : string :=
  let part1 :=
    if existsb (fun o => truthy (get_opt o "meta_is_continuation_page")) pageOcrs
    then [str "Contains continuation pages"] else [] in
  let part2 :=
    match find (fun o => truthy (get_opt o "meta_has_grand_total")) pageOcrs with
    | Some totalPage =>
        [str ("Grand total on page "
              ++ to_string (get_opt totalPage "meta_source_page"))]
    | None => []
    end in
  join ", " (part1 ++ part2 ++ [str ("Pages " ++ join ", " sourcePages)])%list.

Definition multi_page (pages : list page) : outcome value :=
  let pageOcrs := map ocr pages in
  let pageRows := map row pages in
  let totalOcr := totalOcr_of pages in
  let headerOcr := headerOcr_of pages in
  allLineItems <- collect_line_items pageOcrs [] ;;
  mergedLineItems <- deduplicateLineItems allLineItems ;;
  allConfirmations <- collect_set "confirmation_numbers" (fun c => c) pageOcrs [] ;;
  allCostAllocations <- collect_set "cost_allocations" allocation_key pageOcrs [] ;;
  let sourcePages := sort sub (map source_page pageOcrs) in
  let serviceDates :=
    sort_default
      (filter truthy
         (flat_map (fun o => [get_opt o "service_start"; get_opt o "service_end"])
                   pageOcrs)) in
  let from_header k := or_else (get_opt headerOcr k) (get_opt totalOcr k) in
  let from_total k := or_else (get_opt totalOcr k) zero in
  let all_of k :=
    flat_map (fun o => flatten1 (or_else (get_opt o k) (VArr []))) pageOcrs in
  Ret (VObj
    [("meta_confidence",
        math_max (map (fun o => or_else (get_opt o "meta_confidence") zero) pageOcrs));
     ("meta_invoice_type",
        or_else (get_opt headerOcr "meta_invoice_type") (str "UNKNOWN"));
     ("meta_is_full_invoice", VBool true);
     ("meta_is_continuation_page", VBool false);
     ("meta_has_grand_total", VBool true);
     ("meta_source_page", hd VUndef sourcePages);
     ("meta_source_file", get_opt headerOcr "meta_source_file");
     ("meta_notes", VArr (all_of "meta_notes"));
     ("invoice_number",
        if truthy (get_opt headerOcr "invoice_number")
           && negb (strict_eq (get_opt headerOcr "invoice_number") (str "N/A"))
        then get_opt headerOcr "invoice_number"
        else or_else (get_opt totalOcr "invoice_number") (str "N/A"));
     ("invoice_date", from_header "invoice_date");
     ("due_date", from_header "due_date");
     ("vendor_name", from_header "vendor_name");
     ("vendor_id", from_header "vendor_id");
     ("vendor_address", from_header "vendor_address");
     ("vendor_phone", from_header "vendor_phone");
     ("vendor_email", from_header "vendor_email");
     ("payer_name", from_header "payer_name");
     ("payer_address", from_header "payer_address");
     ("bu_code", from_header "bu_code");
     ("processor_name", from_header "processor_name");
     ("processor_date", from_header "processor_date");
     ("invoice_total", from_total "invoice_total");
     ("amount_paid", from_total "amount_paid");
     ("amount_due", from_total "amount_due");
     ("taxes", from_total "taxes");
     ("service_start", or_else (hd VUndef serviceDates) VNull);
     ("service_end", or_else (last serviceDates VUndef) VNull);
     ("service_description", from_header "service_description");
     ("property_name", from_header "property_name");
     ("property_address", from_header "property_address");
     ("unit_count",
        math_max (map (fun o => or_else (get_opt o "unit_count") zero) pageOcrs));
     ("line_items", VArr mergedLineItems);
     ("cost_allocations", VArr (map parse_or_keep allCostAllocations));
     ("confirmation_numbers", VArr allConfirmations);
     ("employee_names", VArr (set_of (all_of "employee_names")));
     ("reference_numbers", VArr (set_of (all_of "reference_numbers")));
     ("merge_info",
        VObj [("page_count", num (Z.of_nat (List.length pages)));
              ("source_pages", VArr sourcePages);
              ("was_merged", VBool true);
              ("merge_reasoning", str (merge_reasoning pageOcrs sourcePages))]);
     ("all_source_file_ids", VArr (map (lookup "File ID") pageRows));
     ("all_source_rows", VArr (map (lookup "Number") pageRows))]).

Definition createMergedInvoice (pages : list page) : outcome value :=
  match pages with
  | [] => Ret VNull
  | _ =>
      let pages := sort by_source_page pages in
      match pages with
      | [p] => Ret (single_page p)
      | _ => multi_page pages
      end
  end.

End CreateMergedInvoice.

End Reconciler.

(* ===================================================================== *)
(** * Ledger matching (ledger/OCR merge script) *)
(* ===================================================================== *)

Module Matcher.

Definition str (s : string) : value := VStr s.
Definition quoted (s : string) : string := char 34 ++ s ++ char 34.

(** ** Normalisation *)

Definition VENDOR_MAPPINGS : list (string * string) :=
  [ ("extended stay america", "ESA MANAGEMENT LLC");
    ("esa management l.l.c.", "ESA MANAGEMENT LLC");
    ("esa management llc", "ESA MANAGEMENT LLC");
    ("esa management", "ESA MANAGEMENT LLC");
    ("esa suites", "ESA MANAGEMENT LLC");
    ("esa", "ESA MANAGEMENT LLC");
    ("the ave", "THE AVE NASHVILLE LLC");
    ("the ave nashville", "THE AVE NASHVILLE LLC");
    ("the ave nashville llc", "THE AVE NASHVILLE LLC");
    ("hillside crossing hotel", "HILLSIDE CROSSING LLC");
    ("hillside crossing llc", "HILLSIDE CROSSING LLC");
    ("hillside crossing", "HILLSIDE CROSSING LLC");
    ("randstad", "Randstad North America Inc dba Randstad USA LLC");
    ("randstad usa", "Randstad North America Inc dba Randstad USA LLC");
    ("randstad north america", "Randstad North America Inc dba Randstad USA LLC");
    ("depaul usa", "Depaul USA");
    ("depaul", "Depaul USA");
    ("community care fellowship, inc.", "COMMUNITY CARE FELLOWSHIP");
    ("community care fellowship", "COMMUNITY CARE FELLOWSHIP");
    ("rj young", "RJ Young Company LLC");
    ("r.j. young", "RJ Young Company LLC");
    ("robert j young company", "RJ Young Company LLC");
    ("rj young company llc", "RJ Young Company LLC");
    ("grainger", quoted "W.W. Grainger, Inc. dba Grainger");
    ("w.w. grainger", quoted "W.W. Grainger, Inc. dba Grainger");
    ("w.w. grainger, inc.", quoted "W.W. Grainger, Inc. dba Grainger");
    ("w.w. grainger, inc. dba grainger", quoted "W.W. Grainger, Inc. dba Grainger");
    ("97 wallace studios, llc", "97 WALLACE STUDIOS");
    ("97 wallace studios", "97 WALLACE STUDIOS");
    ("thompson machinery", "Thompson Machinery Commerce Corp.");
    ("thompson machinery commerce corp.", "Thompson Machinery Commerce Corp.");
    ("gordon food service inc.", quoted "Gordon Food Service, Inc.");
    ("gordon food service", quoted "Gordon Food Service, Inc.");
    ("gordon food service store", quoted "Gordon Food Service, Inc.");
    ("gordon food service, inc.", quoted "Gordon Food Service, Inc.");
    ("j hamilton", quoted "Hamilton, Justen T");
    ("hamilton, justen t", quoted "Hamilton, Justen T");
    ("justen hamilton", quoted "Hamilton, Justen T");
    ("the hospitality hub of memphis", "The Hospitality Hub of Memphis");
    ("hospitality hub", "The Hospitality Hub of Memphis") ].

Fixpoint assoc (k : string) (table : list (string * string)) : option string :=
  match table with
  | [] => None
  | (k', v) :: rest => if k' =? k then Some v else assoc k rest
  end.

(** [VENDOR_MAPPINGS[lower]].  Besides its own keys the table answers to the
    names it inherits from [Object.prototype]; the two a lower-cased name can
    spell give a function and an object, both truthy and neither a
    string. *)
Definition mapping_lookup (lower : string) : value :=
  match assoc lower VENDOR_MAPPINGS with
  | Some v => VStr v
  | None =>
      if (lower =? "constructor") || (lower =? "__proto__")
      then VObj []
      else VUndef
  end.

Definition normalizeVendorForLedgerMatch (vendorName : value) : outcome value :=
  if negb (truthy vendorName) then Ret (str "") else
  match vendorName with
  | VStr s =>
      let lower := trim (toLowerCase s) in
      Ret (or_else (mapping_lookup lower) vendorName)
  | _ => Throw "TypeError"
  end.

Definition normalizeInvoiceNumber (invoiceNum : value) : string :=
  if negb (truthy invoiceNum) then "" else
  toUpperCase (strip_leading_zeros (trim (to_string invoiceNum))).

(** [/^\d{4}-\d{2}-\d{2}$/.test(s)]. *)
Definition iso_date (s : string) : bool :=
  match list_ascii_of_string s with
  | [y1; y2; y3; y4; d1; m1; m2; d2; a1; a2] =>
      all_digits [y1; y2; y3; y4; m1; m2; a1; a2]
      && Ascii.eqb d1 "-"%char && Ascii.eqb d2 "-"%char
  | _ => false
  end.

Definition split_at_slash (l : list ascii) : list ascii * option (list ascii) :=
  let (ds, rest) := span_digits l in
  match rest with
  | c :: tl => if Ascii.eqb c "/"%char then (ds, Some tl) else (ds, None)
  | [] => (ds, None)
  end.

Definition one_or_two (l : list ascii) : bool :=
  match l with
  | [_] | [_; _] => true
  | _ => false
  end.

(** [s.match(/^(\d{1,2})\/(\d{1,2})\/(\d{4})$/)]: month, day and year. *)
Definition us_date (s : string) : option (string * string * string) :=
  match split_at_slash (list_ascii_of_string s) with
  | (m, Some r1) =>
      match split_at_slash r1 with
      | (d, Some y) =>
          if one_or_two m && one_or_two d
             && (List.length y =? 4)%nat && all_digits y
          then Some (string_of_list_ascii m, string_of_list_ascii d,
                     string_of_list_ascii y)
          else None
      | _ => None
      end
  | _ => None
  end.

Definition normalizeDate (dateStr : value) : string :=
  if negb (truthy dateStr) then "" else
  let s := trim (to_string dateStr) in
  if iso_date s then s else
  match us_date s with
  | Some (month, day, year) => year ++ "-" ++ padStart2 month ++ "-" ++ padStart2 day
  | None => s
  end.

(** [s.toUpperCase()] as a method call: a TypeError off strings. *)
Definition upper (v : value) : outcome value :=
  match v with
  | VStr s => Ret (VStr (toUpperCase s))
  | _ => Throw "TypeError"
  end.

(** [Math.round((x || 0) * 100)]: the amount in cents. *)
Definition cents (x : value) : value :=
  round (mul (or_else x (VNum 0%Q)) (VNum 100%Q)).

Definition two_digits (z : Z) : string :=
  (if (z <? 10)%Z then "0" else "") ++ string_of_Z z.

(** [x.toFixed(2)]. *)
Definition toFixed2 (x : value) : string :=
  match to_number x with
  | None => "NaN"
  | Some q =>
      let n := Qfloor (Qabs q * 100 + (1 # 2))%Q in
      (if Qle_bool 0%Q q then "" else "-")
      ++ string_of_Z (n / 100) ++ "." ++ two_digits (n mod 100)
  end.

(** ** Ledger entries and documents

    Both are heap objects: [indexOf] and [findIndex(o => o === ocr)] compare
    them by reference, so each carries its identity next to its content. *)
Record entity : Type := mkEntity {
  ident : nat;
  body : value
}.

Definition same_object (a b : entity) : bool := (ident a =? ident b)%nat.

(** [const i = l.findIndex(o => o === x); if (i > -1) l.splice(i, 1)]. *)
Fixpoint remove_first (x : entity) (l : list entity) : list entity :=
  match l with
  | [] => []
  | y :: rest => if same_object y x then rest else y :: remove_first x rest
  end.

Record match_result : Type := mkMatch {
  ledger : entity;
  ocr : entity;
  matchInfo : value
}.

Definition match_info (type : string) (confidence : Q) (notes : string) : value :=
  VObj [("type", str type); ("confidence", VNum confidence); ("notes", str notes)].

Record mstate : Type := mkState {
  matches : list match_result;
  unmatchedLedger : list entity;
  unmatchedOcr : list entity
}.

(** ** The look-up index: a [Map] from a key to the documents filed under it,
    in filing order *)

Definition index : Type := list (string * list (entity * nat)).

Fixpoint index_get (k : string) (ix : index) : option (list (entity * nat)) :=
  match ix with
  | [] => None
  | (k', l) :: rest => if k' =? k then Some l else index_get k rest
  end.

(** [if (!m.has(k)) m.set(k, []); m.get(k).push(item)]. *)
Fixpoint index_push (k : string) (item : entity * nat) (ix : index) : index :=
  match ix with
  | [] => [(k, [item])]
  | (k', l) :: rest =>
      if k' =? k then (k', (l ++ [item])%list) :: rest
      else (k', l) :: index_push k item rest
  end.

Definition eligible (invoiceNum : string) : bool :=
  negb (invoiceNum =? "") && negb (invoiceNum =? "N/A").

(** The body of [ocrInvoices.forEach((ocr, idx) => ...)]. *)
Definition index_step (o : entity) (idx : nat) (ix : index * index)
  : outcome (index * index) :=
  let (ocrByInvoiceNum, ocrByVendorAndDate) := ix in
  n <- get (body o) "invoice_number" ;;
  let invoiceNum := normalizeInvoiceNumber n in
  let ocrByInvoiceNum' :=
    if eligible invoiceNum
    then index_push invoiceNum (o, idx) ocrByInvoiceNum
    else ocrByInvoiceNum in
  v <- get (body o) "vendor_name" ;;
  normalizedVendor <- normalizeVendorForLedgerMatch v ;;
  d <- get (body o) "invoice_date" ;;
  let dateKey := to_string normalizedVendor ++ "|" ++ to_string d in
  Ret (ocrByInvoiceNum', index_push dateKey (o, idx) ocrByVendorAndDate).

Fixpoint build_index (docs : list entity) (idx : nat) (ix : index * index)
  : outcome (index * index) :=
  match docs with
  | [] => Ret ix
  | o :: rest => ix' <- index_step o idx ix ;; build_index rest (S idx) ix'
  end.

(** ** Pass 1: by invoice number *)

Definition claim (l o : entity) (info : value) (st : mstate) : mstate :=
  {| matches := (matches st ++ [mkMatch l o info])%list;
     unmatchedLedger := remove_first l (unmatchedLedger st);
     unmatchedOcr := remove_first o (unmatchedOcr st) |}.

(** The [for ... of candidates] loop for one ledger entry. *)
Fixpoint pass1_scan (l : entity) (ledgerInvoiceNum : string)
    (candidates : list (entity * nat)) (st : mstate) : outcome mstate :=
  match candidates with
  | [] => Ret st
  | (o, _) :: rest =>
      v <- get (body o) "vendor_name" ;;
      normalizedOcrVendor <- normalizeVendorForLedgerMatch v ;;
      ledgerVendor <- get (body l) "vendor_name" ;;
      a <- upper normalizedOcrVendor ;;
      b <- upper ledgerVendor ;;
      if strict_eq a b || strict_eq normalizedOcrVendor ledgerVendor
      then Ret (claim l o
                  (match_info "invoice_number" 0.95%Q
                     ("Matched by invoice number: " ++ ledgerInvoiceNum))
                  st)
      else pass1_scan l ledgerInvoiceNum rest st
  end.

Definition pass1_step (ocrByInvoiceNum : index) (l : entity) (st : mstate)
  : outcome mstate :=
  t <- get (body l) "document_type" ;;
  if negb (strict_eq t (str "Invoice")) then Ret st else
  n <- get (body l) "invoice_number" ;;
  let ledgerInvoiceNum := normalizeInvoiceNumber n in
  if ledgerInvoiceNum =? "" then Ret st else
  let candidates :=
    match index_get ledgerInvoiceNum ocrByInvoiceNum with
    | Some c => c
    | None => []
    end in
  pass1_scan l ledgerInvoiceNum candidates st.

Fixpoint pass1 (ocrByInvoiceNum : index) (ledgerEntries : list entity)
    (st : mstate) : outcome mstate :=
  match ledgerEntries with
  | [] => Ret st
  | l :: rest =>
      st' <- pass1_step ocrByInvoiceNum l st ;;
      pass1 ocrByInvoiceNum rest st'
  end.

(** ** Pass 2: by vendor, invoice date and amount *)

(** The test of the inner loop on one document. *)
Definition pass2_test (ledgerVendor : value) (ledgerDate : string)
    (ledgerAmount : value) (o : entity) : outcome bool :=
  v <- get (body o) "vendor_name" ;;
  normalizedOcrVendor <- normalizeVendorForLedgerMatch v ;;
  d <- get (body o) "invoice_date" ;;
  let ocrDate := normalizeDate d in
  t <- get (body o) "invoice_total" ;;
  let ocrAmount := cents t in
  a <- upper normalizedOcrVendor ;;
  b <- upper ledgerVendor ;;
  Ret (strict_eq a b && (ledgerDate =? ocrDate) && strict_eq ledgerAmount ocrAmount).

(** The [for ... of unmatchedOcr] loop, left at the first hit. *)
Fixpoint pass2_scan (ledgerVendor : value) (ledgerDate : string)
    (ledgerAmount : value) (pool : list entity) : outcome (option entity) :=
  match pool with
  | [] => Ret None
  | o :: rest =>
      hit <- pass2_test ledgerVendor ledgerDate ledgerAmount o ;;
      if hit then Ret (Some o)
      else pass2_scan ledgerVendor ledgerDate ledgerAmount rest
  end.

Definition pass2_notes (ledgerVendor : value) (ledgerDate : string)
    (ledgerAmount : value) : string :=
  "Matched by vendor (" ++ to_string ledgerVendor ++ "), invoice date ("
  ++ ledgerDate ++ "), and amount ($"
  ++ toFixed2 (of_number (option_map (fun q => (q / 100)%Q) (to_number ledgerAmount)))
  ++ ")".

Definition pass2_step (l : entity) (st : mstate) : outcome mstate :=
  ledgerVendor <- get (body l) "vendor_name" ;;
  d <- get (body l) "invoice_date" ;;
  let ledgerDate := normalizeDate d in
  x <- get (body l) "debit" ;;
  let ledgerAmount := cents x in
  if ledgerDate =? "" then Ret st else
  found <- pass2_scan ledgerVendor ledgerDate ledgerAmount (unmatchedOcr st) ;;
  match found with
  | Some o =>
      Ret {| matches :=
               (matches st ++
                [mkMatch l o
                   (match_info "vendor_date_amount" 0.85%Q
                      (pass2_notes ledgerVendor ledgerDate ledgerAmount))])%list;
             unmatchedOcr := remove_first o (unmatchedOcr st);
             unmatchedLedger := remove_first l (unmatchedLedger st) |}
  | None => Ret st
  end.

Fixpoint pass2 (remaining : list entity) (st : mstate) : outcome mstate :=
  match remaining with
  | [] => Ret st
  | l :: rest => st' <- pass2_step l st ;; pass2 rest st'
  end.

(** [l.filter(x => x.document_type === t)]. *)
Fixpoint of_type (t : string) (l : list entity) : outcome (list entity) :=
  match l with
  | [] => Ret []
  | x :: rest =>
      ty <- get (body x) "document_type" ;;
      tl <- of_type t rest ;;
      Ret (if strict_eq ty (str t) then x :: tl else tl)
  end.

Definition matchInvoices (ledgerEntries ocrInvoices : list entity)
  : outcome mstate :=
  let st0 := {| matches := [];
                unmatchedLedger := ledgerEntries;
                unmatchedOcr := ocrInvoices |} in
  ix <- build_index ocrInvoices 0 ([], []) ;;
  st1 <- pass1 (fst ix) ledgerEntries st0 ;;
  remaining <- of_type "Invoice" (unmatchedLedger st1) ;;
  pass2 remaining st1.

End Matcher.

(* ===================================================================== *)
(** * The merged output (ledger/OCR merge script, [main]) *)
(* ===================================================================== *)

Module Pipeline.
Import Matcher.

(** [{ k1: obj.k1, k2: obj.k2, ... }] for an object that is not null. *)
Definition pick (keys : list string) (obj : value) : value :=
  VObj (map (fun k => (k, own_prop obj k)) keys).

Definition ledger_keys : list string :=
  [ "document_type"; "document_number"; "vendor_name"; "vendor_id";
    "invoice_number"; "invoice_date"; "payment_date"; "gl_date"; "amount";
    "debit"; "credit"; "object_account"; "object_account_descr";
    "business_unit"; "fund"; "je_category"; "explanation"; "batch_type";
    "batch_number"; "batch_date"; "created"; "last_updated_by" ].

Definition ocr_keys : list string :=
  [ "meta_confidence"; "meta_invoice_type"; "meta_source_page";
    "meta_source_file"; "meta_notes"; "invoice_number"; "invoice_date";
    "due_date"; "vendor_name"; "vendor_id"; "vendor_address"; "vendor_phone";
    "vendor_email"; "payer_name"; "payer_address"; "bu_code";
    "processor_name"; "processor_date"; "invoice_total"; "amount_paid";
    "amount_due"; "taxes"; "service_start"; "service_end";
    "service_description"; "property_name"; "property_address"; "unit_count";
    "line_items"; "cost_allocations"; "confirmation_numbers";
    "employee_names"; "reference_numbers"; "merge_info";
    "all_source_file_ids"; "all_source_rows" ].

Definition createMergedRecord (ledgerEntry ocrData matchInfo : value) : value :=
  let either k := or_else (get_opt ledgerEntry k) (get_opt ocrData k) in
  VObj
    [ ("_data_sources",
         VObj [ ("ledger", VBool (truthy ledgerEntry));
                ("ocr", VBool (truthy ocrData));
                ("match_type", or_else (get_opt matchInfo "type") (str "none"));
                ("match_confidence",
                   or_else (get_opt matchInfo "confidence") (VNum 0%Q));
                ("match_notes", or_else (get_opt matchInfo "notes") (str "")) ]);
      ("ledger", if truthy ledgerEntry then pick ledger_keys ledgerEntry else VNull);
      ("ocr", if truthy ocrData then pick ocr_keys ocrData else VNull);
      ("unified",
         VObj [ ("vendor_name", or_else (either "vendor_name") (str ""));
                ("invoice_number", or_else (either "invoice_number") (str ""));
                ("invoice_date", or_else (either "invoice_date") (str ""));
                ("amount",
                   or_else (or_else (get_opt ledgerEntry "amount")
                                    (get_opt ocrData "invoice_total"))
                           (VNum 0%Q));
                ("payment_date",
                   or_else (get_opt ledgerEntry "payment_date") (str ""));
                ("category",
                   or_else (or_else (get_opt ledgerEntry "object_account_descr")
                                    (get_opt ocrData "meta_invoice_type"))
                           (str ""));
                ("line_items", or_else (get_opt ocrData "line_items") (VArr []));
                ("confirmation_numbers",
                   or_else (get_opt ocrData "confirmation_numbers") (VArr []));
                ("employee_names",
                   or_else (get_opt ocrData "employee_names") (VArr []));
                ("service_period",
                   if truthy ocrData
                   then str (trim
                          (to_string (or_else (own_prop ocrData "service_start") (str ""))
                           ++ " to "
                           ++ to_string (or_else (own_prop ocrData "service_end") (str ""))))
                   else str "") ]) ].

Definition metadata (generated_at : string) : value :=
  VObj
    [ ("generated_at", str generated_at);
      ("ledger_source", str "ledger.csv");
      ("ocr_source", str "data.csv");
      ("description",
         str "Merged financial data from Metro Nashville ledger (source of truth) and OCR-extracted invoice scans");
      ("data_source_legend",
         VObj [ ("LEDGER",
                   str "Authoritative data from Metro Nashville financial system - use for amounts, dates, vendor IDs");
                ("OCR",
                   str "Supplementary data from scanned invoice PDFs - provides line items, confirmation numbers, service details") ]) ].

(** [{ data_source: 'LEDGER', type: 'PAYROLL', ...j }]. *)
Definition journal_record (j : value) : value :=
  VObj (fold_left (fun acc kv => set_prop (fst kv) (snd kv) acc) (spread j)
          [("data_source", str "LEDGER"); ("type", str "PAYROLL")]).

(** The sections of the output that hold the data. *)
Record sections : Type := mkSections {
  matched_invoices : value;
  ledger_only : value;
  ocr_only : value
}.

Definition data_sections (ledgerEntries ocrInvoices : list entity)
  : outcome sections :=
  invoiceEntries <- of_type "Invoice" ledgerEntries ;;
  journalEntries <- of_type "Journal" ledgerEntries ;;
  r <- matchInvoices invoiceEntries ocrInvoices ;;
  stillInvoices <- of_type "Invoice" (unmatchedLedger r) ;;
  Ret {| matched_invoices :=
           VArr (map (fun m => createMergedRecord (body (ledger m)) (body (ocr m))
                                 (matchInfo m)) (matches r));
         ledger_only :=
           VObj [ ("invoices",
                     VArr (map (fun l =>
                                  createMergedRecord (body l) VNull
                                    (match_info "ledger_only" 1%Q
                                       "No matching OCR scan found"))
                               stillInvoices));
                  ("journals",
                     VArr (map (fun j => journal_record (body j)) journalEntries)) ];
         ocr_only :=
           VArr (map (fun o =>
                        createMergedRecord VNull (body o)
                          (match_info "ocr_only" 0.5%Q
                             "Not found in ledger - may be internal form or processing document"))
                     (unmatchedOcr r)) |}.

(** [mergedData]; [now] is what [new Date().toISOString()] reads from the
    clock. *)
Definition mergedData (now : string) (ledgerEntries ocrInvoices : list entity)
  : outcome value :=
  s <- data_sections ledgerEntries ocrInvoices ;;
  Ret (VObj [ ("_metadata", metadata now);
              ("matched_invoices", matched_invoices s);
              ("ledger_only", ledger_only s);
              ("ocr_only", ocr_only s) ]).

(** The text written to [merged-data.json]. *)
Definition merged_file (now : string) (ledgerEntries ocrInvoices : list entity)
  : outcome (option string) :=
  d <- mergedData now ledgerEntries ocrInvoices ;;
  Ret (stringify_pretty d).

End Pipeline.

(* ===================================================================== *)
(** * Vocabulary of the statements *)
(* ===================================================================== *)

Module Vocabulary.
Import Matcher.

Definition all_chars (p : ascii -> bool) (s : string) : bool :=
  forallb p (list_ascii_of_string s).

(** An invoice number that is empty, made of white space only, or made of
    zeros only. *)
Definition blank_invoice_number (s : string) : Prop :=
  s = ""
  \/ all_chars is_space s = true
  \/ all_chars (fun c => Ascii.eqb c "0"%char) s = true.

(** The matches made by invoice number. *)
Definition by_invoice_number (m : match_result) : Prop :=
  own_prop (matchInfo m) "type" = VStr "invoice_number".

(** The normalised invoice number of a document. *)
Definition doc_number (o : entity) : string :=
  normalizeInvoiceNumber (own_prop (body o) "invoice_number").

(** Every document filed in the invoice-number index has an eligible
    normalised number. *)
Definition index_sound (ix : index) : Prop :=
  forall k l o i, index_get k ix = Some l -> In (o, i) l ->
                  eligible (doc_number o) = true.

(** The invariant of both passes: a match made by invoice number holds a
    document with an eligible number. *)
Definition matches_sound (st : mstate) : Prop :=
  forall m, In m (matches st) -> by_invoice_number m ->
            eligible (doc_number (ocr m)) = true.

(** A parsed document or ledger entry: an object. *)
Definition is_object (v : value) : bool :=
  match v with
  | VObj _ => true
  | _ => false
  end.

(** The vendor of a document as Pass 1 and Pass 2 compare it: mapped through
    the vendor table and upper-cased; [None] when the code throws on it. *)
Definition vendor_key (o : entity) : option string :=
  match normalizeVendorForLedgerMatch (own_prop (body o) "vendor_name") with
  | Ret (VStr s) => Some (toUpperCase s)
  | _ => None
  end.

Definition well_formed_doc (o : entity) : Prop :=
  is_object (body o) = true /\ vendor_key o <> None.

(** A document agrees with a ledger entry of vendor [lv], invoice date [d]
    and debit [x]: same vendor without regard to case, same normalised date,
    same amount in cents. *)
Definition agrees (lv : string) (d x : value) (o : entity) : bool :=
  match vendor_key o with
  | Some k =>
      (k =? toUpperCase lv)
      && (normalizeDate d =? normalizeDate (own_prop (body o) "invoice_date"))
      && strict_eq (cents x) (cents (own_prop (body o) "invoice_total"))
  | None => false
  end.

(** How far the matches are one to one: two matches may hold the same
    document only when both were made by invoice number. *)
Definition share_rule (m m' : match_result) : Prop :=
  ident (ocr m) = ident (ocr m') -> by_invoice_number m /\ by_invoice_number m'.

Definition ledger_ids (st : mstate) : list nat :=
  map (fun m => ident (ledger m)) (matches st).

Definition doc_ids (st : mstate) : list nat :=
  map (fun m => ident (ocr m)) (matches st).

(** What both passes keep true of the pools: the objects of a pool are
    distinct, and what has been matched is in no pool. *)
Record pools_sound (st : mstate) : Prop := mkPoolsSound {
  ledger_distinct : NoDup (map ident (unmatchedLedger st));
  docs_distinct : NoDup (map ident (unmatchedOcr st));
  ledger_consumed :
    forall i, In i (ledger_ids st) -> ~ In i (map ident (unmatchedLedger st));
  docs_consumed :
    forall i, In i (doc_ids st) -> ~ In i (map ident (unmatchedOcr st))
}.

(** The ledger entries still to be visited are distinct and not matched
    yet. *)
Definition fresh_entries (remaining : list entity) (st : mstate) : Prop :=
  NoDup (map ident remaining)
  /\ forall x, In x remaining -> ~ In (ident x) (ledger_ids st).

(** Identities of the ledger entry and of the document of each match. *)
Definition pairs (st : mstate) : list (nat * nat) :=
  map (fun m => (ident (ledger m), ident (ocr m))) (matches st).

End Vocabulary.

(* ===================================================================== *)
(** * Sample inputs *)
(* ===================================================================== *)

Module Samples.
Import Matcher.

Definition ledger_line (i : nat) (number vendor date : string) (debit : Q)
  : entity :=
  mkEntity i (VObj [ ("document_type", VStr "Invoice");
                     ("invoice_number", VStr number);
                     ("vendor_name", VStr vendor);
                     ("invoice_date", VStr date);
                     ("debit", VNum debit) ]).

Definition document (i : nat) (number vendor date : string) (total : Q)
  : entity :=
  mkEntity i (VObj [ ("invoice_number", VStr number);
                     ("vendor_name", VStr vendor);
                     ("invoice_date", VStr date);
                     ("invoice_total", VNum total) ]).

(** Two ledger lines of one invoice (an invoice booked on two accounts) and
    the one scanned document of that invoice. *)
Definition split_invoice_ledger : list entity :=
  [ ledger_line 1 "INV-100" "Depaul USA" "9/8/2024" 10%Q;
    ledger_line 2 "INV-100" "Depaul USA" "9/8/2024" 20%Q ].

Definition split_invoice_docs : list entity :=
  [ document 10 "INV-100" "Depaul USA" "2024-09-08" 30%Q ].

(** The example of the specification for Pass 2. *)
Definition hotel_line : entity :=
  ledger_line 1 "" "Acme Hotels" "9/8/2024" 2240%Q.

Definition hotel_doc : entity :=
  document 10 "" "Acme Hotels" "2024-09-08" 2240%Q.

Definition start (ls os : list entity) : mstate :=
  {| matches := []; unmatchedLedger := ls; unmatchedOcr := os |}.

End Samples.

Module ReconcilerVocabulary.
Import Assembler Reconciler.

(** A page that can supply the totals: its grand-total flag is set and its
    total is positive. *)
Definition qualifies (p : page) : bool :=
  truthy (get_opt (ocr p) "meta_has_grand_total") && gt (total_of (ocr p)) zero.

(** The total of a page as a number. *)
Definition amount (p : page) : Q :=
  match to_number (total_of (ocr p)) with
  | Some q => q
  | None => 0%Q
  end.

(** [t] has the largest total among the qualifying pages of [pages], and is
    the first of them in the order of [pages] to have it. *)
Definition largest_total_first (pages : list page) (t : page) : Prop :=
  exists before after,
    filter qualifies pages = (before ++ t :: after)%list
    /\ (forall p, In p before -> (amount p < amount t)%Q)
    /\ (forall p, In p after -> (amount p <= amount t)%Q).

(** The order that ranks the pages with a total: [a] goes after [b]. *)
Definition smaller (a b : page) : bool :=
  gt (sub (total_of (ocr b)) (total_of (ocr a))) (VNum 0%Q).

Definition financial_fields : list string :=
  ["invoice_total"; "amount_paid"; "amount_due"; "taxes"].

(** The three properties the reconciler adds to a page. *)
Definition bookkeeping (k : string) : bool :=
  (k =? "merge_info") || (k =? "all_source_file_ids") || (k =? "all_source_rows").

Definition sample_page (n : Z) (fields : list (string * value)) : page :=
  mkPage [("Number", VStr "7"); ("File ID", VStr "f1")]
         (VObj (("meta_source_page", VNum (inject_Z n)) :: fields)).

Definition header10 : page :=
  sample_page 10 [ ("vendor_name", VStr "Extended Stay America");
                   ("vendor_id", VStr "V1"); ("bu_code", VStr "B1");
                   ("invoice_date", VStr "2024-09-01");
                   ("invoice_number", VStr "INV1") ].

Definition continuation11 : page :=
  sample_page 11 [ ("vendor_name", VStr "Extended Stay America");
                   ("meta_is_continuation_page", VBool true) ].

Definition folio12 : page :=
  sample_page 12 [ ("vendor_name", VStr "Extended Stay America");
                   ("invoice_number", VStr "9700123");
                   ("meta_has_grand_total", VBool true);
                   ("invoice_total", VNum 542.87%Q) ].

Definition no_JSON : string -> outcome value := fun _ => Throw "SyntaxError".

End ReconcilerVocabulary.

Module AssemblerVocabulary.
Import Classifier Assembler.

(** The vendor name of a page does not make the vendor normalisation throw:
    it is a string, or absent, or another falsy value. *)
Definition vendor_typed (o : value) : Prop :=
  returns (normalizeVendorName (get_opt o "vendor_name")).

(** The page index is a number. *)
Definition index_typed (o : value) : Prop :=
  exists c, get_opt o "meta_source_page" = VNum c.

(** The page carries a positive grand total. *)
Definition positive_grand_total (o : value) : bool :=
  strict_eq (get_opt o "meta_has_grand_total") (VBool true)
  && gt (total_of o) zero.

Definition effective_continuation (o : value) : bool :=
  match isEffectiveContinuationPage o with
  | Ret v => truthy v
  | Throw _ => false
  end.

Definition folio (o : value) : bool :=
  match isFolioPage o with
  | Ret v => truthy v
  | Throw _ => false
  end.

Definition same_vendor (a b : value) : bool :=
  match isSameVendor (get_opt a "vendor_name") (get_opt b "vendor_name") with
  | Ret r => r
  | Throw _ => false
  end.

(** The index of [next] is exactly one more than the index [c] of the
    current page. *)
Definition one_greater (c : Q) (next : value) : bool :=
  match get_opt next "meta_source_page" with
  | VNum n => Qeq_bool n (c + 1)%Q
  | _ => false
  end.

(** The condition under which the group stays open, from the sentence of the
    specification: the next page exists, is adjacent, has the vendor of the
    group's first page, and is an effective continuation or a folio page
    with the first page's business code and no vendor identifier. *)
Definition stays_open (c : Q) (first : value) (next : option page) : bool :=
  match next with
  | None => false
  | Some p =>
      let n := ocr p in
      one_greater c n
      && same_vendor n first
      && (effective_continuation n
          || (folio n && same_bu_code n first
              && negb (truthy (get_opt n "vendor_id"))))
  end.

(** The current page is appended to the open group: the merge decision of
    the loop body is positive. *)
Definition appended (current : page) (group : list page) : Prop :=
  exists s first,
    page_signals (ocr current) = Ret s
    /\ hd_error group = Some first
    /\ shouldMerge s (ocr current) (ocr (last group first)) (ocr first) = Ret true.

(** The page index as a number, for pages whose index is one. *)
Definition index_of (p : page) : Q :=
  match to_number (source_page (ocr p)) with
  | Some q => q
  | None => 0%Q
  end.

Definition index_numeric (p : page) : Prop :=
  to_number (source_page (ocr p)) <> None.

Definition index_le (a b : page) : Prop := (index_of a <= index_of b)%Q.

(** The first pages of the groups. *)
Definition heads (groups : list (list page)) : list page :=
  flat_map (fun g => match g with
                     | [] => []
                     | p :: _ => [p]
                     end) groups.

(** The order of the page sort: [a] goes after [b]. *)
Definition later (a b : page) : bool := gt (by_source_page a b) (VNum 0%Q).

(** The pages the loop has placed so far, in order: the closed groups, then
    the open one. *)
Definition pages_of (st : state) : list page :=
  (List.concat (fst st) ++ snd st)%list.

Definition groups_nonempty (st : state) : Prop :=
  Forall (fun g => g <> []) (fst st).

End AssemblerVocabulary.

Module PipelineVocabulary.
Import Matcher Pipeline.

(** Two readings of the clock, one millisecond apart. *)
Definition first_run : string := "2024-09-01T10:00:00.000Z".
Definition second_run : string := "2024-09-01T10:00:00.001Z".

(** Everything of the merged output but the time stamp. *)
Definition same_but_for_time_stamp (d1 d2 : value) : Prop :=
  (forall k, k <> "_metadata" -> own_prop d1 k = own_prop d2 k)
  /\ (forall k, k <> "generated_at" ->
                own_prop (own_prop d1 "_metadata") k
                = own_prop (own_prop d2 "_metadata") k).

End PipelineVocabulary.

Module AssemblerSamples.
Import Assembler ReconcilerVocabulary.

(** Four rows: the three pages of one invoice, out of order, and a row whose
    OCR text does not parse. *)
Definition sample_rows : list (list (string * value)) :=
  [ [("Number", VStr "3"); ("OCR", VStr "folio")];
    [("Number", VStr "1"); ("OCR", VStr "header")];
    [("Number", VStr "4"); ("OCR", VStr "garbage")];
    [("Number", VStr "2"); ("OCR", VStr "continuation")] ].

Definition sample_parse (text : value) : value :=
  if strict_eq text (VStr "header") then ocr header10
  else if strict_eq text (VStr "continuation") then ocr continuation11
  else if strict_eq text (VStr "folio") then ocr folio12
  else VNull.

(** A second invoice of the same vendor on the page after [folio12]. *)
Definition header13 : page :=
  sample_page 13 [ ("vendor_name", VStr "Extended Stay America");
                   ("vendor_id", VStr "V1"); ("bu_code", VStr "B2");
                   ("invoice_date", VStr "2024-09-02");
                   ("invoice_number", VStr "INV2") ].

(** A folio page that carries the grand total and a date of its own. *)
Definition dated_folio12 : page :=
  sample_page 12 [ ("vendor_name", VStr "Extended Stay America");
                   ("invoice_number", VStr "9700123");
                   ("invoice_date", VStr "2024-09-01");
                   ("meta_has_grand_total", VBool true);
                   ("invoice_total", VNum 542.87%Q) ].

End AssemblerSamples.

(* ===================================================================== *)
(** * Further vocabulary: what the groups of the assembler look like *)
(* ===================================================================== *)

Module GroupVocabulary.
Import Classifier Assembler AssemblerVocabulary.

(** [R first prev x] holds of every page [x] of a group but the first, [prev]
    being the page before it and [first] the first page of the group. *)
Fixpoint chain_ok (R : page -> page -> page -> Prop) (first prev : page)
    (rest : list page) : Prop :=
  match rest with
  | [] => True
  | x :: rest' => R first prev x /\ chain_ok R first x rest'
  end.

Definition group_ok (R : page -> page -> page -> Prop) (g : list page) : Prop :=
  match g with
  | [] => True
  | first :: rest => chain_ok R first first rest
  end.

(** [R] holds whenever the loop decides to append a page. *)
Definition merge_rule (R : page -> page -> page -> Prop) : Prop :=
  forall cur prev first s,
    page_signals (ocr cur) = Ret s ->
    shouldMerge s (ocr cur) (ocr prev) (ocr first) = Ret true ->
    R first prev cur.

Definition header_page (o : value) : bool :=
  match isHeaderPage o with
  | Ret v => truthy v
  | Throw _ => false
  end.

Definition unknown_vendor (o : value) : bool :=
  match isUnknownVendor (get_opt o "vendor_name") with
  | Ret u => u
  | Throw _ => false
  end.

(** The three rules read off the override block. *)
Definition not_a_header (first prev x : page) : Prop :=
  header_page (ocr x) = false.

Definition vendor_of_first (first prev x : page) : Prop :=
  same_vendor (ocr x) (ocr first) = true \/ unknown_vendor (ocr x) = true.

Definition no_gap (first prev x : page) : Prop :=
  forall a b,
    get_opt (ocr prev) "meta_source_page" = VNum a ->
    get_opt (ocr x) "meta_source_page" = VNum b ->
    (b <= a + 1)%Q.

(** The page is on the index after the one before it, or carries the
    invoice number and the vendor of the page before it. *)
Definition next_or_same_number (first prev x : page) : Prop :=
  strict_eq (source_page (ocr x)) (add (source_page (ocr prev)) one) = true
  \/ (truthy (get_opt (ocr x) "invoice_number") = true
      /\ strict_eq (get_opt (ocr x) "invoice_number") (VStr "N/A") = false
      /\ strict_eq (get_opt (ocr prev) "invoice_number")
                   (get_opt (ocr x) "invoice_number") = true
      /\ same_vendor (ocr x) (ocr prev) = true).

End GroupVocabulary.

(* ===================================================================== *)
(** * Further vocabulary: what the matcher accounts for *)
(* ===================================================================== *)

Module MatchVocabulary.
Import Matcher Vocabulary.

(** A ledger entry whose document type is 'Invoice'. *)
Definition invoice_line (l : entity) : bool :=
  strict_eq (own_prop (body l) "document_type") (VStr "Invoice").

Definition by_vendor_date_amount (m : match_result) : Prop :=
  own_prop (matchInfo m) "type" = VStr "vendor_date_amount".

(** The normalised invoice number of a ledger entry. *)
Definition ledger_number (l : entity) : string :=
  normalizeInvoiceNumber (own_prop (body l) "invoice_number").

(** The vendor of the ledger entry is a string, and the mapped vendor of the
    document is the same without regard to case. *)
Definition vendors_agree (l o : entity) : Prop :=
  exists lv, own_prop (body l) "vendor_name" = VStr lv
             /\ vendor_key o = Some (toUpperCase lv).

(** What a match made by invoice number rests on. *)
Definition number_rule (m : match_result) : Prop :=
  by_invoice_number m
  /\ own_prop (matchInfo m) "confidence" = VNum 0.95%Q
  /\ doc_number (ocr m) = ledger_number (ledger m)
  /\ ledger_number (ledger m) <> ""
  /\ vendors_agree (ledger m) (ocr m).

(** What a match made by vendor, date and amount rests on. *)
Definition amount_rule (m : match_result) : Prop :=
  by_vendor_date_amount m
  /\ own_prop (matchInfo m) "confidence" = VNum 0.85%Q
  /\ normalizeDate (own_prop (body (ledger m)) "invoice_date") <> ""
  /\ exists lv,
       own_prop (body (ledger m)) "vendor_name" = VStr lv
       /\ agrees lv (own_prop (body (ledger m)) "invoice_date")
                 (own_prop (body (ledger m)) "debit") (ocr m) = true.

Definition justified (m : match_result) : Prop :=
  number_rule m \/ amount_rule m.

(** The documents filed in an index come from [docs], each under its own
    normalised invoice number. *)
Definition index_of_docs (docs : list entity) (ix : index) : Prop :=
  forall k l o i, index_get k ix = Some l -> In (o, i) l ->
                  In o docs /\ doc_number o = k.

(** Every ledger entry and every document of the input is accounted for, and
    nothing else is. *)
Record accounted (ledgerEntries ocrInvoices : list entity) (st : mstate)
  : Prop := mkAccounted {
  ledger_known : incl (unmatchedLedger st) ledgerEntries;
  docs_known : incl (unmatchedOcr st) ocrInvoices;
  matches_known :
    forall m, In m (matches st) ->
              In (ledger m) ledgerEntries /\ In (ocr m) ocrInvoices;
  ledger_kept :
    forall x, In x ledgerEntries ->
              In x (unmatchedLedger st) \/ In x (map ledger (matches st));
  docs_kept :
    forall x, In x ocrInvoices ->
              In x (unmatchedOcr st) \/ In x (map ocr (matches st))
}.

(** What Pass 1 has established when it claims document [o] for ledger entry
    [l] out of the entries [ls] it visits. *)
Definition pass1_claim (ix : index) (ls : list entity) (l o : entity)
    (info : value) : Prop :=
  In l ls
  /\ invoice_line l = true
  /\ ledger_number l <> ""
  /\ (exists cands i, index_get (ledger_number l) ix = Some cands
                      /\ In (o, i) cands)
  /\ vendors_agree l o
  /\ own_prop info "type" = VStr "invoice_number"
  /\ own_prop info "confidence" = VNum 0.95%Q.

(** The same for Pass 2, in state [st]. *)
Definition pass2_claim (ls : list entity) (st : mstate) (l o : entity)
    (info : value) : Prop :=
  In l ls
  /\ In o (unmatchedOcr st)
  /\ normalizeDate (own_prop (body l) "invoice_date") <> ""
  /\ (exists lv,
         own_prop (body l) "vendor_name" = VStr lv
         /\ agrees lv (own_prop (body l) "invoice_date")
                   (own_prop (body l) "debit") o = true)
  /\ own_prop info "type" = VStr "vendor_date_amount"
  /\ own_prop info "confidence" = VNum 0.85%Q.

(** A ledger entry as [parseLedgerEntry] builds it: an object whose vendor
    name is a string. *)
Definition well_formed_line (l : entity) : Prop :=
  is_object (body l) = true
  /\ exists lv, own_prop (body l) "vendor_name" = VStr lv.

(** The pools hold entries and documents of the input only. *)
Definition pools_from (ledgerEntries ocrInvoices : list entity) (st : mstate)
  : Prop :=
  incl (unmatchedLedger st) ledgerEntries /\ incl (unmatchedOcr st) ocrInvoices.

End MatchVocabulary.

Module MatchSamples.
Import Matcher Samples.

(** Four ledger lines: one matched by its number, one by vendor, date and
    amount, one without a document, and a journal line; three documents, the
    last one without a ledger line. *)
Definition journal_line : entity :=
  mkEntity 4 (VObj [ ("document_type", VStr "Journal");
                     ("invoice_number", VStr "");
                     ("vendor_name", VStr "Payroll");
                     ("invoice_date", VStr "9/30/2024");
                     ("debit", VNum 5000%Q) ]).

Definition mixed_ledger : list entity :=
  [ ledger_line 1 "INV-100" "Depaul USA" "9/8/2024" 10%Q;
    ledger_line 2 "" "Acme Hotels" "9/8/2024" 2240%Q;
    ledger_line 3 "INV-300" "Nobody Inc" "9/9/2024" 7%Q;
    journal_line ].

Definition mixed_docs : list entity :=
  [ document 10 "0inv-100" "depaul" "2024-09-08" 10%Q;
    document 11 "" "Acme Hotels" "2024-09-08" 2240%Q;
    document 12 "X-9" "Somebody" "2024-09-10" 1%Q ].

End MatchSamples.

(* ===================================================================== *)
(** * Further vocabulary: line items and merged invoices *)
(* ===================================================================== *)

Module LineItemVocabulary.
Import Assembler Reconciler.

(** The key under which [deduplicateLineItems] files an item that is neither
    null nor undefined. *)
Definition key_of (item : value) : string :=
  match line_item_key item with
  | Ret k => k
  | Throw _ => ""
  end.

Definition is_nullish (v : value) : bool :=
  match v with
  | VUndef | VNull => true
  | _ => false
  end.

(** [l] is [l'] with some elements left out. *)
Inductive subsequence {A : Type} : list A -> list A -> Prop :=
| sub_nil : subsequence [] []
| sub_skip x l l' : subsequence l l' -> subsequence l (x :: l')
| sub_keep x l l' : subsequence l l' -> subsequence (x :: l) (x :: l').

(** The line items a page contributes to the merged invoice. *)
Definition page_items (o : value) : list value :=
  match get_opt o "line_items" with
  | VArr items => items
  | _ => []
  end.

(** An array, or a falsy value. *)
Definition list_or_absent (v : value) : bool :=
  match v with
  | VArr _ => true
  | _ => negb (truthy v)
  end.

(** The list fields of a page are arrays where they are present, and no
    line item is null or undefined. *)
Definition well_formed_lists (o : value) : Prop :=
  list_or_absent (get_opt o "line_items") = true
  /\ list_or_absent (get_opt o "confirmation_numbers") = true
  /\ list_or_absent (get_opt o "cost_allocations") = true
  /\ Forall (fun i => is_nullish i = false) (page_items o).

(** Two pages of one invoice that repeat a line item. *)
Definition night (date : string) (amount : Q) : value :=
  VObj [("date", VStr date); ("description", VStr "Room"); ("amount", VNum amount)].

Definition items10 : page :=
  mkPage [("Number", VStr "7"); ("File ID", VStr "f1")]
         (VObj [ ("meta_source_page", VNum 10%Q);
                 ("vendor_id", VStr "V1");
                 ("line_items", VArr [night "2024-09-01" 100%Q;
                                      night "2024-09-02" 100%Q]) ]).

Definition items11 : page :=
  mkPage [("Number", VStr "8"); ("File ID", VStr "f1")]
         (VObj [ ("meta_source_page", VNum 11%Q);
                 ("line_items", VArr [night "2024-09-02" 100%Q;
                                      night "2024-09-03" 100%Q]) ]).

Definition three_nights : list value :=
  [night "2024-09-01" 100%Q; night "2024-09-02" 100%Q; night "2024-09-01" 100%Q].

End LineItemVocabulary.

(* ===================================================================== *)
(** * Further vocabulary: strings *)
(* ===================================================================== *)

Module StringVocabulary.

(** The characters [trim] leaves. *)
Definition trimmed (l : list ascii) : list ascii :=
  rev (drop_while is_space (rev (drop_while is_space l))).

(** No character of the string is white space. *)
Definition no_space (s : string) : bool :=
  forallb (fun c => negb (is_space c)) (list_ascii_of_string s).

End StringVocabulary.

(* ===================================================================== *)
(** * The CSV reader and writer (both scripts) *)
(* ===================================================================== *)

Module Csv.

Definition double_quote : ascii := ascii_of_nat 34.
Definition line_feed : ascii := ascii_of_nat 10.
Definition carriage_return : ascii := ascii_of_nat 13.

(** ** [parseCSV] *)

(** The variables of the loop. *)
Record scanner : Type := mkScanner {
  rows : list (list string);
  currentRow : list string;
  current : string;
  inQuotes : bool
}.

(** [current += c]. *)
Definition extend (c : ascii) (st : scanner) : scanner :=
  {| rows := rows st; currentRow := currentRow st;
     current := current st ++ String c ""; inQuotes := inQuotes st |}.

(** [inQuotes = !inQuotes]. *)
Definition toggle (st : scanner) : scanner :=
  {| rows := rows st; currentRow := currentRow st;
     current := current st; inQuotes := negb (inQuotes st) |}.

(** [currentRow.push(current); current = '']. *)
Definition end_field (st : scanner) : scanner :=
  {| rows := rows st; currentRow := (currentRow st ++ [current st])%list;
     current := ""; inQuotes := inQuotes st |}.

(** [row.some(c => c.trim())]. *)
Definition has_content (row : list string) : bool :=
  existsb (fun c => negb (trim c =? "")) row.

(** [currentRow.push(current); if (currentRow.some(c => c.trim()))
    rows.push(currentRow)]. *)
Definition pushed (st : scanner) : list (list string) :=
  let row := (currentRow st ++ [current st])%list in
  if has_content row then (rows st ++ [row])%list else rows st.

Definition end_row (st : scanner) : scanner :=
  {| rows := pushed st; currentRow := []; current := "";
     inQuotes := inQuotes st |}.

(** [text[i + 1] !== '\n'], [rest] being the text after position [i]. *)
Definition next_is_not_line_feed (rest : string) : bool :=
  match rest with
  | String n _ => negb (Ascii.eqb n line_feed)
  | EmptyString => true
  end.

(** The [for] loop over the characters of the text.  A doubled quote inside
    quotes consumes two characters. *)
Fixpoint scan (text : string) (st : scanner) : scanner :=
  match text with
  | EmptyString => st
  | String c rest =>
      if Ascii.eqb c double_quote then
        match rest with
        | String n rest' =>
            if inQuotes st && Ascii.eqb n double_quote
            then scan rest' (extend double_quote st)
            else scan rest (toggle st)
        | EmptyString => scan rest (toggle st)
        end
      else if Ascii.eqb c ","%char && negb (inQuotes st)
      then scan rest (end_field st)
      else if (Ascii.eqb c line_feed
               || (Ascii.eqb c carriage_return && next_is_not_line_feed rest))
              && negb (inQuotes st)
      then scan rest (end_row st)
      else if Ascii.eqb c carriage_return && negb (inQuotes st)
      then scan rest st
      else scan rest (extend c st)
  end.

(** The rows after the loop: [if (current || currentRow.length > 0) ...]. *)
Definition flush (st : scanner) : list (list string) :=
  if negb (current st =? "") || (0 <? List.length (currentRow st))%nat
  then pushed st
  else rows st.

Definition parse_rows (text : string) : list (list string) :=
  flush (scan text {| rows := []; currentRow := []; current := "";
                      inQuotes := false |}).

(** [obj[h] = v] on a plain object: an own property, but for the name
    [__proto__], whose setter ignores a string. *)
Definition assign (h : string) (v : value) (obj : list (string * value))
  : list (string * value) :=
  if h =? "__proto__" then obj else set_prop h v obj.

(** [headers.forEach((h, i) => { obj[h] = row[i] || '' })], from index
    [i]. *)
Fixpoint fill (headers : list string) (i : nat) (row : list string)
    (obj : list (string * value)) : list (string * value) :=
  match headers with
  | [] => obj
  | h :: rest => fill rest (S i) row (assign h (VStr (nth i row "")) obj)
  end.

(** [parseCSV]: the headers and the rows as objects.  [trim] already takes a
    leading byte order mark away, which is white space, so the [replace]
    after it changes nothing. *)
Definition parseCSV (text : string)
  : list string * list (list (string * value)) :=
  match parse_rows text with
  | [] => ([], [])
  | first :: body =>
      let headers := map trim first in
      (headers, map (fun row => fill headers 0 row []) body)
  end.

(** ** [writeCSV] *)

(** The [replace] of [escapeCSVField]: every quote character becomes two. *)
Fixpoint double_quotes (s : string) : string :=
  match s with
  | EmptyString => EmptyString
  | String c rest =>
      if Ascii.eqb c double_quote
      then String double_quote (String double_quote (double_quotes rest))
      else String c (double_quotes rest)
  end.

Definition needs_quotes (s : string) : bool :=
  includes "," s || includes (String double_quote "") s
  || includes (String line_feed "") s
  || includes (String carriage_return "") s.

Definition escapeCSVField (field : value) : string :=
  match field with
  | VNull | VUndef => ""
  | _ =>
      let s := to_string field in
      if needs_quotes s
      then String double_quote (double_quotes s ++ String double_quote "")
      else s
  end.

(** [cells.map(escapeCSVField).join(',')]. *)
Definition csv_line (cells : list value) : string :=
  concat_sep "," (map escapeCSVField cells).

(** The text [writeCSV] writes: the header line, then one line for each row
    with the row's properties named by the headers, joined by line feeds. *)
Definition writeCSV (headers : list string) (data : list (list (string * value)))
  : string :=
  concat_sep (String line_feed "")
    (csv_line (map VStr headers)
     :: map (fun row => csv_line (map (fun h => lookup h row) headers)) data).

End Csv.

Module CsvVocabulary.
Import Csv.

(** The text of a cell: nothing for null and undefined, [String(v)]
    otherwise. *)
Definition field_text (v : value) : string :=
  match v with
  | VNull | VUndef => ""
  | _ => to_string v
  end.

(** The table [writeCSV] writes: the header row, then the rows. *)
Definition table_of (headers : list string) (data : list (list (string * value)))
  : list (list value) :=
  map VStr headers :: map (fun row => map (fun h => lookup h row) headers) data.

(** The text of a table. *)
Definition table_text (table : list (list value)) : string :=
  concat_sep (String line_feed "") (map csv_line table).

(** The character is none of those that make [escapeCSVField] quote. *)
Definition plain (c : ascii) : bool :=
  negb (Ascii.eqb c ","%char) && negb (Ascii.eqb c double_quote)
  && negb (Ascii.eqb c line_feed) && negb (Ascii.eqb c carriage_return).

Fixpoint all_plain (s : string) : bool :=
  match s with
  | EmptyString => true
  | String c rest => plain c && all_plain rest
  end.

(** What may follow a field in the text: nothing, a comma or a line feed. *)
Definition after_field (rest : string) : Prop :=
  match rest with
  | EmptyString => True
  | String c _ => c = ","%char \/ c = line_feed
  end.

(** [current += s]. *)
Definition add_text (s : string) (st : scanner) : scanner :=
  {| rows := rows st; currentRow := currentRow st;
     current := current st ++ s; inQuotes := inQuotes st |}.

(** The state after the cells of a line have been read, the last one still
    in [current]. *)
Definition after_cells (cells : list value) (st : scanner) : scanner :=
  {| rows := rows st;
     currentRow := (currentRow st ++ map field_text (removelast cells))%list;
     current := field_text (last cells VUndef);
     inQuotes := false |}.

(** What may follow a line in the text: nothing or a line feed. *)
Definition after_line (rest : string) : Prop :=
  match rest with
  | EmptyString => True
  | String c _ => c = line_feed
  end.

(** The state between two lines. *)
Definition between_lines (found : list (list string)) : scanner :=
  {| rows := found; currentRow := []; current := ""; inQuotes := false |}.

(** The text a cell is written as. *)
Definition escaped (s : string) : string :=
  if needs_quotes s
  then String double_quote (double_quotes s ++ String double_quote "")
  else s.

(** The texts of the cells of a row, in the order of the headers. *)
Definition row_cells (headers : list string) (row : list (string * value))
  : list string :=
  map (fun h => field_text (lookup h row)) headers.

(** The object read back has, under every header, the text of what the row
    had there. *)
Definition same_cells (headers : list string) (row obj : list (string * value))
  : Prop :=
  forall h, In h headers -> lookup h obj = VStr (field_text (lookup h row)).

(** Headers as [parseCSV] returns them: trimmed, distinct, one of them not
    empty, none of them the name [__proto__]. *)
Definition proper_headers (headers : list string) : Prop :=
  Forall (fun h => trim h = h) headers
  /\ NoDup headers
  /\ has_content headers = true
  /\ ~ In "__proto__" headers.

(** A table of two columns whose cells need quoting. *)
Definition sample_headers : list string := ["Number"; "OCR"].

Definition sample_data : list (list (string * value)) :=
  [ [("Number", VStr "1"); ("OCR", VStr "a,b")];
    [("Number", VNum 2%Q);
     ("OCR", VStr ("two" ++ String line_feed "lines"))] ].

End CsvVocabulary.

(* ===================================================================== *)
(** * The OCR post-processing script, [main] *)
(* ===================================================================== *)

Module PostProcess.
Import Assembler Reconciler Csv.

(** ** [rowToPostProcessOCR]: a [Map] from row numbers to merged
    invoices, in insertion order *)

Definition row_map : Type := list (value * value).

(** [m.set(k, v)]: the entry of an equal key is overwritten in place. *)
Fixpoint map_set (k v : value) (m : row_map) : row_map :=
  match m with
  | [] => [(k, v)]
  | (k', v') :: rest =>
      if same_value_zero k' k then (k', v) :: rest
      else (k', v') :: map_set k v rest
  end.

(** [m.get(k)]. *)
Fixpoint map_get (k : value) (m : row_map) : value :=
  match m with
  | [] => VUndef
  | (k', v) :: rest => if same_value_zero k' k then v else map_get k rest
  end.

Section Main.

Variable parseOCR : value -> value.
Variable JSON_parse : string -> outcome value.

(** The body of [invoiceGroups.forEach]: the merged invoice of the group is
    stored under the number of each of its rows. *)
Definition record_group (m : row_map) (group : list page) : outcome row_map :=
  mergedOcr <- createMergedInvoice JSON_parse group ;;
  Ret (fold_left (fun m page => map_set (lookup "Number" (row page)) mergedOcr m)
                 group m).

Fixpoint record_groups (groups : list (list page)) (m : row_map)
  : outcome row_map :=
  match groups with
  | [] => Ret m
  | group :: rest => m' <- record_group m group ;; record_groups rest m'
  end.

(** [[...headers]], with [postProcessOCR] pushed when it is not there. *)
Definition newHeaders (headers : list string) : list string :=
  if existsb (String.eqb "postProcessOCR") headers
  then headers
  else (headers ++ ["postProcessOCR"])%list.

(** [postOcr ? JSON.stringify(postOcr, null, 2) : '']. *)
Definition text_of (postOcr : value) : value :=
  if truthy postOcr
  then match stringify_pretty postOcr with
       | Some s => VStr s
       | None => VUndef
       end
  else VStr "".

(** [{ ...row, postProcessOCR: ... }]. *)
Definition updated_row (m : row_map) (r : list (string * value))
  : list (string * value) :=
  set_prop "postProcessOCR" (text_of (map_get (lookup "Number" r) m)) r.

(** [main]: from the text read to the text written. *)
Definition main (csvText : string) : outcome string :=
  let (headers, data) := parseCSV csvText in
  invoiceGroups <- processInvoices parseOCR data ;;
  m <- record_groups invoiceGroups [] ;;
  Ret (writeCSV (newHeaders headers) (map (updated_row m) data)).

End Main.

End PostProcess.

(* ===================================================================== *)
(** * The documents the ledger/OCR merge script reads, [main] *)
(* ===================================================================== *)

Module Intake.

(** [v?.[0]]. *)
Definition first_of (v : value) : value :=
  match v with
  | VUndef | VNull => VUndef
  | VArr items => hd VUndef items
  | VStr (String c _) => VStr (String c "")
  | _ => own_prop v "0"
  end.

Section Main.

Variable parseOCR : value -> value.

Definition postOcr_of (r : list (string * value)) : value :=
  parseOCR (lookup "postProcessOCR" r).

(** [postOcr.all_source_rows?.[0] || row.Number]. *)
Definition invoice_key (r : list (string * value)) : value :=
  or_else (first_of (own_prop (postOcr_of r) "all_source_rows"))
          (lookup "Number" r).

(** The [forEach] over the rows, [seen] being [seenInvoices]: the documents
    pushed to [ocrInvoices], in order. *)
Fixpoint unique_invoices (rows : list (list (string * value)))
    (seen : list value) : list value :=
  match rows with
  | [] => []
  | r :: rest =>
      let postOcr := postOcr_of r in
      if truthy postOcr then
        let key := invoice_key r in
        if existsb (same_value_zero key) seen
        then unique_invoices rest seen
        else postOcr :: unique_invoices rest (set_add seen key)
      else unique_invoices rest seen
  end.

End Main.

End Intake.

Module PostProcessVocabulary.
Import Assembler Reconciler PostProcess Intake LineItemVocabulary.

(** The number of the row of a page. *)
Definition number (p : page) : value := lookup "Number" (row p).

(** The row numbers are strings, as the CSV reader gives them. *)
Definition numbered (p : page) : Prop := exists n, number p = VStr n.

(** A page on which neither the grouping nor the merge throws. *)
Definition well_formed_page (p : page) : Prop :=
  AssemblerVocabulary.vendor_typed (ocr p) /\ well_formed_lists (ocr p).

(** A text of three pages of one invoice. *)
Definition sample_text : string :=
  "Number,OCR" ++ String Csv.line_feed
    ("1,header" ++ String Csv.line_feed
       ("2,continuation" ++ String Csv.line_feed "3,folio")).

(** The rows of [kept] are taken from [rows] in order, and their documents
    are the ones [main] keeps. *)
Definition kept_rows (parseOCR : value -> value)
    (rows kept : list (list (string * value))) (docs : list value) : Prop :=
  subsequence kept rows
  /\ docs = map (postOcr_of parseOCR) kept
  /\ Forall (fun r => truthy (postOcr_of parseOCR r) = true) kept.

(** Two rows stand for different invoices. *)
Definition other_invoice (parseOCR : value -> value)
    (a b : list (string * value)) : Prop :=
  same_value_zero (invoice_key parseOCR a) (invoice_key parseOCR b) = false.

(** The rows of a merged invoice of two pages, as the post-processing script
    leaves them, and a row without a document. *)
Definition merged_rows : list (list (string * value)) :=
  [ [("Number", VStr "7"); ("postProcessOCR", VStr "A")];
    [("Number", VStr "8"); ("postProcessOCR", VStr "A")];
    [("Number", VStr "9"); ("postProcessOCR", VStr "")];
    [("Number", VStr "10"); ("postProcessOCR", VStr "B")] ].

Definition merged_parse (text : value) : value :=
  if strict_eq text (VStr "A")
  then VObj [("invoice_number", VStr "INV1");
             ("all_source_rows", VArr [VStr "7"; VStr "8"])]
  else if strict_eq text (VStr "B")
  then VObj [("invoice_number", VStr "INV2")]
  else VNull.

End PostProcessVocabulary.

(* ===================================================================== *)
(** * Properties of the page classifiers *)
(* ===================================================================== *)

Module ClassifierFacts.
Import Classifier.

Lemma get_object (props : list (string * value)) (k : string) :
  get (VObj props) k = Ret (lookup k props).
Proof. reflexivity. Qed.

(** On an object the classifier is the boolean combination of the five
    field tests, in the order the code evaluates them. *)
Lemma isEffectiveContinuationPage_object (props : list (string * value)) :
  let p := VObj props in
  isEffectiveContinuationPage p =
  Ret (VBool (declared_continuation p
              || date_missing p
                 && (number_missing_or_placeholder p || vendor_id_missing p)
              || vendor_unknown p && date_missing p
                 && vendor_id_missing p && business_code_missing p)).
Proof.
  cbv zeta.
  unfold isEffectiveContinuationPage, declared_continuation, date_missing,
    number_missing_or_placeholder, vendor_id_missing, business_code_missing,
    vendor_unknown.
  cbn [truthy negb own_prop]. rewrite !get_object. cbn [bind].
  destruct (strict_eq (lookup "meta_is_continuation_page" props) (VBool true));
    [reflexivity|].
  cbn [orb].
  match goal with
  | |- (if ?c then _ else _) = _ => destruct c eqn:E1
  end; [reflexivity|].
  match goal with
  | |- (if ?c then _ else _) = _ => destruct c eqn:E2
  end; reflexivity.
Qed.

(** C3. For every page record, [isEffectiveContinuationPage] returns true
    exactly when the page is declared a continuation, or its date is missing
    and its invoice number is missing or a placeholder or its vendor
    identifier is missing, or its vendor is unknown and date, vendor
    identifier and business code are all missing; it returns false in every
    other case, and on a null record. *)
Theorem isEffectiveContinuationPage_iff_spec :
  (forall props : list (string * value),
      (spec_effective_continuation (VObj props) ->
       isEffectiveContinuationPage (VObj props) = Ret (VBool true))
      /\ (~ spec_effective_continuation (VObj props) ->
          isEffectiveContinuationPage (VObj props) = Ret (VBool false)))
  /\ isEffectiveContinuationPage VNull = Ret (VBool false).
Proof.
  split; [|reflexivity].
  intros props.
  pose proof (isEffectiveContinuationPage_object props) as H. cbv zeta in H.
  rewrite H. unfold spec_effective_continuation.
  set (p := VObj props).
  destruct (declared_continuation p), (date_missing p),
    (number_missing_or_placeholder p), (vendor_id_missing p),
    (vendor_unknown p), (business_code_missing p); cbn;
    (split;
     [ intros S; first [reflexivity | exfalso; intuition discriminate]
     | intros N; first [reflexivity | exfalso; apply N; intuition auto] ]).
Qed.

(** The classifiers never throw, on any value. *)
Lemma classifier_guard (ocr : value) (k : string) :
  truthy ocr = true -> get ocr k = Ret (own_prop ocr k).
Proof. destruct ocr; cbn; intros H; try discriminate; reflexivity. Qed.

Lemma isEffectiveContinuationPage_boolean (ocr : value) :
  exists b, isEffectiveContinuationPage ocr = Ret (VBool b).
Proof.
  unfold isEffectiveContinuationPage.
  destruct (truthy ocr) eqn:T; cbn [negb]; [|eexists; reflexivity].
  rewrite !(classifier_guard ocr _ T). cbn [bind].
  repeat match goal with
         | |- exists b, (if ?c then _ else _) = _ => destruct c
         end; eexists; reflexivity.
Qed.

Lemma isHeaderPage_value (ocr : value) :
  exists v, isHeaderPage ocr = Ret v /\ boolean_or_falsy v.
Proof.
  unfold isHeaderPage.
  destruct (truthy ocr) eqn:T; cbn [negb];
    [|eexists; split; [reflexivity|left; eexists; reflexivity]].
  rewrite !(classifier_guard ocr _ T). cbn [bind].
  destruct (truthy (own_prop ocr "vendor_id")) eqn:A; cbn [negb];
    [|eexists; split; [reflexivity|right; exact A]].
  destruct (truthy (own_prop ocr "bu_code")) eqn:B; cbn [negb];
    [|eexists; split; [reflexivity|right; exact B]].
  destruct (truthy (own_prop ocr "invoice_date")) eqn:C; cbn [negb];
    [|eexists; split; [reflexivity|right; exact C]].
  eexists; split; [reflexivity|left; eexists; reflexivity].
Qed.

Lemma isFolioPage_value (ocr : value) :
  exists v, isFolioPage ocr = Ret v /\ boolean_or_falsy v.
Proof.
  unfold isFolioPage.
  destruct (truthy ocr) eqn:T; cbn [negb];
    [|eexists; split; [reflexivity|left; eexists; reflexivity]].
  rewrite !(classifier_guard ocr _ T). cbn [bind].
  destruct (truthy (own_prop ocr "invoice_number")) eqn:A; cbn [negb];
    [|eexists; split; [reflexivity|right; exact A]].
  eexists; split; [reflexivity|left; eexists; reflexivity].
Qed.

(** A page without a vendor identifier is not a header page. *)
Lemma isHeaderPage_needs_vendor_id (ocr v : value) :
  truthy (get_opt ocr "vendor_id") = false ->
  isHeaderPage ocr = Ret v -> truthy v = false.
Proof.
  unfold isHeaderPage. intros N.
  destruct (truthy ocr) eqn:T; cbn [negb];
    [|intros H; injection H as <-; reflexivity].
  rewrite !(classifier_guard ocr _ T). cbn [bind].
  assert (E : own_prop ocr "vendor_id" = get_opt ocr "vendor_id")
    by (destruct ocr; reflexivity).
  rewrite E, N. cbn [negb]. intros H. injection H as <-. exact N.
Qed.



End ClassifierFacts.

(* ===================================================================== *)
(** * Properties of the outcome monad and of strings *)
(* ===================================================================== *)

Module Basics.

Lemma bind_ret {A B} (m : outcome A) (k : A -> outcome B) (b : B) :
  bind m k = Ret b -> exists a, m = Ret a /\ k a = Ret b.
Proof.
  destruct m as [a|e]; cbn; intros H; [exists a; auto | discriminate].
Qed.

Lemma drop_while_all (p : ascii -> bool) (l : list ascii) :
  forallb p l = true -> drop_while p l = [].
Proof.
  induction l as [|c l IH]; cbn; [reflexivity|].
  intros H. apply andb_true_iff in H as [Hc Hl]. rewrite Hc. auto.
Qed.

Lemma drop_while_none (p : ascii -> bool) (l : list ascii) :
  forallb (fun c => negb (p c)) l = true -> drop_while p l = l.
Proof.
  destruct l as [|c l]; cbn; [reflexivity|].
  intros H. apply andb_true_iff in H as [Hc _].
  apply negb_true_iff in Hc. rewrite Hc. reflexivity.
Qed.

Lemma forallb_rev {A} (p : A -> bool) (l : list A) :
  forallb p (rev l) = forallb p l.
Proof.
  induction l as [|a l IH]; cbn; [reflexivity|].
  rewrite forallb_app, IH. cbn. rewrite andb_true_r. apply andb_comm.
Qed.

Lemma forallb_impl {A} (p q : A -> bool) (l : list A) :
  (forall a, p a = true -> q a = true) ->
  forallb p l = true -> forallb q l = true.
Proof.
  intros Hpq. induction l as [|a l IH]; cbn; [reflexivity|].
  intros H. apply andb_true_iff in H as [Ha Hl].
  rewrite (Hpq a Ha), (IH Hl). reflexivity.
Qed.

Lemma zero_not_space (c : ascii) :
  Ascii.eqb c "0"%char = true -> negb (is_space c) = true.
Proof. intros H. apply Ascii.eqb_eq in H. subst c. reflexivity. Qed.

Lemma trim_spaces (s : string) :
  forallb is_space (list_ascii_of_string s) = true -> trim s = "".
Proof.
  intros H. unfold trim. rewrite (drop_while_all _ _ H). reflexivity.
Qed.

Lemma trim_zeros (s : string) :
  forallb (fun c => Ascii.eqb c "0"%char) (list_ascii_of_string s) = true ->
  trim s = s.
Proof.
  intros H. unfold trim.
  assert (N : forallb (fun c => negb (is_space c)) (list_ascii_of_string s) = true)
    by (eapply forallb_impl; [apply zero_not_space | exact H]).
  rewrite (drop_while_none _ _ N).
  rewrite drop_while_none by (rewrite forallb_rev; exact N).
  rewrite rev_involutive. apply string_of_list_ascii_of_string.
Qed.

End Basics.

(* ===================================================================== *)
(** * Properties of the matcher *)
(* ===================================================================== *)

Module MatcherFacts.
Import Matcher Vocabulary Basics.

Lemma normalizeInvoiceNumber_blank (s : string) :
  blank_invoice_number s -> normalizeInvoiceNumber (VStr s) = "".
Proof.
  unfold normalizeInvoiceNumber, blank_invoice_number, all_chars.
  intros [E | [W | Z]].
  - subst s. reflexivity.
  - destruct (truthy (VStr s)); cbn [negb]; [|reflexivity].
    cbn [to_string]. rewrite (trim_spaces s W). reflexivity.
  - destruct (truthy (VStr s)); cbn [negb]; [|reflexivity].
    cbn [to_string]. rewrite (trim_zeros s Z).
    unfold strip_leading_zeros. rewrite (drop_while_all _ _ Z). reflexivity.
Qed.

Lemma index_push_get (k k' : string) (item : entity * nat) (ix : index) l :
  index_get k (index_push k' item ix) = Some l ->
  (index_get k ix = Some l /\ k <> k')
  \/ (k = k' /\ exists l0, l = (l0 ++ [item])%list
        /\ (index_get k ix = Some l0 \/ (index_get k ix = None /\ l0 = []))).
Proof.
  induction ix as [|[k0 l0] ix IH]; cbn.
  - destruct (String.eqb_spec k' k) as [E|N]; [|discriminate].
    intros H. injection H as <-. right. split; [auto|].
    exists []. split; [reflexivity|]. right. auto.
  - destruct (String.eqb_spec k0 k') as [E0|N0]; cbn.
    + subst k0. destruct (String.eqb_spec k' k) as [E|N].
      * intros H. injection H as <-. right. split; [auto|].
        exists l0. split; [reflexivity|]. left. reflexivity.
      * intros H. left. split; [exact H|congruence].
    + destruct (String.eqb_spec k0 k) as [E|N].
      * intros H. left. split; [exact H|congruence].
      * exact IH.
Qed.

Lemma index_step_sound o idx ix1 ix2 ix1' ix2' :
  index_sound ix1 ->
  index_step o idx (ix1, ix2) = Ret (ix1', ix2') ->
  index_sound ix1'.
Proof.
  intros S H. unfold index_step in H.
  apply bind_ret in H as (n & Hn & H).
  apply bind_ret in H as (v & Hv & H).
  apply bind_ret in H as (nv & Hnv & H).
  apply bind_ret in H as (d & Hd & H).
  injection H as H1 _. subst ix1'.
  assert (En : n = own_prop (body o) "invoice_number").
  { unfold get in Hn. destruct (body o); try discriminate; injection Hn as <-;
      reflexivity. }
  destruct (eligible (normalizeInvoiceNumber n)) eqn:E; [|exact S].
  intros k l o' i G I.
  apply index_push_get in G as [[G _] | [_ (l0 & -> & G)]].
  - eapply S; eauto.
  - apply in_app_or in I as [I | I].
    + destruct G as [G | [_ ->]]; [eapply S; eauto | destruct I].
    + destruct I as [I | []]. injection I as <- _.
      unfold doc_number. rewrite <- En. exact E.
Qed.

Lemma build_index_sound docs : forall idx ix1 ix2 ix1' ix2',
  index_sound ix1 ->
  build_index docs idx (ix1, ix2) = Ret (ix1', ix2') ->
  index_sound ix1'.
Proof.
  induction docs as [|o docs IH]; cbn; intros idx ix1 ix2 ix1' ix2' S H.
  - injection H as <- _. exact S.
  - apply bind_ret in H as ([j1 j2] & Hs & H).
    eapply IH; [|exact H]. eapply index_step_sound; eauto.
Qed.

Lemma pass1_scan_sound l num cands : forall st st',
  (forall o i, In (o, i) cands -> eligible (doc_number o) = true) ->
  matches_sound st ->
  pass1_scan l num cands st = Ret st' ->
  matches_sound st'.
Proof.
  induction cands as [|[o i] cands IH]; cbn; intros st st' C S H.
  - injection H as <-. exact S.
  - apply bind_ret in H as (v & _ & H).
    apply bind_ret in H as (nv & _ & H).
    apply bind_ret in H as (lv & _ & H).
    apply bind_ret in H as (a & _ & H).
    apply bind_ret in H as (b & _ & H).
    destruct (strict_eq a b || strict_eq nv lv).
    + injection H as <-. intros m I T. cbn in I.
      apply in_app_or in I as [I | [I | []]].
      * apply S; assumption.
      * subst m. cbn. apply (C o i). left. reflexivity.
    + eapply IH; [|exact S|exact H]. intros o' i' I. eapply C. right. exact I.
Qed.

Lemma pass1_step_sound ix l st st' :
  index_sound ix -> matches_sound st ->
  pass1_step ix l st = Ret st' -> matches_sound st'.
Proof.
  intros X S H. unfold pass1_step in H.
  apply bind_ret in H as (t & _ & H).
  destruct (negb (strict_eq t (str "Invoice"))); [injection H as <-; exact S|].
  apply bind_ret in H as (n & _ & H).
  destruct (normalizeInvoiceNumber n =? ""); [injection H as <-; exact S|].
  eapply pass1_scan_sound; [|exact S|exact H].
  intros o i I. destruct (index_get (normalizeInvoiceNumber n) ix) eqn:G.
  - eapply X; eauto.
  - destruct I.
Qed.

Lemma pass1_sound ix ls : forall st st',
  index_sound ix -> matches_sound st ->
  pass1 ix ls st = Ret st' -> matches_sound st'.
Proof.
  induction ls as [|l ls IH]; cbn; intros st st' X S H.
  - injection H as <-. exact S.
  - apply bind_ret in H as (st1 & H1 & H).
    eapply IH; [exact X| |exact H]. eapply pass1_step_sound; eauto.
Qed.

Lemma pass2_step_sound l st st' :
  matches_sound st -> pass2_step l st = Ret st' -> matches_sound st'.
Proof.
  intros S H. unfold pass2_step in H.
  apply bind_ret in H as (lv & _ & H).
  apply bind_ret in H as (d & _ & H).
  apply bind_ret in H as (x & _ & H).
  destruct (normalizeDate d =? ""); [injection H as <-; exact S|].
  apply bind_ret in H as ([o|] & _ & H); injection H as <-; [|exact S].
  intros m I T. cbn in I. apply in_app_or in I as [I | [I | []]].
  - apply S; assumption.
  - subst m. unfold by_invoice_number in T. cbn in T. discriminate T.
Qed.

Lemma pass2_sound ls : forall st st',
  matches_sound st -> pass2 ls st = Ret st' -> matches_sound st'.
Proof.
  induction ls as [|l ls IH]; cbn; intros st st' S H.
  - injection H as <-. exact S.
  - apply bind_ret in H as (st1 & H1 & H).
    eapply IH; [|exact H]. eapply pass2_step_sound; eauto.
Qed.

Lemma matchInvoices_sound ledgerEntries ocrInvoices st :
  matchInvoices ledgerEntries ocrInvoices = Ret st -> matches_sound st.
Proof.
  unfold matchInvoices. intros H.
  apply bind_ret in H as ([ix1 ix2] & HI & H).
  apply bind_ret in H as (st1 & H1 & H).
  apply bind_ret in H as (rem & _ & H).
  eapply pass2_sound; [|exact H].
  eapply pass1_sound; [| |exact H1].
  - eapply build_index_sound; [|exact HI]. intros k l o i G. discriminate G.
  - intros m [].
Qed.

(** C10. A ledger entry whose invoice number is empty, white space only or
    zeros only normalises to the empty string and is skipped by Pass 1, which
    leaves the state as it is; a document whose normalised invoice number is
    empty or N/A is not filed in the Pass-1 index, and no match made by invoice
    number ever holds it. *)
Theorem blank_invoice_numbers_skip_pass1 :
  (forall s, blank_invoice_number s -> normalizeInvoiceNumber (VStr s) = "")
  /\ (forall ix l props s st,
         body l = VObj props ->
         lookup "invoice_number" props = VStr s ->
         blank_invoice_number s ->
         pass1_step ix l st = Ret st)
  /\ (forall o idx ix1 ix2 ix1' ix2',
         eligible (doc_number o) = false ->
         index_step o idx (ix1, ix2) = Ret (ix1', ix2') ->
         ix1' = ix1)
  /\ (forall ledgerEntries ocrInvoices st m,
         matchInvoices ledgerEntries ocrInvoices = Ret st ->
         In m (matches st) -> by_invoice_number m ->
         eligible (doc_number (ocr m)) = true).
Proof.
  split; [exact normalizeInvoiceNumber_blank|]. split; [|split].
  - intros ix l props s st B N Z. unfold pass1_step. rewrite B. cbn [get bind own_prop].
    destruct (negb (strict_eq (lookup "document_type" props) (str "Invoice")));
      [reflexivity|].
    rewrite N, (normalizeInvoiceNumber_blank s Z). reflexivity.
  - intros o idx ix1 ix2 ix1' ix2' E H. unfold index_step in H.
    apply bind_ret in H as (n & Hn & H).
    apply bind_ret in H as (v & Hv & H).
    apply bind_ret in H as (nv & Hnv & H).
    apply bind_ret in H as (d & Hd & H).
    injection H as H1 _. subst ix1'.
    assert (En : n = own_prop (body o) "invoice_number").
    { unfold get in Hn. destruct (body o); try discriminate; injection Hn as <-;
        reflexivity. }
    unfold doc_number in E. rewrite <- En in E. rewrite E. reflexivity.
  - intros L O st m H I T. exact (matchInvoices_sound L O st H m I T).
Qed.

End MatcherFacts.

Module Pass2Facts.
Import Matcher Vocabulary Basics.

Lemma get_of_object (v : value) (k : string) :
  is_object v = true -> get v k = Ret (own_prop v k).
Proof. destruct v; cbn; intros H; try discriminate; reflexivity. Qed.

(** On a well-formed document the test of the inner loop returns, and says
    whether the document agrees with the ledger entry. *)
Lemma pass2_test_agrees (lv : string) (d x : value) (o : entity) :
  well_formed_doc o ->
  pass2_test (VStr lv) (normalizeDate d) (cents x) o = Ret (agrees lv d x o).
Proof.
  intros [Ob Vk]. unfold pass2_test, agrees.
  rewrite !(get_of_object _ _ Ob). cbn [bind].
  unfold vendor_key in *.
  destruct (normalizeVendorForLedgerMatch (own_prop (body o) "vendor_name"))
    as [nv|e]; [|congruence].
  cbn [bind]. destruct nv; try congruence. cbn [upper bind strict_eq].
  reflexivity.
Qed.

Lemma pass2_scan_find (lv : string) (d x : value) (pool : list entity) :
  Forall well_formed_doc pool ->
  pass2_scan (VStr lv) (normalizeDate d) (cents x) pool
  = Ret (find (agrees lv d x) pool).
Proof.
  induction 1 as [|o pool W _ IH]; cbn; [reflexivity|].
  rewrite (pass2_test_agrees lv d x o W). cbn [bind].
  destruct (agrees lv d x o); [reflexivity|exact IH].
Qed.

(** With distinct identities, the object taken out of a pool is no longer
    in it. *)
Lemma remove_first_gone (x : entity) (pool : list entity) :
  NoDup (map ident pool) ->
  forall z, In z (remove_first x pool) -> same_object z x = false.
Proof.
  induction pool as [|y pool IH]; cbn [remove_first map]; intros N z I;
    [destruct I|].
  inversion N as [|? ? Ny Np]; subst. unfold same_object in *.
  destruct (Nat.eqb_spec (ident y) (ident x)) as [E|D].
  - apply Nat.eqb_neq. intros Ez. apply Ny. rewrite E, <- Ez.
    apply in_map. exact I.
  - destruct I as [<- | I]; [apply Nat.eqb_neq; exact D|].
    apply IH; assumption.
Qed.


End Pass2Facts.

(* ===================================================================== *)
(** * What is one to one in the matches *)
(* ===================================================================== *)

Module OneToOneFacts.
Import Matcher Vocabulary Basics.

Lemma remove_first_incl (x : entity) (pool : list entity) :
  incl (remove_first x pool) pool.
Proof.
  induction pool as [|y pool IH]; cbn; [apply incl_refl|].
  destruct (same_object y x).
  - apply incl_tl, incl_refl.
  - intros z [<- | I]; [left; reflexivity | right; apply IH; exact I].
Qed.

Lemma remove_first_distinct (x : entity) (pool : list entity) :
  NoDup (map ident pool) -> NoDup (map ident (remove_first x pool)).
Proof.
  induction pool as [|y pool IH]; cbn; intros N; [exact N|].
  inversion N as [|? ? Ny Np]; subst.
  destruct (same_object y x); [exact Np|]. cbn. constructor; [|auto].
  intros I. apply Ny. apply in_map_iff in I as (z & Ez & Iz).
  apply in_map_iff. exists z. split; [exact Ez|].
  apply (remove_first_incl x pool). exact Iz.
Qed.

Lemma remove_first_absent (x : entity) (pool : list entity) :
  NoDup (map ident pool) -> ~ In (ident x) (map ident (remove_first x pool)).
Proof.
  induction pool as [|y pool IH]; cbn [remove_first map]; intros N I;
    [destruct I|].
  inversion N as [|? ? Ny Np]; subst. unfold same_object in I.
  destruct (Nat.eqb_spec (ident y) (ident x)) as [E|D].
  - apply Ny. rewrite E. exact I.
  - destruct I as [I | I]; [congruence|]. exact (IH Np I).
Qed.

Lemma not_in_remove_first (i : nat) (x : entity) (pool : list entity) :
  ~ In i (map ident pool) -> ~ In i (map ident (remove_first x pool)).
Proof.
  intros N I. apply N. apply in_map_iff in I as (z & Ez & Iz).
  apply in_map_iff. exists z. split; [exact Ez|].
  apply (remove_first_incl x pool). exact Iz.
Qed.

Lemma ordered_pairs_snoc {A} (R : A -> A -> Prop) (l : list A) (x : A) :
  ForallOrdPairs R l -> Forall (fun y => R y x) l ->
  ForallOrdPairs R (l ++ [x])%list.
Proof.
  induction 1 as [|y l Hy Hl IH]; cbn; intros F.
  - constructor; constructor.
  - apply Forall_cons_iff in F as [Fy Fl]. constructor; [|apply IH; exact Fl].
    apply Forall_app. split; [exact Hy|]. constructor; [exact Fy|constructor].
Qed.

Lemma ordered_pairs_of_all (ms : list match_result) :
  Forall by_invoice_number ms -> ForallOrdPairs share_rule ms.
Proof.
  induction 1 as [|m ms Hm Hms IH]; constructor; [|exact IH].
  apply Forall_forall. intros m' I _. split; [exact Hm|].
  rewrite Forall_forall in Hms. apply Hms. exact I.
Qed.

(** ** What a step does to the state *)

Lemma pass1_scan_cases l num cands : forall st st',
  pass1_scan l num cands st = Ret st' ->
  st' = st
  \/ exists o info, own_prop info "type" = VStr "invoice_number"
                    /\ st' = claim l o info st.
Proof.
  induction cands as [|[o i] cands IH]; cbn; intros st st' H.
  - injection H as <-. left. reflexivity.
  - apply bind_ret in H as (v & _ & H).
    apply bind_ret in H as (nv & _ & H).
    apply bind_ret in H as (lv & _ & H).
    apply bind_ret in H as (a & _ & H).
    apply bind_ret in H as (b & _ & H).
    destruct (strict_eq a b || strict_eq nv lv); [|exact (IH _ _ H)].
    injection H as <-. right. do 2 eexists. split; [|reflexivity].
    reflexivity.
Qed.

Lemma pass1_step_cases ix l st st' :
  pass1_step ix l st = Ret st' ->
  st' = st
  \/ exists o info, own_prop info "type" = VStr "invoice_number"
                    /\ st' = claim l o info st.
Proof.
  unfold pass1_step. intros H.
  apply bind_ret in H as (t & _ & H).
  destruct (negb (strict_eq t (str "Invoice")));
    [injection H as <-; left; reflexivity|].
  apply bind_ret in H as (n & _ & H).
  destruct (normalizeInvoiceNumber n =? "");
    [injection H as <-; left; reflexivity|].
  exact (pass1_scan_cases _ _ _ _ _ H).
Qed.

Lemma pass2_scan_in lv d x pool : forall o,
  pass2_scan lv d x pool = Ret (Some o) -> In o pool.
Proof.
  induction pool as [|p pool IH]; cbn; intros o H; [discriminate|].
  apply bind_ret in H as (hit & _ & H). destruct hit.
  - injection H as <-. left. reflexivity.
  - right. exact (IH o H).
Qed.

Lemma pass2_step_cases l st st' :
  pass2_step l st = Ret st' ->
  st' = st
  \/ exists o info, own_prop info "type" = VStr "vendor_date_amount"
                    /\ In o (unmatchedOcr st)
                    /\ st' = claim l o info st.
Proof.
  unfold pass2_step. intros H.
  apply bind_ret in H as (lv & _ & H).
  apply bind_ret in H as (d & _ & H).
  apply bind_ret in H as (x & _ & H).
  destruct (normalizeDate d =? ""); [injection H as <-; left; reflexivity|].
  apply bind_ret in H as ([o|] & S & H); injection H as <-;
    [|left; reflexivity].
  right. do 2 eexists. split; [|split; [|reflexivity]].
  - reflexivity.
  - exact (pass2_scan_in _ _ _ _ _ S).
Qed.

Lemma of_type_incl t l : forall r,
  of_type t l = Ret r -> incl r l /\ (NoDup (map ident l) -> NoDup (map ident r)).
Proof.
  induction l as [|x l IH]; cbn; intros r H.
  - injection H as <-. split; [apply incl_refl|auto].
  - apply bind_ret in H as (ty & _ & H).
    apply bind_ret in H as (tl & Htl & H). injection H as <-.
    destruct (IH tl Htl) as [I N]. destruct (strict_eq ty (str t)).
    + split; [apply incl_cons; [left; reflexivity|apply incl_tl; exact I]|].
      intros Nd. inversion Nd as [|? ? Nx Nl]; subst. cbn.
      constructor; [|auto]. intros Ix. apply Nx.
      apply in_map_iff in Ix as (z & Ez & Iz). apply in_map_iff.
      exists z. split; [exact Ez|apply I; exact Iz].
    + split; [apply incl_tl; exact I|].
      intros Nd. inversion Nd; subst. auto.
Qed.

(** ** The invariant *)

Lemma claim_sound l o info st :
  pools_sound st -> pools_sound (claim l o info st).
Proof.
  intros [Ld Dd Lc Dc]. constructor; cbn.
  - apply remove_first_distinct. exact Ld.
  - apply remove_first_distinct. exact Dd.
  - unfold ledger_ids. cbn. rewrite map_app. intros i I.
    apply in_app_or in I as [I | [<- | []]].
    + apply not_in_remove_first, Lc. exact I.
    + apply remove_first_absent. exact Ld.
  - unfold doc_ids. cbn. rewrite map_app. intros i I.
    apply in_app_or in I as [I | [<- | []]].
    + apply not_in_remove_first, Dc. exact I.
    + apply remove_first_absent. exact Dd.
Qed.

Lemma claim_ledger_ids l o info st remaining :
  fresh_entries (l :: remaining) st -> NoDup (ledger_ids st) ->
  fresh_entries remaining (claim l o info st)
  /\ NoDup (ledger_ids (claim l o info st)).
Proof.
  intros [Nd F] N. inversion Nd as [|? ? Nl Nr]; subst.
  unfold fresh_entries, ledger_ids in *. cbn [matches claim].
  rewrite map_app. cbn [map]. split; [split; [exact Nr|]|].
  - intros x Ix I. apply in_app_or in I as [I | [E | []]].
    + apply (F x); [right; exact Ix|exact I].
    + cbn in E. apply Nl. rewrite E. apply in_map. exact Ix.
  - apply NoDup_app; [exact N|repeat constructor; auto|].
    intros i I [<- | []]. apply (F l); [left; reflexivity|exact I].
Qed.

Lemma fresh_tail l remaining st :
  fresh_entries (l :: remaining) st -> fresh_entries remaining st.
Proof.
  intros [Nd F]. inversion Nd; subst. split; [assumption|].
  intros x I. apply F. right. exact I.
Qed.

Lemma pass1_one_to_one ix ls : forall st st',
  pools_sound st -> fresh_entries ls st -> NoDup (ledger_ids st) ->
  Forall by_invoice_number (matches st) ->
  pass1 ix ls st = Ret st' ->
  pools_sound st' /\ NoDup (ledger_ids st')
  /\ Forall by_invoice_number (matches st').
Proof.
  induction ls as [|l ls IH]; cbn; intros st st' P F N A H.
  - injection H as <-. auto.
  - apply bind_ret in H as (st1 & H1 & H).
    apply pass1_step_cases in H1 as [-> | (o & info & T & ->)].
    + eapply IH; eauto. eapply fresh_tail; eauto.
    + destruct (claim_ledger_ids l o info st ls F N) as [F' N'].
      eapply IH; [apply claim_sound; exact P|exact F'|exact N'| |exact H].
      cbn. apply Forall_app. split; [exact A|].
      constructor; [exact T|constructor].
Qed.

Lemma pass2_one_to_one ls : forall st st',
  pools_sound st -> fresh_entries ls st -> NoDup (ledger_ids st) ->
  ForallOrdPairs share_rule (matches st) ->
  pass2 ls st = Ret st' ->
  NoDup (ledger_ids st') /\ ForallOrdPairs share_rule (matches st').
Proof.
  induction ls as [|l ls IH]; cbn; intros st st' P F N A H.
  - injection H as <-. auto.
  - apply bind_ret in H as (st1 & H1 & H).
    apply pass2_step_cases in H1 as [-> | (o & info & T & Io & ->)].
    + eapply IH; eauto. eapply fresh_tail; eauto.
    + destruct (claim_ledger_ids l o info st ls F N) as [F' N'].
      eapply IH; [apply claim_sound; exact P|exact F'|exact N'| |exact H].
      cbn. apply ordered_pairs_snoc; [exact A|].
      apply Forall_forall. intros m Im E. exfalso. cbn in E.
      apply (docs_consumed st P (ident (ocr m))).
      * unfold doc_ids. apply in_map_iff. exists m. auto.
      * rewrite E. apply in_map. exact Io.
Qed.

(** X1. What does hold of the one-to-one invariant.  On distinct ledger entries
    and distinct documents, no ledger entry is in two matches, and two matches
    hold the same document only when both were made by invoice number: every
    match of Pass 2 takes a document no other match has. *)
Theorem matches_one_to_one_but_for_pass1
    (ledgerEntries ocrInvoices : list entity) (st : mstate) :
  NoDup (map ident ledgerEntries) ->
  NoDup (map ident ocrInvoices) ->
  matchInvoices ledgerEntries ocrInvoices = Ret st ->
  NoDup (ledger_ids st) /\ ForallOrdPairs share_rule (matches st).
Proof.
  intros Nl No H. unfold matchInvoices in H.
  apply bind_ret in H as (ix & _ & H).
  apply bind_ret in H as (st1 & H1 & H).
  apply bind_ret in H as (rem & Hr & H).
  assert (P0 : pools_sound {| matches := []; unmatchedLedger := ledgerEntries;
                              unmatchedOcr := ocrInvoices |})
    by (constructor; cbn; auto).
  destruct (pass1_one_to_one _ _ _ _ P0 (conj Nl (fun _ _ I => I))
              (NoDup_nil _) (Forall_nil _) H1) as (P1 & N1 & A1).
  apply of_type_incl in Hr as [Ir Nr].
  eapply pass2_one_to_one; [exact P1| |exact N1| |exact H].
  - split; [apply Nr, (ledger_distinct _ P1)|].
    intros x Ix I. apply (ledger_consumed _ P1 _ I).
    apply in_map, Ir, Ix.
  - apply ordered_pairs_of_all. exact A1.
Qed.

End OneToOneFacts.

(* ===================================================================== *)
(** * Properties of the reconciler *)
(* ===================================================================== *)

Module ReconcilerFacts.
Import Assembler Reconciler ReconcilerVocabulary Basics.

Lemma lookup_set_prop (k k' : string) (v : value) (props : list (string * value)) :
  lookup k (set_prop k' v props) = if k' =? k then v else lookup k props.
Proof.
  induction props as [|[k0 v0] props IH]; cbn.
  - reflexivity.
  - destruct (String.eqb_spec k0 k') as [E|N]; cbn.
    + subst k0. destruct (k' =? k); reflexivity.
    + rewrite IH. destruct (String.eqb_spec k0 k) as [E|N'].
      * subst k0. destruct (String.eqb_spec k' k); [congruence|reflexivity].
      * reflexivity.
Qed.

Lemma set_prop_fresh (k : string) (v : value) (props : list (string * value)) :
  forallb (fun kv => negb (fst kv =? k)) props = true ->
  set_prop k v props = (props ++ [(k, v)])%list.
Proof.
  induction props as [|[k0 v0] props IH]; cbn; [reflexivity|].
  intros H. apply andb_true_iff in H as [H0 H].
  apply negb_true_iff in H0. rewrite H0, (IH H). reflexivity.
Qed.

Lemma forallb_app_fresh (k k' : string) (v : value) (props : list (string * value)) :
  (k' =? k) = false ->
  forallb (fun kv => negb (fst kv =? k)) props = true ->
  forallb (fun kv => negb (fst kv =? k)) (props ++ [(k', v)])%list = true.
Proof.
  intros N H. rewrite forallb_app, H. cbn. rewrite N. reflexivity.
Qed.


End ReconcilerFacts.

Module TotalsFacts.
Import Assembler Reconciler ReconcilerVocabulary Basics.

Lemma qualifies_number (p : page) :
  qualifies p = true ->
  to_number (total_of (ocr p)) = Some (amount p) /\ (0 < amount p)%Q.
Proof.
  unfold qualifies, amount. intros H. apply andb_true_iff in H as [_ H].
  unfold gt in H. cbn [is_stringy zero andb] in H.
  rewrite andb_false_r in H. cbn [to_number zero] in H.
  destruct (to_number (total_of (ocr p))) as [q|]; [|discriminate].
  split; [reflexivity|].
  apply negb_true_iff in H.
  destruct (Qlt_le_dec 0 q) as [L|L]; [exact L|].
  apply Qle_bool_iff in L. congruence.
Qed.

Lemma smaller_lt (a b : page) :
  qualifies a = true -> qualifies b = true ->
  smaller a b = true <-> (amount a < amount b)%Q.
Proof.
  intros Ha Hb. apply qualifies_number in Ha as [Ea _].
  apply qualifies_number in Hb as [Eb _].
  unfold smaller, sub, lift2. rewrite Ea, Eb.
  unfold gt. cbn [is_stringy andb to_number].
  rewrite negb_true_iff. split.
  - intros H. destruct (Qlt_le_dec (amount a) (amount b)) as [L|L]; [exact L|].
    assert (Qle_bool (amount b - amount a) 0 = true) as C; [|congruence].
    apply Qle_bool_iff. lra.
  - intros L. destruct (Qle_bool (amount b - amount a) 0) eqn:E; [|reflexivity].
    apply Qle_bool_iff in E. lra.
Qed.

Lemma insert_length {A} (after : A -> A -> bool) (x : A) (l : list A) :
  List.length (insert after x l) = S (List.length l).
Proof.
  induction l as [|y l IH]; cbn; [reflexivity|].
  destruct (after x y); cbn; [rewrite IH|]; reflexivity.
Qed.

Lemma sort_with_length {A} (after : A -> A -> bool) (l : list A) :
  List.length (sort_with after l) = List.length l.
Proof.
  induction l as [|x l IH]; cbn; [reflexivity|].
  rewrite insert_length, IH. reflexivity.
Qed.

Lemma insert_head (x : page) (l : list page) :
  hd_error (insert smaller x l)
  = match l with
    | [] => Some x
    | y :: _ => if smaller x y then Some y else Some x
    end.
Proof. destruct l as [|y l]; cbn; [reflexivity|]. destruct (smaller x y); reflexivity. Qed.

(** The head of the ranking is the first page with the largest total. *)
Lemma ranking_head (l : list page) :
  Forall (fun p => qualifies p = true) l ->
  match hd_error (sort_with smaller l) with
  | None => l = []
  | Some t =>
      exists before after,
        l = (before ++ t :: after)%list
        /\ (forall p, In p before -> (amount p < amount t)%Q)
        /\ (forall p, In p after -> (amount p <= amount t)%Q)
  end.
Proof.
  induction 1 as [|x l Qx Ql IH]; cbn [sort_with]; [reflexivity|].
  rewrite insert_head.
  destruct (sort_with smaller l) as [|y s] eqn:S; cbn [hd_error] in IH.
  - subst l. exists [], []. split; [reflexivity|]. split; intros p [].
  - destruct IH as (before & after & E & B & A).
    assert (Qy : qualifies y = true).
    { rewrite Forall_forall in Ql. apply Ql. rewrite E.
      apply in_or_app. right. left. reflexivity. }
    destruct (smaller x y) eqn:C.
    + apply (smaller_lt x y Qx Qy) in C.
      exists (x :: before), after. split; [rewrite E; reflexivity|].
      split; [|exact A].
      intros p [<- | I]; [exact C | apply B; exact I].
    + assert (L : (amount y <= amount x)%Q).
      { destruct (Qlt_le_dec (amount x) (amount y)) as [L|L]; [|exact L].
        apply (smaller_lt x y Qx Qy) in L. congruence. }
      exists [], l. split; [reflexivity|]. split; [intros p []|].
      intros p I. rewrite E in I. apply in_app_or in I as [I | [<- | I]].
      * apply B in I. lra.
      * exact L.
      * apply A in I. lra.
Qed.

Lemma filter_all_qualify (pages : list page) :
  Forall (fun p => qualifies p = true) (filter qualifies pages).
Proof. apply Forall_forall. intros p I. apply filter_In in I as [_ Q]. exact Q. Qed.

Lemma qualifies_truthy (p : page) : qualifies p = true -> truthy (ocr p) = true.
Proof.
  unfold qualifies. intros H. apply andb_true_iff in H as [H _].
  destruct (ocr p); cbn in *; try discriminate; reflexivity.
Qed.

(** Where the totals come from, among pages already in page order. *)
Lemma totalOcr_choice (pages : list page) :
  (exists t, largest_total_first pages t /\ totalOcr_of pages = ocr t)
  \/ (filter qualifies pages = [] /\ totalOcr_of pages = first_ocr pages).
Proof.
  unfold totalOcr_of, pagesWithTotal, sort.
  change (fun a b : page =>
            gt (sub (total_of (ocr b)) (total_of (ocr a))) (VNum 0%Q))
    with smaller.
  change (fun p : page =>
            truthy (get_opt (ocr p) "meta_has_grand_total")
            && gt (total_of (ocr p)) zero)
    with qualifies.
  pose proof (ranking_head _ (filter_all_qualify pages)) as H.
  destruct (sort_with smaller (filter qualifies pages)) as [|t s] eqn:S;
    cbn [hd_error] in H.
  - right. split; [exact H|]. reflexivity.
  - left. exists t. split; [exact H|].
    cbn [first_ocr]. unfold or_else.
    destruct H as (before & after & E & _).
    assert (Qt : qualifies t = true).
    { pose proof (filter_all_qualify pages) as F. rewrite E in F.
      rewrite Forall_forall in F. apply F. apply in_or_app. right. left.
      reflexivity. }
    rewrite (qualifies_truthy t Qt). reflexivity.
Qed.

Lemma multi_page_fields JSON_parse (pages : list page) (doc : value) (k : string) :
  multi_page JSON_parse pages = Ret doc ->
  In k financial_fields ->
  own_prop doc k = or_else (get_opt (totalOcr_of pages) k) zero.
Proof.
  unfold multi_page. intros H I.
  apply bind_ret in H as (a1 & _ & H).
  apply bind_ret in H as (a2 & _ & H).
  apply bind_ret in H as (a3 & _ & H).
  apply bind_ret in H as (a4 & _ & H).
  injection H as <-.
  destruct I as [<- | [<- | [<- | [<- | []]]]]; reflexivity.
Qed.


End TotalsFacts.

(* ===================================================================== *)
(** * Properties of the assembler *)
(* ===================================================================== *)

Module AssemblerFacts.
Import Classifier ClassifierFacts Assembler AssemblerVocabulary Basics.

Lemma get_truthy (o : value) (k : string) :
  truthy o = true -> get o k = Ret (get_opt o k).
Proof. destruct o; cbn; intros H; try discriminate; reflexivity. Qed.

Lemma get_opt_falsy (o : value) (k : string) :
  truthy o = false -> get_opt o k = VUndef.
Proof. destruct o; cbn; intros H; try discriminate; reflexivity. Qed.

Lemma page_signals_returns (o : value) :
  exists s, page_signals o = Ret s
            /\ isEffectiveContinuationPage o = Ret (isEffectiveCont s)
            /\ hasGrandTotal s
               = strict_eq (get_opt o "meta_has_grand_total") (VBool true)
            /\ invoiceTotal s = total_of o
            /\ currentPage s = source_page o.
Proof.
  unfold page_signals.
  destruct (isEffectiveContinuationPage_boolean o) as [b Eb].
  destruct (isHeaderPage_value o) as (h & Eh & _).
  rewrite Eb, Eh. cbn [bind]. eexists. split; [reflexivity|].
  cbn. auto.
Qed.

Lemma isSameVendor_typed (a b : value) :
  vendor_typed a -> vendor_typed b ->
  isSameVendor (get_opt a "vendor_name") (get_opt b "vendor_name")
  = Ret (same_vendor a b).
Proof.
  unfold vendor_typed, same_vendor, isSameVendor.
  intros [x Ex] [y Ey]. rewrite Ex, Ey. reflexivity.
Qed.

(** The value of the look-ahead: its truth value is the condition of the
    specification. *)
Lemma shouldContinue_stays_open (s : signals) (c : Q)
    (first : value) (next : option page) :
  currentPage s = VNum c ->
  vendor_typed first ->
  (forall p, next = Some p -> vendor_typed (ocr p)) ->
  exists v,
    shouldContinue s (match next with Some p => ocr p | None => VUndef end) first
    = Ret v
    /\ truthy v = stays_open c first next.
Proof.
  intros Ec Vf Vn. unfold shouldContinue, stays_open.
  destruct next as [p|]; [|eexists; split; reflexivity].
  specialize (Vn p eq_refl). set (n := ocr p) in *.
  destruct (truthy n) eqn:T.
  - destruct (isEffectiveContinuationPage_boolean n) as [e Ee].
    destruct (isFolioPage_value n) as (f & Ef & _).
    destruct (isHeaderPage_value n) as (h & Eh & _).
    pose proof (isHeaderPage_needs_vendor_id n h) as Hh.
    unfold effective_continuation, folio, one_greater, same_bu_code.
    unfold and_value, and_then.
    rewrite T, !(get_truthy n _ T). cbn [bind].
    rewrite Ee, Ef, Eh, (isSameVendor_typed n first Vn Vf), Ec.
    assert (A : strict_eq (get_opt n "meta_source_page") (add (VNum c) one)
                = match get_opt n "meta_source_page" with
                  | VNum m => Qeq_bool m (c + 1)
                  | _ => false
                  end).
    { destruct (get_opt n "meta_source_page"); reflexivity. }
    cbn [bind]. rewrite A. clear A.
    destruct (match get_opt n "meta_source_page" with
              | VNum m => Qeq_bool m (c + 1)
              | _ => false
              end);
      destruct (same_vendor n first);
      destruct e;
      destruct (truthy f) eqn:Tf;
      destruct (truthy (get_opt n "bu_code")) eqn:Tb;
      destruct (truthy (get_opt first "bu_code")) eqn:Tfb;
      destruct (strict_eq (get_opt n "bu_code") (get_opt first "bu_code"));
      destruct (truthy (get_opt n "vendor_id")) eqn:Tv;
      destruct (truthy h) eqn:Th;
      try (specialize (Hh eq_refl Eh); discriminate Hh);
      cbn [bind truthy andb orb negb];
      rewrite ?Tf, ?Tb, ?Tfb, ?Tv, ?Th; cbn [bind truthy andb orb negb];
      eexists; (split; [reflexivity|]);
      cbn [truthy andb orb negb]; rewrite ?Tf, ?Tb, ?Tfb, ?Tv, ?Th; reflexivity.
  - unfold and_value. rewrite T. cbn [bind]. rewrite T.
    eexists. split; [reflexivity|]. rewrite T.
    unfold one_greater. rewrite (get_opt_falsy n _ T). reflexivity.
Qed.

(** C5. When a page with a positive grand total that is not an effective
    continuation is appended to the open group, the group is closed at once,
    unless the next page is adjacent, has the vendor of the group's first
    page, and is an effective continuation or a folio page with the first
    page's business code and no vendor identifier of its own; in that case
    the group stays open. *)
Theorem grand_total_closes_group_unless_continued
    (groups : list (list page)) (group : list page)
    (current first : page) (next : option page) (c : Q) :
  appended current group ->
  hd_error group = Some first ->
  positive_grand_total (ocr current) = true ->
  effective_continuation (ocr current) = false ->
  get_opt (ocr current) "meta_source_page" = VNum c ->
  vendor_typed (ocr first) ->
  (forall p, next = Some p -> vendor_typed (ocr p)) ->
  step current next (groups, group)
  = Ret (if stays_open c (ocr first) next
         then (groups, (group ++ [current])%list)
         else ((groups ++ [(group ++ [current])%list])%list, [])).
Proof.
  intros (s & first' & Es & Hf' & Em) Hf Pg Ne Ec Vf Vn.
  rewrite Hf in Hf'. injection Hf' as <-.
  destruct (page_signals_returns (ocr current)) as (s' & Es' & Ee & Eh & Et & Ep).
  rewrite Es in Es'. injection Es' as <-.
  unfold step. rewrite Es. cbn [bind].
  destruct group as [|g0 tl]; [discriminate|]. cbn in Hf. injection Hf as ->.
  rewrite Em. cbn [bind].
  unfold positive_grand_total in Pg. rewrite <- Eh, <- Et in Pg.
  apply andb_true_iff in Pg as [P1 P2]. rewrite P1, P2.
  unfold effective_continuation in Ne. rewrite Ee in Ne. rewrite Ne.
  cbn [andb negb].
  assert (Ec' : currentPage s = VNum c \/ currentPage s = zero).
  { rewrite Ep. unfold source_page, or_else. rewrite Ec.
    destruct (truthy (VNum c)); auto. }
  destruct Ec' as [Ec' | Ec'].
  - destruct (shouldContinue_stays_open s c (ocr first) next Ec' Vf Vn)
      as (v & Ev & Tv).
    rewrite Ev. cbn [bind]. rewrite Tv.
    destruct (stays_open c (ocr first) next); reflexivity.
  - assert (Z : (c == 0)%Q).
    { rewrite Ep in Ec'. unfold source_page, or_else in Ec'. rewrite Ec in Ec'.
      cbn [truthy] in Ec'. destruct (Qeq_bool c 0) eqn:E; cbn [negb] in Ec'.
      - apply Qeq_bool_iff in E. exact E.
      - injection Ec' as ->. reflexivity. }
    destruct (shouldContinue_stays_open s 0 (ocr first) next Ec' Vf Vn)
      as (v & Ev & Tv).
    rewrite Ev. cbn [bind]. rewrite Tv.
    assert (S : stays_open 0 (ocr first) next = stays_open c (ocr first) next).
    { unfold stays_open. destruct next as [p|]; [|reflexivity].
      f_equal. f_equal. unfold one_greater.
      destruct (get_opt (ocr p) "meta_source_page"); try reflexivity.
      destruct (Qeq_bool q (0 + 1)) eqn:A, (Qeq_bool q (c + 1)) eqn:B;
        try reflexivity.
      - apply Qeq_bool_iff in A. apply Qeq_bool_neq in B. exfalso. apply B.
        rewrite A, Z. reflexivity.
      - apply Qeq_bool_iff in B. apply Qeq_bool_neq in A. exfalso. apply A.
        rewrite B, Z. reflexivity. }
    rewrite S. destruct (stays_open c (ocr first) next); reflexivity.
Qed.

End AssemblerFacts.

Module PartitionFacts.
Import Classifier ClassifierFacts Assembler AssemblerVocabulary AssemblerFacts Basics.

(** ** The sort permutes, and orders numeric indices *)

Lemma insert_perm {A} (after : A -> A -> bool) (x : A) (l : list A) :
  Permutation (insert after x l) (x :: l).
Proof.
  induction l as [|y l IH]; cbn; [reflexivity|].
  destruct (after x y); [|reflexivity].
  rewrite IH. apply perm_swap.
Qed.

Lemma sort_with_perm {A} (after : A -> A -> bool) (l : list A) :
  Permutation (sort_with after l) l.
Proof.
  induction l as [|x l IH]; cbn; [reflexivity|].
  rewrite insert_perm. constructor. exact IH.
Qed.

Lemma later_gt (a b : page) :
  index_numeric a -> index_numeric b ->
  later a b = true <-> (index_of b < index_of a)%Q.
Proof.
  unfold index_numeric, index_of, later, by_source_page, sub, lift2.
  intros Na Nb.
  destruct (to_number (source_page (ocr a))) as [x|]; [|congruence].
  destruct (to_number (source_page (ocr b))) as [y|]; [|congruence].
  unfold gt. cbn [is_stringy andb to_number]. rewrite negb_true_iff. split.
  - intros H. destruct (Qlt_le_dec y x) as [L|L]; [exact L|].
    assert (Qle_bool (x - y) 0 = true) as C; [|congruence].
    apply Qle_bool_iff. lra.
  - intros L. destruct (Qle_bool (x - y) 0) eqn:E; [|reflexivity].
    apply Qle_bool_iff in E. lra.
Qed.

Lemma insert_sorted (x : page) (l : list page) :
  index_numeric x -> Forall index_numeric l ->
  Sorted index_le l -> Sorted index_le (insert later x l).
Proof.
  intros Nx Nl S. induction S as [|y l S IH H]; cbn.
  - repeat constructor.
  - apply Forall_cons_iff in Nl as [Ny Nl].
    destruct (later x y) eqn:C.
    + constructor; [apply IH; exact Nl|].
      apply (later_gt x y Nx Ny) in C.
      destruct l as [|z l]; cbn.
      * constructor. unfold index_le. lra.
      * destruct (later x z); constructor.
        -- inversion H; assumption.
        -- unfold index_le. lra.
    + constructor; [constructor; assumption|]. constructor.
      unfold index_le.
      destruct (Qlt_le_dec (index_of y) (index_of x)) as [L|L]; [|exact L].
      apply (later_gt x y Nx Ny) in L. congruence.
Qed.

Lemma sort_sorted (l : list page) :
  Forall index_numeric l -> Sorted index_le (sort by_source_page l).
Proof.
  unfold sort. fold later.
  induction 1 as [|x l Nx Nl IH]; cbn; [constructor|].
  apply insert_sorted; [exact Nx| |exact IH].
  apply Forall_forall. intros p I.
  rewrite Forall_forall in Nl. apply Nl.
  eapply Permutation_in; [apply sort_with_perm|exact I].
Qed.

Lemma index_le_trans : Relations_1.Transitive index_le.
Proof. intros a b c. unfold index_le. intros; lra. Qed.

Lemma StronglySorted_tail {A} (R : A -> A -> Prop) (l1 l2 : list A) :
  StronglySorted R (l1 ++ l2)%list -> StronglySorted R l2.
Proof.
  induction l1 as [|x l1 IH]; cbn; [auto|].
  intros S. inversion S; subst. auto.
Qed.

(** The first pages of consecutive non-empty segments of a sorted list are
    sorted. *)
Lemma heads_sorted (groups : list (list page)) :
  StronglySorted index_le (List.concat groups) ->
  StronglySorted index_le (heads groups).
Proof.
  induction groups as [|g groups IH]; cbn; [constructor|].
  intros S. pose proof (StronglySorted_tail _ _ _ S) as Sr.
  destruct g as [|p g]; cbn; [apply IH; exact Sr|].
  constructor; [apply IH; exact Sr|].
  cbn in S. inversion S as [|? ? _ F]; subst.
  apply Forall_forall. intros q I. rewrite Forall_forall in F. apply F.
  apply in_or_app. right. unfold heads in I.
  apply in_flat_map in I as (h & Ih & Iq).
  apply in_concat. exists h. split; [exact Ih|].
  destruct h as [|h0 h]; [destruct Iq|]. destruct Iq as [<- | []].
  left. reflexivity.
Qed.

(** ** The loop hands every page to exactly one group *)

Lemma step_partition (current : page) (next : option page) (st st' : state) :
  step current next st = Ret st' ->
  pages_of st' = (pages_of st ++ [current])%list
  /\ (groups_nonempty st -> groups_nonempty st')
  /\ incl (snd st') (snd st ++ [current])%list.
Proof.
  destruct st as [groups group]. unfold step, pages_of, groups_nonempty.
  intros H. apply bind_ret in H as (s & _ & H).
  destruct group as [|first tl].
  - injection H as <-. cbn. rewrite app_nil_r. repeat split; auto.
    apply incl_refl.
  - apply bind_ret in H as (m & _ & H). destruct m.
    + assert (K : forall g' c',
                 (g', c') = ((groups ++ [(first :: tl) ++ [current]])%list, [])
                 \/ (g', c') = (groups, ((first :: tl) ++ [current])%list) ->
                 (List.concat g' ++ c')%list
                 = ((List.concat groups ++ first :: tl) ++ [current])%list
                 /\ (Forall (fun g => g <> []) groups ->
                     Forall (fun g => g <> []) g')
                 /\ incl c' ((first :: tl) ++ [current])%list).
      { intros g' c' [E | E]; injection E as -> ->.
        - rewrite concat_app. cbn. rewrite !app_nil_r, <- app_assoc.
          split; [reflexivity|]. split; [|intros x []].
          intros F. apply Forall_app. split; [exact F|].
          constructor; [discriminate|constructor].
        - rewrite <- app_assoc. split; [reflexivity|].
          split; [auto|apply incl_refl]. }
      destruct st' as [g' c']. cbn [fst snd]. apply K.
      destruct (hasGrandTotal s && gt (invoiceTotal s) zero
                && negb (truthy (isEffectiveCont s))).
      * apply bind_ret in H as (c & _ & H).
        destruct (negb (truthy c)); injection H as <- <-; auto.
      * injection H as <- <-. auto.
    + injection H as <-. cbn [fst snd]. split; [|split].
      * rewrite concat_app. cbn. rewrite !app_nil_r, <- app_assoc. reflexivity.
      * intros F. apply Forall_app. split; [exact F|].
        constructor; [discriminate|constructor].
      * intros x [<- | []]. apply in_or_app. right. left. reflexivity.
Qed.

Lemma loop_partition (pages : list page) : forall st st',
  loop pages st = Ret st' ->
  pages_of st' = (pages_of st ++ pages)%list
  /\ (groups_nonempty st -> groups_nonempty st').
Proof.
  induction pages as [|p pages IH]; cbn; intros st st' H.
  - injection H as <-. rewrite app_nil_r. auto.
  - apply bind_ret in H as (st1 & H1 & H).
    apply step_partition in H1 as (P1 & N1 & _).
    apply IH in H as [P N]. rewrite P, P1, <- app_assoc. auto.
Qed.

Lemma finish_partition (st : state) :
  List.concat (finish st) = pages_of st
  /\ (groups_nonempty st -> Forall (fun g => g <> []) (finish st)).
Proof.
  destruct st as [groups [|p group]]; unfold finish, pages_of, groups_nonempty;
    cbn [fst snd].
  - rewrite app_nil_r. auto.
  - rewrite concat_app. cbn. rewrite app_nil_r. split; [reflexivity|].
    intros F. apply Forall_app. split; [exact F|].
    constructor; [discriminate|constructor].
Qed.

(** ** The loop does not throw on typed vendor names *)

Lemma isUnknownVendor_typed (a : value) :
  vendor_typed a -> returns (isUnknownVendor (get_opt a "vendor_name")).
Proof.
  unfold vendor_typed, returns, normalizeVendorName, isUnknownVendor.
  destruct (truthy (get_opt a "vendor_name")); cbn [negb];
    [|intros _; eexists; reflexivity].
  destruct (get_opt a "vendor_name"); intros [x E]; try discriminate.
  eexists; reflexivity.
Qed.

Lemma shouldMerge_returns (s : signals) (cur prev first : value) :
  vendor_typed cur -> vendor_typed prev -> vendor_typed first ->
  returns (shouldMerge s cur prev first).
Proof.
  intros Vc Vp Vf.
  pose proof (isSameVendor_typed cur prev Vc Vp) as Ecp.
  pose proof (isSameVendor_typed cur first Vc Vf) as Ecf.
  destruct (isUnknownVendor_typed cur Vc) as [u Eu].
  destruct (isFolioPage_value cur) as (f & Ef & _).
  destruct (isHeaderPage_value first) as (h & Eh & _).
  unfold shouldMerge, merge_signal, apply_overrides, override_chain, test,
    and_lazy, or_lazy.
  rewrite Ecp, Ecf, Eu, Ef, Eh.
  repeat (cbn [bind];
          match goal with
          | |- returns (Ret _) => eexists; reflexivity
          | |- context [if ?c then _ else _] => destruct c
          end).
Qed.

Lemma shouldContinue_returns (s : signals) (first : value) (next : option page) :
  vendor_typed first ->
  (forall p, next = Some p -> vendor_typed (ocr p)) ->
  returns (shouldContinue s
             (match next with Some p => ocr p | None => VUndef end) first).
Proof.
  intros Vf Vn. unfold shouldContinue.
  destruct next as [p|]; [|eexists; reflexivity].
  specialize (Vn p eq_refl). set (n := ocr p) in *.
  destruct (truthy n) eqn:T.
  - destruct (isEffectiveContinuationPage_boolean n) as [e Ee].
    destruct (isFolioPage_value n) as (f & Ef & _).
    destruct (isHeaderPage_value n) as (h & Eh & _).
    unfold and_value, and_then. rewrite T, !(get_truthy n _ T). cbn [bind].
    rewrite Ee, Ef, Eh, (isSameVendor_typed n first Vn Vf).
    repeat (cbn [bind];
            match goal with
            | |- returns (Ret _) => eexists; reflexivity
            | |- context [if ?c then _ else _] => destruct c
            end).
  - unfold and_value. rewrite T. cbn [bind]. rewrite T. eexists; reflexivity.
Qed.

Lemma last_in {A} (l : list A) (d : A) : l <> [] -> In (last l d) l.
Proof.
  induction l as [|x l IH]; [congruence|]. intros _.
  destruct l as [|y l]; [left; reflexivity|].
  right. apply IH. discriminate.
Qed.

Lemma step_returns (current : page) (next : option page) (st : state) :
  vendor_typed (ocr current) ->
  Forall (fun p => vendor_typed (ocr p)) (snd st) ->
  (forall p, next = Some p -> vendor_typed (ocr p)) ->
  returns (step current next st).
Proof.
  destruct st as [groups group]. cbn [snd]. intros Vc Vg Vn. unfold step.
  destruct (page_signals_returns (ocr current)) as (s & Es & _).
  rewrite Es. cbn [bind].
  destruct group as [|first tl]; [eexists; reflexivity|].
  rewrite Forall_forall in Vg.
  assert (Vf : vendor_typed (ocr first)) by (apply Vg; left; reflexivity).
  assert (Vp : vendor_typed (ocr (last (first :: tl) first)))
    by (apply Vg, last_in; discriminate).
  destruct (shouldMerge_returns s _ _ _ Vc Vp Vf) as [m Em].
  rewrite Em. cbn [bind]. destruct m; [|eexists; reflexivity].
  destruct (hasGrandTotal s && gt (invoiceTotal s) zero
            && negb (truthy (isEffectiveCont s))); [|eexists; reflexivity].
  destruct (shouldContinue_returns s (ocr first) next Vf Vn) as [c Ec].
  rewrite Ec. cbn [bind]. destruct (negb (truthy c)); eexists; reflexivity.
Qed.

Lemma loop_returns (pages : list page) : forall st,
  Forall (fun p => vendor_typed (ocr p)) pages ->
  Forall (fun p => vendor_typed (ocr p)) (snd st) ->
  returns (loop pages st).
Proof.
  induction pages as [|p pages IH]; cbn; intros st Vp Vs; [eexists; reflexivity|].
  apply Forall_cons_iff in Vp as [Vc Vr].
  assert (Vn : forall q, hd_error pages = Some q -> vendor_typed (ocr q)).
  { intros q E. destruct pages as [|q' pages']; [discriminate|].
    injection E as <-. apply Forall_cons_iff in Vr as [V _]. exact V. }
  destruct (step_returns p (hd_error pages) st Vc Vs Vn) as [st1 E1].
  rewrite E1. cbn [bind]. apply IH; [exact Vr|].
  apply step_partition in E1 as (_ & _ & I).
  apply Forall_forall. intros q Iq. apply I in Iq.
  apply in_app_or in Iq as [Iq | [<- | []]]; [|exact Vc].
  rewrite Forall_forall in Vs. apply Vs. exact Iq.
Qed.


End PartitionFacts.

(* ===================================================================== *)
(** * The matcher on a ledger with two lines for one invoice *)
(* ===================================================================== *)

Module MatchFacts.
Import Matcher Vocabulary Samples.

(** C1 (fails on this input). Two ledger lines carry the number and the
    vendor of one scanned document: Pass 1 matches the document to the first
    line, takes it out of the unmatched pool, and matches it again to the
    second line, because the candidates come from the index and are not
    checked against the pool.  The document is in two matches. *)
Theorem split_invoice_claims_document_twice :
  exists st,
    matchInvoices split_invoice_ledger split_invoice_docs = Ret st
    /\ pairs st = [(1, 10); (2, 10)]%nat
    /\ Forall by_invoice_number (matches st)
    /\ unmatchedOcr st = [] /\ unmatchedLedger st = [].
Proof.
  eexists. split; [vm_compute; reflexivity|].
  split; [reflexivity|]. split; [|split; reflexivity].
  repeat constructor.
Qed.

End MatchFacts.

(* ===================================================================== *)
(** * The merged output and the clock *)
(* ===================================================================== *)

Module PipelineFacts.
Import Matcher Pipeline PipelineVocabulary Basics.

Lemma lookup_cons (k k0 : string) (v : value) (rest : list (string * value)) :
  lookup k ((k0, v) :: rest) = if k0 =? k then v else lookup k rest.
Proof. reflexivity. Qed.



End PipelineFacts.

(* ===================================================================== *)
(** * The theorems on the sample inputs *)
(* ===================================================================== *)

Module Witnesses.
Import Classifier ClassifierFacts Assembler AssemblerVocabulary AssemblerFacts.
Import PartitionFacts Reconciler ReconcilerVocabulary TotalsFacts.
Import AssemblerSamples.

(** The folio page of the sample invoice has no date and no vendor
    identifier: it is an effective continuation. *)
Lemma effective_continuation_of_folio12 :
  isEffectiveContinuationPage (ocr folio12) = Ret (VBool true).
Proof.
  apply (proj1 (proj1 isEffectiveContinuationPage_iff_spec _)).
  right. left. split; [reflexivity|]. right. reflexivity.
Defined.


(** A dated folio page with the grand total ends the sample group: the page
    after it is a new header. *)
Lemma grand_total_page_closes_sample_group :
  step dated_folio12 (Some header13) ([], [header10; continuation11])
  = Ret ([[header10; continuation11; dated_folio12]], []).
Proof.
  refine (grand_total_closes_group_unless_continued
            [] [header10; continuation11] dated_folio12 header10 (Some header13) 12%Q
            _ eq_refl eq_refl eq_refl eq_refl _ _).
  - eexists. exists header10. split; [vm_compute; reflexivity|].
    split; [reflexivity|]. vm_compute. reflexivity.
  - eexists. vm_compute. reflexivity.
  - intros p E. injection E as <-. eexists. vm_compute. reflexivity.
Defined.


End Witnesses.

Module MatcherWitnesses.
Import Matcher Vocabulary Samples MatcherFacts Pass2Facts.

(** A ledger line whose invoice number is made of zeros is left alone by
    Pass 1. *)
Lemma zero_number_skipped :
  pass1_step [] (ledger_line 1 "000" "Acme Hotels" "9/8/2024" 10%Q)
             (start [] [])
  = Ret (start [] []).
Proof.
  eapply (proj1 (proj2 blank_invoice_numbers_skip_pass1)).
  - reflexivity.
  - reflexivity.
  - right. right. reflexivity.
Defined.


End MatcherWitnesses.

(* ===================================================================== *)
(** * Further properties of the page classifiers *)
(* ===================================================================== *)

Module ClassifierRules.
Import Classifier ClassifierFacts.

(** The classifier on any value, as the boolean combination of its tests. *)
Lemma isEffectiveContinuationPage_value (p : value) :
  isEffectiveContinuationPage p =
  Ret (VBool (truthy p
              && (declared_continuation p
                  || date_missing p
                     && (number_missing_or_placeholder p || vendor_id_missing p)
                  || vendor_unknown p && date_missing p
                     && vendor_id_missing p && business_code_missing p))).
Proof.
  unfold isEffectiveContinuationPage, declared_continuation, date_missing,
    number_missing_or_placeholder, vendor_id_missing, business_code_missing,
    vendor_unknown.
  destruct (truthy p) eqn:T; cbn [negb andb]; [|reflexivity].
  rewrite !(classifier_guard p _ T). cbn [bind].
  destruct (strict_eq (own_prop p "meta_is_continuation_page") (VBool true));
    [reflexivity|].
  cbn [orb].
  match goal with
  | |- (if ?c then _ else _) = _ => destruct c eqn:E1
  end; [reflexivity|].
  match goal with
  | |- (if ?c then _ else _) = _ => destruct c eqn:E2
  end; reflexivity.
Qed.

(** X2. The rule on unknown vendors never decides: whenever it holds, the rule
    before it has already answered.  So the answer of
    [isEffectiveContinuationPage] depends on the continuation flag, the
    date, the invoice number and the vendor identifier only, not on the
    vendor name or the business code. *)
Theorem unknown_vendor_rule_never_decides (p : value) :
  isEffectiveContinuationPage p =
  Ret (VBool (truthy p
              && (declared_continuation p
                  || date_missing p
                     && (number_missing_or_placeholder p
                         || vendor_id_missing p)))).
Proof.
  rewrite isEffectiveContinuationPage_value.
  destruct (truthy p), (declared_continuation p), (date_missing p),
    (number_missing_or_placeholder p), (vendor_id_missing p),
    (vendor_unknown p), (business_code_missing p); reflexivity.
Qed.

(** X3. A header page whose date is not one of the two placeholder strings is
    not an effective continuation. *)
Theorem dated_header_is_no_continuation (p v : value) :
  isHeaderPage p = Ret v -> truthy v = true ->
  strict_eq (own_prop p "invoice_date") (VStr "null") = false ->
  strict_eq (own_prop p "invoice_date") (VStr "YYYY-MM-DD") = false ->
  isEffectiveContinuationPage p = Ret (VBool false).
Proof.
  intros H Tv N1 N2. rewrite isEffectiveContinuationPage_value.
  revert H. unfold isHeaderPage.
  destruct (truthy p) eqn:T; cbn [negb andb]; [|reflexivity].
  rewrite !(classifier_guard p _ T). cbn [bind].
  destruct (truthy (own_prop p "vendor_id")) eqn:A; cbn [negb];
    [|intros H; injection H as <-; congruence].
  destruct (truthy (own_prop p "bu_code")) eqn:B; cbn [negb];
    [|intros H; injection H as <-; congruence].
  destruct (truthy (own_prop p "invoice_date")) eqn:C; cbn [negb];
    [|intros H; injection H as <-; congruence].
  intros H. injection H as <-. cbn in Tv. apply negb_true_iff in Tv.
  assert (D : declared_continuation p = false).
  { unfold declared_continuation.
    destruct (own_prop p "meta_is_continuation_page"); try reflexivity.
    cbn in *. subst. reflexivity. }
  unfold date_missing, vendor_id_missing. rewrite D, C, N1, N2, A.
  cbn [negb orb andb]. rewrite !andb_false_r. reflexivity.
Qed.

End ClassifierRules.

(* ===================================================================== *)
(** * What every group of the assembler satisfies *)
(* ===================================================================== *)

Module GroupFacts.
Import Classifier ClassifierFacts Assembler AssemblerVocabulary AssemblerFacts.
Import GroupVocabulary Basics.

Lemma last_any_default {A} (l : list A) (x d d' : A) :
  last (x :: l) d = last (x :: l) d'.
Proof.
  revert x. induction l as [|y l IH]; intros x; [reflexivity|].
  change (last (y :: l) d = last (y :: l) d'). apply IH.
Qed.

Lemma chain_ok_snoc R first x : forall rest prev,
  chain_ok R first prev rest ->
  R first (last rest prev) x ->
  chain_ok R first prev (rest ++ [x])%list.
Proof.
  induction rest as [|y rest IH]; cbn [chain_ok app]; intros prev C H.
  - cbn in H. auto.
  - destruct C as [Ry C]. split; [exact Ry|]. apply IH; [exact C|].
    destruct rest as [|p rest]; [exact H|].
    rewrite (last_any_default rest p y prev). exact H.
Qed.

Lemma last_cons_default (first : page) (rest : list page) :
  last (first :: rest) first = last rest first.
Proof. destruct rest; reflexivity. Qed.

Lemma step_groups R current next groups group groups' group' :
  merge_rule R ->
  step current next (groups, group) = Ret (groups', group') ->
  Forall (group_ok R) groups -> group_ok R group ->
  Forall (group_ok R) groups' /\ group_ok R group'.
Proof.
  intros M H Fg Og. unfold step in H.
  apply bind_ret in H as (s & Es & H).
  destruct group as [|first rest].
  - injection H as <- <-. split; [exact Fg|exact I].
  - apply bind_ret in H as (m & Em & H).
    assert (App : m = true -> group_ok R ((first :: rest) ++ [current])%list).
    { intros ->. cbn [group_ok app]. apply chain_ok_snoc; [exact Og|].
      rewrite <- last_cons_default. eapply M; eauto. }
    destruct m.
    + specialize (App eq_refl).
      destruct (hasGrandTotal s && gt (invoiceTotal s) zero
                && negb (truthy (isEffectiveCont s))).
      * apply bind_ret in H as (c & _ & H).
        destruct (negb (truthy c)); injection H as <- <-.
        -- split; [|exact I]. apply Forall_app. split; [exact Fg|].
           constructor; [exact App|constructor].
        -- split; [exact Fg|exact App].
      * injection H as <- <-. split; [exact Fg|exact App].
    + injection H as <- <-. split; [|exact I].
      apply Forall_app. split; [exact Fg|]. constructor; [exact Og|constructor].
Qed.

Lemma loop_groups R pages : forall groups group groups' group',
  merge_rule R ->
  loop pages (groups, group) = Ret (groups', group') ->
  Forall (group_ok R) groups -> group_ok R group ->
  Forall (group_ok R) groups' /\ group_ok R group'.
Proof.
  induction pages as [|p pages IH]; cbn; intros groups group groups' group' M H F O.
  - injection H as <- <-. auto.
  - apply bind_ret in H as ([g1 c1] & H1 & H).
    destruct (step_groups R _ _ _ _ _ _ M H1 F O) as [F1 O1].
    eapply IH; eauto.
Qed.

Lemma processInvoices_groups R parseOCR rows groups :
  merge_rule R ->
  processInvoices parseOCR rows = Ret groups ->
  Forall (group_ok R) groups.
Proof.
  intros M H. unfold processInvoices in H.
  apply bind_ret in H as ([gs g] & L & H). injection H as <-.
  destruct (loop_groups R _ _ _ _ _ M L (Forall_nil _) I) as [F O].
  unfold finish. destruct g; [exact F|].
  apply Forall_app. split; [exact F|]. constructor; [exact O|constructor].
Qed.

(** ** What a positive merge decision implies *)

Lemma shouldMerge_true s cur prev first :
  shouldMerge s cur prev first = Ret true ->
  exists o123 sv o4,
    override_chain s cur prev first = Ret o123
    /\ isSameVendor (get_opt cur "vendor_name") (get_opt first "vendor_name")
       = Ret sv
    /\ and_lazy (negb sv)
         (u <- isUnknownVendor (get_opt cur "vendor_name") ;; Ret (negb u))
       = Ret o4
    /\ o123 = false /\ o4 = false
    /\ (negb (strict_eq (currentPage s) (add (source_page prev) one))
        && gt (currentPage s) (add (source_page prev) one)) = false.
Proof.
  unfold shouldMerge. intros H.
  apply bind_ret in H as (m & _ & H). destruct m; [|discriminate].
  unfold apply_overrides in H.
  apply bind_ret in H as (o123 & E1 & H).
  apply bind_ret in H as (sv & E2 & H).
  apply bind_ret in H as (o4 & E3 & H).
  injection H as H. apply negb_true_iff in H.
  apply orb_false_iff in H as [H H5]. apply orb_false_iff in H as [H1 H4].
  exists o123, sv, o4. auto 10.
Qed.

Lemma header_is_not_continuation (o v : value) :
  isHeaderPage o = Ret v -> truthy v = true ->
  strict_eq (get_opt o "meta_is_continuation_page") (VBool true) = false.
Proof.
  unfold isHeaderPage.
  destruct (truthy o) eqn:T; cbn [negb];
    [|intros H; injection H as <-; discriminate].
  rewrite !(classifier_guard o _ T). cbn [bind].
  destruct (truthy (own_prop o "vendor_id")) eqn:A; cbn [negb];
    [|intros H Tv; injection H as <-; congruence].
  destruct (truthy (own_prop o "bu_code")) eqn:B; cbn [negb];
    [|intros H Tv; injection H as <-; congruence].
  destruct (truthy (own_prop o "invoice_date")) eqn:C; cbn [negb];
    [|intros H Tv; injection H as <-; congruence].
  intros H Tv. injection H as <-. cbn in Tv. apply negb_true_iff in Tv.
  assert (E : get_opt o "meta_is_continuation_page"
              = own_prop o "meta_is_continuation_page")
    by (destruct o; reflexivity).
  rewrite E. destruct (own_prop o "meta_is_continuation_page");
    try reflexivity. cbn in *. subst. reflexivity.
Qed.

Lemma header_rule : merge_rule not_a_header.
Proof.
  intros cur prev first s Es Em. unfold not_a_header, header_page.
  apply shouldMerge_true in Em as (o123 & sv & o4 & E1 & _ & _ & Z & _).
  subst o123.
  unfold page_signals in Es.
  apply bind_ret in Es as (eff & _ & Es).
  apply bind_ret in Es as (hdr & Eh & Es). injection Es as <-.
  rewrite Eh. unfold override_chain in E1. cbn [isHeader isContinuation] in E1.
  destruct (truthy hdr) eqn:T; [|reflexivity].
  rewrite (header_is_not_continuation _ _ Eh T) in E1. discriminate E1.
Qed.

Lemma vendor_rule : merge_rule vendor_of_first.
Proof.
  intros cur prev first s Es Em. unfold vendor_of_first, same_vendor, unknown_vendor.
  apply shouldMerge_true in Em as (o123 & sv & o4 & _ & E2 & E3 & _ & Z & _).
  subst o4. rewrite E2. destruct sv; [left; reflexivity|right].
  cbn [negb and_lazy] in E3.
  apply bind_ret in E3 as (u & Eu & E3). rewrite Eu.
  injection E3 as E3. apply negb_false_iff in E3. exact E3.
Qed.

Lemma source_page_number (o : value) (a : Q) :
  get_opt o "meta_source_page" = VNum a ->
  exists a', source_page o = VNum a' /\ (a' == a)%Q.
Proof.
  intros E. unfold source_page, or_else. rewrite E. cbn [truthy].
  destruct (Qeq_bool a 0) eqn:Z; cbn [negb].
  - exists 0%Q. split; [reflexivity|]. apply Qeq_bool_iff in Z.
    symmetry. exact Z.
  - exists a. split; reflexivity.
Qed.

Lemma gap_rule : merge_rule no_gap.
Proof.
  intros cur prev first s Es Em a b Ea Eb.
  apply shouldMerge_true in Em as (_ & _ & _ & _ & _ & _ & _ & _ & G).
  destruct (page_signals_returns (ocr cur)) as (s' & Es' & _ & _ & _ & Ep).
  rewrite Es in Es'. injection Es' as <-.
  destruct (source_page_number _ _ Ea) as (a' & Ea' & Qa).
  destruct (source_page_number _ _ Eb) as (b' & Eb' & Qb).
  rewrite Ep, Ea', Eb' in G.
  cbn [add is_stringy orb one lift2 to_number strict_eq gt andb] in G.
  apply andb_false_iff in G as [G | G].
  - apply negb_false_iff, Qeq_bool_iff in G. rewrite <- Qb, <- Qa, G. lra.
  - apply negb_false_iff, Qle_bool_iff in G. rewrite <- Qb, <- Qa. exact G.
Qed.

Lemma merge_signal_true s ic cur prev first :
  merge_signal s ic cur prev first = Ret true ->
  ic = true
  \/ (truthy (get_opt cur "invoice_number") = true
      /\ strict_eq (get_opt cur "invoice_number") (VStr "N/A") = false
      /\ strict_eq (get_opt prev "invoice_number")
                   (get_opt cur "invoice_number") = true
      /\ isSameVendor (get_opt cur "vendor_name") (get_opt prev "vendor_name")
         = Ret true).
Proof.
  intros H. destruct ic; [left; reflexivity|]. right. revert H.
  unfold merge_signal. rewrite !andb_false_r. cbn [and_lazy bind].
  assert (Off : forall c3 : bool,
            (if c3 then Ret true else
             folio <- test (isFolioPage cur) ;;
             c6 <- (folio && false) &&>
                   isSameVendor (get_opt cur "vendor_name")
                                (get_opt first "vendor_name") ;;
             if c6 then
               h <- test (isHeaderPage first) ;;
               Ret (h && negb (truthy (get_opt cur "vendor_id")))
             else
             folio' <- test (isFolioPage cur) ;;
             c7 <- (folio' && false && same_bu_code cur first
                    && negb (truthy (get_opt cur "vendor_id")))
                   &&> isSameVendor (get_opt cur "vendor_name")
                                    (get_opt first "vendor_name") ;;
             if c7 then Ret true else Ret false) = Ret true ->
            c3 = true).
  { intros [|]; [reflexivity|]. intros H.
    destruct (test (isFolioPage cur)) as [f|e]; cbn [bind] in H;
      [|discriminate H].
    rewrite !andb_false_r in H. cbn [andb and_lazy bind] in H.
    discriminate H. }
  destruct (truthy (get_opt cur "invoice_number")) eqn:T; cbn [andb];
    [|intros H; discriminate (Off false H)].
  destruct (strict_eq (get_opt cur "invoice_number") (VStr "N/A")) eqn:N;
    cbn [negb andb]; [intros H; discriminate (Off false H)|].
  destruct (strict_eq (get_opt prev "invoice_number")
                      (get_opt cur "invoice_number")) eqn:E;
    cbn [and_lazy bind]; [|intros H; discriminate (Off false H)].
  destruct (isSameVendor (get_opt cur "vendor_name")
                         (get_opt prev "vendor_name")) as [sv|e];
    cbn [bind]; [|discriminate].
  intros H. rewrite (Off sv H). auto.
Qed.

Lemma sequence_rule : merge_rule next_or_same_number.
Proof.
  intros cur prev first s Es Em. unfold next_or_same_number, same_vendor.
  destruct (page_signals_returns (ocr cur)) as (s' & Es' & _ & _ & _ & Ep).
  rewrite Es in Es'. injection Es' as <-.
  unfold shouldMerge in Em. apply bind_ret in Em as (m & Hm & Em).
  destruct m; [|discriminate]. rewrite Ep in Hm.
  apply merge_signal_true in Hm as [C | (T & N & E & V)]; [left; exact C|].
  right. rewrite V. auto.
Qed.

(** X4. In the groups [processInvoices] returns, a header page (vendor
    identifier, business code and date present, not a continuation) is never
    appended to a group: it can only be the first page of its group. *)
Theorem header_pages_start_groups parseOCR rows groups :
  processInvoices parseOCR rows = Ret groups ->
  Forall (group_ok not_a_header) groups.
Proof. apply processInvoices_groups, header_rule. Qed.

(** X5. In the groups [processInvoices] returns, every page after the first
    has the vendor of the group's first page (after vendor normalisation) or
    an unknown vendor. *)
Theorem groups_keep_one_vendor parseOCR rows groups :
  processInvoices parseOCR rows = Ret groups ->
  Forall (group_ok vendor_of_first) groups.
Proof. apply processInvoices_groups, vendor_rule. Qed.

(** X6. In the groups [processInvoices] returns, no page index jumps: where
    two neighbouring pages of a group have numeric indices, the second index
    is at most one more than the first. *)
Theorem groups_have_no_page_gap parseOCR rows groups :
  processInvoices parseOCR rows = Ret groups ->
  Forall (group_ok no_gap) groups.
Proof. apply processInvoices_groups, gap_rule. Qed.

(** X7. In the groups [processInvoices] returns, every page after the first
    either has the page index that follows the index of the page before it,
    or carries the invoice number (present, not N/A) and the vendor of the
    page before it. *)
Theorem groups_follow_page_order parseOCR rows groups :
  processInvoices parseOCR rows = Ret groups ->
  Forall (group_ok next_or_same_number) groups.
Proof. apply processInvoices_groups, sequence_rule. Qed.

End GroupFacts.

(* ===================================================================== *)
(** * Line items of the merged invoice *)
(* ===================================================================== *)

Module LineItemFacts.
Import Assembler Reconciler ReconcilerVocabulary LineItemVocabulary Basics.
Import ReconcilerFacts TotalsFacts.

Lemma line_item_key_returns (item : value) :
  is_nullish item = false -> line_item_key item = Ret (key_of item).
Proof.
  unfold key_of, line_item_key.
  destruct item; cbn; intros H; try discriminate; reflexivity.
Qed.

Lemma line_item_key_throws (item : value) :
  is_nullish item = true -> forall k, line_item_key item <> Ret k.
Proof. destruct item; cbn; intros H k E; discriminate. Qed.

Lemma line_item_key_of (item : value) (k : string) :
  line_item_key item = Ret k -> is_nullish item = false /\ k = key_of item.
Proof.
  intros E. destruct (is_nullish item) eqn:N.
  - exfalso. exact (line_item_key_throws item N k E).
  - split; [reflexivity|]. rewrite (line_item_key_returns item N) in E.
    injection E as <-. reflexivity.
Qed.

Lemma seen_has (key : string) (seen : list string) :
  existsb (String.eqb key) seen = true <-> In key seen.
Proof.
  rewrite existsb_exists. split.
  - intros (x & I & E). apply String.eqb_eq in E. subst. exact I.
  - intros I. exists key. split; [exact I|apply String.eqb_refl].
Qed.

Lemma subsequence_nil {A} (l : list A) : subsequence [] l.
Proof. induction l; constructor; assumption. Qed.

Lemma subsequence_all {A} (P : A -> Prop) (l l' : list A) :
  subsequence l l' -> Forall P l' -> Forall P l.
Proof.
  induction 1 as [|x l l' S IH|x l l' S IH]; intros F.
  - constructor.
  - inversion F; subst. auto.
  - inversion F; subst. constructor; auto.
Qed.

(** What the filter does from a given set of keys already seen. *)
Lemma dedup_from_spec items : forall seen kept,
  dedup_from seen items = Ret kept ->
  subsequence kept items
  /\ NoDup (map key_of kept)
  /\ (forall x, In x kept -> ~ In (key_of x) seen)
  /\ (forall x, In x items ->
                In (key_of x) seen \/ In (key_of x) (map key_of kept))
  /\ (forall before x after,
         items = (before ++ x :: after)%list ->
         ~ In (key_of x) seen ->
         ~ In (key_of x) (map key_of before) ->
         In x kept).
Proof.
  induction items as [|item items IH]; cbn; intros seen kept H.
  - injection H as <-. split; [constructor|]. split; [constructor|].
    split; [intros x []|]. split; [intros x []|].
    intros [|? ?] y after E; discriminate E.
  - apply bind_ret in H as (key & Hk & H).
    apply line_item_key_of in Hk as [_ ->].
    destruct (existsb (String.eqb (key_of item)) seen) eqn:S.
    + apply seen_has in S.
      destruct (IH _ _ H) as (Sub & Nd & Fresh & Cov & First).
      split; [constructor; exact Sub|]. split; [exact Nd|].
      split; [exact Fresh|]. split.
      * intros x [<- | I]; [left; exact S|exact (Cov x I)].
      * intros [|b before] x after E Nx Nb; injection E as E1 E2.
        -- subst. contradiction.
        -- subst. apply (First before x after eq_refl Nx).
           intros I. apply Nb. right. exact I.
    + assert (Ns : ~ In (key_of item) seen).
      { intros I. apply seen_has in I. congruence. }
      apply bind_ret in H as (kept' & H' & H). injection H as <-.
      destruct (IH _ _ H') as (Sub & Nd & Fresh & Cov & First).
      split; [constructor; exact Sub|]. split; [|split; [|split]].
      * cbn. constructor; [|exact Nd]. intros I.
        apply in_map_iff in I as (y & Ey & Iy).
        apply (Fresh y Iy). rewrite Ey. left. reflexivity.
      * intros x [<- | I]; [exact Ns|].
        intros Is. apply (Fresh x I). right. exact Is.
      * intros x [<- | I]; [right; left; reflexivity|].
        destruct (Cov x I) as [[E | Is] | Ik].
        -- right. left. exact E.
        -- left. exact Is.
        -- right. right. exact Ik.
      * intros [|b before] x after E Nx Nb; injection E as E1 E2.
        -- subst. left. reflexivity.
        -- subst. right. apply (First before x after eq_refl).
           ++ intros [E | I]; [|contradiction].
              apply Nb. left. exact E.
           ++ intros I. apply Nb. right. exact I.
Qed.

(** A list whose keys are distinct and new is kept as it is. *)
Lemma dedup_from_distinct items : forall seen,
  Forall (fun i => is_nullish i = false) items ->
  NoDup (map key_of items) ->
  (forall x, In x items -> ~ In (key_of x) seen) ->
  dedup_from seen items = Ret items.
Proof.
  induction items as [|item items IH]; cbn; intros seen F N Fresh;
    [reflexivity|].
  inversion F as [|? ? Fi Fr]; subst. inversion N as [|? ? Ni Nr]; subst.
  rewrite (line_item_key_returns item Fi). cbn [bind].
  destruct (existsb (String.eqb (key_of item)) seen) eqn:S.
  - apply seen_has in S. exfalso. exact (Fresh item (or_introl eq_refl) S).
  - rewrite IH; [reflexivity|exact Fr|exact Nr|].
    intros x I [E | Is].
    + apply Ni. rewrite E. apply in_map. exact I.
    + exact (Fresh x (or_intror I) Is).
Qed.

Lemma dedup_from_returns items : forall seen,
  returns (dedup_from seen items)
  <-> Forall (fun i => is_nullish i = false) items.
Proof.
  induction items as [|item items IH]; cbn; intros seen.
  - split; [constructor|eexists; reflexivity].
  - split.
    + intros [kept H]. apply bind_ret in H as (key & Hk & H).
      apply line_item_key_of in Hk as [Nn ->]. constructor; [exact Nn|].
      destruct (existsb _ seen).
      * apply (IH seen). eexists. exact H.
      * apply bind_ret in H as (kept' & H' & _).
        apply (IH (key_of item :: seen)). eexists. exact H'.
    + intros F. inversion F as [|? ? Fi Fr]; subst.
      rewrite (line_item_key_returns item Fi). cbn [bind].
      destruct (existsb _ seen).
      * apply IH. exact Fr.
      * destruct (proj2 (IH (key_of item :: seen)) Fr) as [kept' E].
        rewrite E. eexists. reflexivity.
Qed.

(** X8. The filter keeps the first item of each key and nothing else: what it
    returns is the input with some items left out, no two of the items kept
    have the same key, every key of the input is the key of an item kept,
    and an item with no item of the same key before it is kept. *)
Theorem deduplicateLineItems_keeps_first_of_each_key (items kept : list value) :
  deduplicateLineItems items = Ret kept ->
  subsequence kept items
  /\ NoDup (map key_of kept)
  /\ incl (map key_of items) (map key_of kept)
  /\ (forall before x after,
         items = (before ++ x :: after)%list ->
         ~ In (key_of x) (map key_of before) ->
         In x kept).
Proof.
  intros H. destruct (dedup_from_spec _ _ _ H) as (Sub & Nd & _ & Cov & First).
  split; [exact Sub|]. split; [exact Nd|]. split.
  - intros k I. apply in_map_iff in I as (x & <- & Ix).
    destruct (Cov x Ix) as [[] | Ik]. exact Ik.
  - intros before x after E Nb. apply (First before x after E); [|exact Nb].
    intros [].
Qed.

(** X9. Filtering twice changes nothing. *)
Theorem deduplicateLineItems_idempotent (items kept : list value) :
  deduplicateLineItems items = Ret kept ->
  deduplicateLineItems kept = Ret kept.
Proof.
  intros H. destruct (dedup_from_spec _ _ _ H) as (Sub & Nd & _).
  apply dedup_from_distinct; [|exact Nd|intros x _ []].
  apply (subsequence_all _ _ _ Sub).
  apply (dedup_from_returns items []). eexists. exact H.
Qed.


End LineItemFacts.

(* ===================================================================== *)
(** * What the merged invoice records about its pages *)
(* ===================================================================== *)

Module MergedInvoiceFacts.
Import Assembler Reconciler ReconcilerVocabulary LineItemVocabulary Basics.
Import ReconcilerFacts TotalsFacts PartitionFacts LineItemFacts.

(** The two shapes of a non-empty group. *)
Lemma createMergedInvoice_cases JSON_parse (pages : list page) (doc : value) :
  pages <> [] ->
  createMergedInvoice JSON_parse pages = Ret doc ->
  (exists p, sort by_source_page pages = [p]
             /\ List.length pages = 1%nat /\ doc = single_page p)
  \/ ((2 <= List.length pages)%nat
      /\ multi_page JSON_parse (sort by_source_page pages) = Ret doc).
Proof.
  intros Ne H.
  pose proof (sort_with_length
                (fun a b : page => gt (by_source_page a b) (VNum 0%Q)) pages) as L.
  unfold createMergedInvoice in H. fold (sort by_source_page) in L.
  destruct pages as [|p0 pages0]; [congruence|].
  cbv zeta in H.
  remember (sort by_source_page (p0 :: pages0)) as ordered eqn:EO.
  destruct ordered as [|q [|q' rest]].
  - cbn in L. lia.
  - left. exists q. injection H as <-. cbn in L. auto.
  - right. split; [cbn in L |- *; lia|exact H].
Qed.

Lemma multi_page_bookkeeping JSON_parse (pages : list page) (doc : value) :
  multi_page JSON_parse pages = Ret doc ->
  own_prop doc "merge_info"
  = VObj [("page_count", num (Z.of_nat (List.length pages)));
          ("source_pages", VArr (sort sub (map source_page (map ocr pages))));
          ("was_merged", VBool true);
          ("merge_reasoning",
             str (merge_reasoning (map ocr pages)
                    (sort sub (map source_page (map ocr pages)))))]
  /\ own_prop doc "all_source_rows"
     = VArr (map (lookup "Number") (map row pages))
  /\ own_prop doc "all_source_file_ids"
     = VArr (map (lookup "File ID") (map row pages))
  /\ exists items,
       deduplicateLineItems items = Ret
         match own_prop doc "line_items" with
         | VArr kept => kept
         | _ => []
         end
       /\ collect_line_items (map ocr pages) [] = Ret items
       /\ exists kept, own_prop doc "line_items" = VArr kept.
Proof.
  unfold multi_page. intros H.
  apply bind_ret in H as (a1 & H1 & H).
  apply bind_ret in H as (a2 & H2 & H).
  apply bind_ret in H as (a3 & _ & H).
  apply bind_ret in H as (a4 & _ & H).
  injection H as <-.
  split; [reflexivity|]. split; [reflexivity|]. split; [reflexivity|].
  exists a1. split; [exact H2|]. split; [exact H1|].
  eexists. reflexivity.
Qed.

Lemma collect_line_items_covers pageOcrs : forall acc all,
  collect_line_items pageOcrs acc = Ret all ->
  incl acc all
  /\ forall o, In o pageOcrs -> incl (page_items o) all.
Proof.
  induction pageOcrs as [|o rest IH]; cbn [collect_line_items];
    intros acc all H.
  - injection H as <-. split; [apply incl_refl|intros o []].
  - assert (Step : exists acc',
               collect_line_items rest acc' = Ret all
               /\ incl acc acc' /\ incl (page_items o) acc').
    { unfold page_items.
      destruct (get_opt o "line_items") as [| |b|q| |s|its|props] eqn:E;
        try (revert H;
             match goal with
             | |- (if ?c then _ else _) = _ -> _ => destruct c
             end; intros H;
             [apply bind_ret in H as (items & Hi & H);
              first [discriminate Hi
                    |exists (acc ++ items)%list; split; [exact H|];
                     split; [apply incl_appl, incl_refl|intros x []]]
             |exists acc; split; [exact H|];
              split; [apply incl_refl|intros x []]]).
      destruct its as [|x its].
      - exists acc. split; [exact H|]. split; [apply incl_refl|intros x []].
      - exists (acc ++ x :: its)%list. split; [exact H|].
        split; [apply incl_appl, incl_refl|apply incl_appr, incl_refl]. }
    destruct Step as (acc' & H' & Ia & Io).
    destruct (IH _ _ H') as [I1 I2]. split.
    + intros x I. apply I1, Ia, I.
    + intros o' [<- | I]; [|exact (I2 o' I)].
      intros x Ix. apply I1, Io, Ix.
Qed.

(** ** When the reconciler returns *)

Lemma collect_line_items_returns pageOcrs : forall acc,
  Forall well_formed_lists pageOcrs ->
  Forall (fun i => is_nullish i = false) acc ->
  exists all, collect_line_items pageOcrs acc = Ret all
              /\ Forall (fun i => is_nullish i = false) all.
Proof.
  induction pageOcrs as [|o rest IH]; cbn [collect_line_items];
    intros acc W A.
  - exists acc. auto.
  - inversion W as [|? ? (L & _ & _ & N) W']; subst.
    unfold page_items in N.
    destruct (get_opt o "line_items") as [| |b|q| |s|its|props];
      cbn [list_or_absent] in L;
      try (apply negb_true_iff in L; rewrite L; cbn [andb];
           apply IH; assumption).
    destruct (truthy (VArr its) && gt (length_of (VArr its)) zero);
      cbn [iterate bind]; apply IH; try assumption.
    apply Forall_app. auto.
Qed.

Lemma collect_set_returns field f pageOcrs : forall acc,
  Forall (fun o => list_or_absent (get_opt o field) = true) pageOcrs ->
  returns (collect_set field f pageOcrs acc).
Proof.
  induction pageOcrs as [|o rest IH]; cbn [collect_set]; intros acc W.
  - eexists. reflexivity.
  - inversion W as [|? ? L W']; subst.
    destruct (get_opt o field) as [| |b|q| |s|its|props];
      cbn [list_or_absent] in L;
      try (apply negb_true_iff in L; rewrite L; apply IH; assumption).
    cbn [truthy forEach_items bind]. apply IH. assumption.
Qed.

Lemma multi_page_returns JSON_parse (pages : list page) :
  Forall (fun p => well_formed_lists (ocr p)) pages ->
  returns (multi_page JSON_parse pages).
Proof.
  intros W. unfold multi_page.
  assert (Wo : Forall well_formed_lists (map ocr pages)).
  { apply Forall_map. exact W. }
  destruct (collect_line_items_returns _ [] Wo (Forall_nil _))
    as (items & E1 & N).
  rewrite E1. cbn [bind].
  destruct (proj2 (dedup_from_returns items []) N) as [kept E2].
  unfold deduplicateLineItems. rewrite E2. cbn [bind].
  destruct (collect_set_returns "confirmation_numbers" (fun c => c)
              (map ocr pages) [])
    as [a3 E3].
  { eapply Forall_impl; [|exact Wo]. intros o (_ & C & _). exact C. }
  rewrite E3. cbn [bind].
  destruct (collect_set_returns "cost_allocations" allocation_key
              (map ocr pages) [])
    as [a4 E4].
  { eapply Forall_impl; [|exact Wo]. intros o (_ & _ & C & _). exact C. }
  rewrite E4. cbn [bind]. eexists. reflexivity.
Qed.

Lemma createMergedInvoice_well_formed JSON_parse (pages : list page) :
  Forall (fun p => well_formed_lists (ocr p)) pages ->
  returns (createMergedInvoice JSON_parse pages).
Proof.
  intros W. unfold createMergedInvoice.
  destruct pages as [|p0 pages0]; [eexists; reflexivity|]. cbv zeta.
  assert (Ws : Forall (fun p => well_formed_lists (ocr p))
                 (sort by_source_page (p0 :: pages0))).
  { apply Forall_forall. intros p I. rewrite Forall_forall in W. apply W.
    eapply Permutation_in; [apply sort_with_perm|exact I]. }
  destruct (sort by_source_page (p0 :: pages0)) as [|q [|q' rest]].
  - apply multi_page_returns. constructor.
  - eexists. reflexivity.
  - apply multi_page_returns. exact Ws.
Qed.

(** The merged invoice is null exactly for the empty group. *)
Lemma merged_invoice_null_iff_no_page JSON_parse (pages : list page) :
  createMergedInvoice JSON_parse pages = Ret VNull <-> pages = [].
Proof.
  split; [|intros ->; reflexivity].
  intros H. destruct pages as [|p pages]; [reflexivity|]. exfalso.
  apply createMergedInvoice_cases in H as [(q & _ & _ & E) | [_ M]];
    [discriminate E| |discriminate].
  unfold multi_page in M.
  apply bind_ret in M as (a1 & _ & M).
  apply bind_ret in M as (a2 & _ & M).
  apply bind_ret in M as (a3 & _ & M).
  apply bind_ret in M as (a4 & _ & M). discriminate M.
Qed.

(** X11. The merged invoice counts its pages: [merge_info.page_count] is the
    number of pages of the group, [was_merged] tells whether there is more
    than one, and [source_pages], [all_source_rows] and
    [all_source_file_ids] have one entry for each page, the last two in page
    order. *)
Theorem merged_invoice_counts_its_pages JSON_parse (pages : list page)
    (doc : value) :
  pages <> [] ->
  createMergedInvoice JSON_parse pages = Ret doc ->
  let ordered := sort by_source_page pages in
  let info := own_prop doc "merge_info" in
  own_prop info "page_count" = num (Z.of_nat (List.length pages))
  /\ own_prop info "was_merged" = VBool (1 <? List.length pages)%nat
  /\ (exists sourcePages,
         own_prop info "source_pages" = VArr sourcePages
         /\ List.length sourcePages = List.length pages)
  /\ own_prop doc "all_source_rows"
     = VArr (map (fun p => lookup "Number" (row p)) ordered)
  /\ own_prop doc "all_source_file_ids"
     = VArr (map (fun p => lookup "File ID" (row p)) ordered).
Proof.
  intros Ne H. cbv zeta.
  apply createMergedInvoice_cases in H as [(p & E & L & ->) | [L M]];
    [| |exact Ne].
  - rewrite E, L. unfold single_page. cbn [own_prop].
    rewrite !lookup_set_prop. cbn.
    split; [reflexivity|]. split; [reflexivity|].
    split; [eexists; split; reflexivity|]. split; reflexivity.
  - pose proof (sort_with_length
                  (fun a b : page => gt (by_source_page a b) (VNum 0%Q)) pages)
      as Ls.
    fold (sort by_source_page) in Ls.
    destruct (multi_page_bookkeeping _ _ _ M) as (Ei & Er & Ef & _).
    rewrite Ei, Er, Ef, !map_map, Ls. cbn [own_prop lookup String.eqb].
    split; [reflexivity|]. split.
    + destruct (List.length pages) as [|[|n]]; [lia|lia|reflexivity].
    + split; [|split; reflexivity].
      eexists. split; [reflexivity|].
      unfold sort. rewrite sort_with_length, length_map. exact Ls.
Qed.

(** X12. The line items of a merged invoice of several pages: no two have the
    same key, and every line item of every page has its key among them. *)
Theorem merged_line_items_are_distinct JSON_parse (pages : list page)
    (doc : value) :
  (2 <= List.length pages)%nat ->
  createMergedInvoice JSON_parse pages = Ret doc ->
  exists kept,
    own_prop doc "line_items" = VArr kept
    /\ NoDup (map key_of kept)
    /\ forall p x, In p pages -> In x (page_items (ocr p)) ->
                   In (key_of x) (map key_of kept).
Proof.
  intros L H.
  apply createMergedInvoice_cases in H as [(p & _ & L1 & _) | [_ M]];
    [lia| |intros ->; cbn in L; lia].
  destruct (multi_page_bookkeeping _ _ _ M)
    as (_ & _ & _ & items & D & C & kept & Ek).
  rewrite Ek in D. exists kept. split; [exact Ek|].
  destruct (dedup_from_spec _ _ _ D) as (_ & Nd & _ & Cov & _).
  split; [exact Nd|]. intros p x Ip Ix.
  destruct (collect_line_items_covers _ _ _ C) as [_ Inc].
  assert (Is : In (ocr p) (map ocr (sort by_source_page pages))).
  { apply in_map. eapply Permutation_in; [|exact Ip].
    apply Permutation_sym. unfold sort. apply sort_with_perm. }
  destruct (Cov x (Inc _ Is x Ix)) as [[] | Ik]. exact Ik.
Qed.


End MergedInvoiceFacts.

(* ===================================================================== *)
(** * The rows written by the OCR post-processing script *)
(* ===================================================================== *)

Module PostProcessFacts.
Import Assembler AssemblerVocabulary Reconciler PostProcess PostProcessVocabulary.
Import LineItemVocabulary Basics PartitionFacts ReconcilerFacts MergedInvoiceFacts.

Lemma same_string (k : value) (s : string) :
  same_value_zero k (VStr s) = true <-> k = VStr s.
Proof.
  split.
  - destruct k; cbn; intros H; try discriminate.
    apply String.eqb_eq in H. subst. reflexivity.
  - intros ->. cbn. apply String.eqb_refl.
Qed.

Lemma map_get_set (k k' : string) (v : value) (m : row_map) :
  map_get (VStr k) (map_set (VStr k') v m)
  = if k' =? k then v else map_get (VStr k) m.
Proof.
  induction m as [|[k0 v0] m IH]; cbn [map_set map_get].
  - cbn. destruct (k' =? k); reflexivity.
  - destruct (same_value_zero k0 (VStr k')) eqn:E'.
    + apply same_string in E'. subst k0. cbn.
      destruct (k' =? k); reflexivity.
    + cbn [map_get]. rewrite IH.
      destruct (same_value_zero k0 (VStr k)) eqn:E; [|reflexivity].
      apply same_string in E. subst k0. cbn in E'.
      rewrite String.eqb_sym, E'. reflexivity.
Qed.

Lemma nodup_app_disjoint {A} (l l' : list A) (a : A) :
  NoDup (l ++ l') -> In a l -> In a l' -> False.
Proof.
  induction l as [|x l IH]; cbn; intros N I I'; [exact I|].
  inversion N as [|? ? Nx Nl]; subst. destruct I as [-> | I].
  - apply Nx. apply in_or_app. right. exact I'.
  - exact (IH Nl I I').
Qed.

(** What one group leaves in the map. *)
Lemma record_pages_get (doc : value) (k : string) (group : list page) :
  forall m,
    Forall numbered group ->
    map_get (VStr k)
      (fold_left (fun m page => map_set (number page) doc m) group m)
    = if existsb (fun p => strict_eq (number p) (VStr k)) group
      then doc else map_get (VStr k) m.
Proof.
  induction group as [|p group IH]; intros m F; [reflexivity|].
  inversion F as [|? ? [n En] F']; subst. cbn [fold_left existsb].
  rewrite (IH _ F'), En, map_get_set. cbn [strict_eq].
  destruct (existsb _ group); [destruct (n =? k); reflexivity|].
  destruct (n =? k); reflexivity.
Qed.

Lemma number_found (k : string) (group : list page) :
  existsb (fun p => strict_eq (number p) (VStr k)) group = true
  <-> In (VStr k) (map number group).
Proof.
  rewrite existsb_exists, in_map_iff. split.
  - intros (p & I & E). exists p. split; [|exact I].
    destruct (number p); cbn in E; try discriminate.
    apply String.eqb_eq in E. subst. reflexivity.
  - intros (p & E & I). exists p. split; [exact I|]. rewrite E. cbn.
    apply String.eqb_refl.
Qed.

Lemma record_groups_get JSON_parse (groups : list (list page)) : forall m m',
  record_groups JSON_parse groups m = Ret m' ->
  Forall numbered (List.concat groups) ->
  NoDup (map number (List.concat groups)) ->
  (forall g p, In g groups -> In p g ->
     exists doc, createMergedInvoice JSON_parse g = Ret doc
                 /\ map_get (number p) m' = doc)
  /\ (forall k, ~ In (VStr k) (map number (List.concat groups)) ->
                map_get (VStr k) m' = map_get (VStr k) m).
Proof.
  induction groups as [|g groups IH]; cbn [record_groups List.concat];
    intros m m' H F N.
  - injection H as <-. split; [intros g p []|reflexivity].
  - apply bind_ret in H as (m1 & H1 & H). unfold record_group in H1.
    apply bind_ret in H1 as (doc & Ed & H1). injection H1 as <-.
    apply Forall_app in F as [Fg Fr].
    rewrite map_app in N.
    pose proof (NoDup_app_remove_l _ _ N) as Nr.
    destruct (IH _ _ H Fr Nr) as [Later Other]. split.
    + intros g' p [E | Ig] Ip; [subst g'|exact (Later g' p Ig Ip)].
      exists doc. split; [exact Ed|].
      destruct (proj1 (Forall_forall _ _) Fg p Ip) as [n En].
      assert (X : existsb (fun q => strict_eq (number q) (VStr n)) g = true).
      { apply number_found. rewrite <- En. apply in_map. exact Ip. }
      rewrite En, Other.
      * fold number. rewrite (record_pages_get doc n _ _ Fg), X. reflexivity.
      * intros I. rewrite <- En in I.
        apply (nodup_app_disjoint _ _ (number p) N);
          [apply in_map; exact Ip|exact I].
    + intros k Nk. rewrite Other.
      * fold number. rewrite (record_pages_get doc k _ _ Fg).
        destruct (existsb _ g) eqn:X; [|reflexivity].
        exfalso. apply Nk. rewrite map_app. apply in_or_app. left.
        apply number_found. exact X.
      * intros I. apply Nk. rewrite map_app. apply in_or_app. right. exact I.
Qed.

(** The groups, read one after the other, are the parsed pages in another
    order. *)
Lemma processInvoices_pages parseOCR rows groups :
  processInvoices parseOCR rows = Ret groups ->
  Permutation (List.concat groups) (pagesWithOcr parseOCR rows).
Proof.
  unfold processInvoices. intros H.
  apply bind_ret in H as (st & L & H). injection H as <-.
  apply loop_partition in L as [P _].
  destruct (finish_partition st) as [C _].
  rewrite C, P. cbn. unfold sort. apply sort_with_perm.
Qed.

(** X14. Every page of a group is given the merged invoice of its group: where
    the rows whose OCR text parsed have distinct numbers, all of them
    strings, the row of each page gets in its [postProcessOCR] column the
    serialised merged invoice of the group the page is in. *)
Theorem pages_carry_the_invoice_of_their_group
    parseOCR JSON_parse (rows : list (list (string * value)))
    (groups : list (list page)) (m : row_map) :
  Forall numbered (pagesWithOcr parseOCR rows) ->
  NoDup (map number (pagesWithOcr parseOCR rows)) ->
  processInvoices parseOCR rows = Ret groups ->
  record_groups JSON_parse groups [] = Ret m ->
  forall g p, In g groups -> In p g ->
    exists doc,
      createMergedInvoice JSON_parse g = Ret doc
      /\ lookup "postProcessOCR" (updated_row m (row p)) = text_of doc.
Proof.
  intros F N H R g p Ig Ip.
  pose proof (processInvoices_pages _ _ _ H) as P.
  assert (F' : Forall numbered (List.concat groups)).
  { apply Forall_forall. intros q I. rewrite Forall_forall in F. apply F.
    exact (Permutation_in _ P I). }
  assert (N' : NoDup (map number (List.concat groups))).
  { eapply Permutation_NoDup; [|exact N].
    apply Permutation_sym, Permutation_map, P. }
  destruct (record_groups_get _ _ _ _ R F' N') as [G _].
  destruct (G g p Ig Ip) as (doc & Ed & Eg).
  exists doc. split; [exact Ed|].
  unfold updated_row. rewrite lookup_set_prop, String.eqb_refl.
  fold (number p). rewrite Eg. reflexivity.
Qed.

Lemma record_groups_returns JSON_parse (groups : list (list page)) : forall m,
  Forall well_formed_page (List.concat groups) ->
  returns (record_groups JSON_parse groups m).
Proof.
  induction groups as [|g groups IH]; cbn [record_groups List.concat];
    intros m W.
  - eexists. reflexivity.
  - apply Forall_app in W as [Wg Wr]. unfold record_group.
    destruct (createMergedInvoice_well_formed JSON_parse g) as [doc E].
    { eapply Forall_impl; [|exact Wg]. intros p [_ L]. exact L. }
    rewrite E. cbn [bind]. apply IH. exact Wr.
Qed.


End PostProcessFacts.


(* ===================================================================== *)
(** * Reading back what the CSV writer wrote *)
(* ===================================================================== *)

Module CsvFacts.
Import Csv CsvVocabulary Basics.

(** ** Strings *)

Lemma append_empty (s : string) : s ++ "" = s.
Proof. induction s as [|c s IH]; cbn; [reflexivity|]. rewrite IH. reflexivity. Qed.

Lemma append_assoc (a b c : string) : (a ++ b) ++ c = a ++ (b ++ c).
Proof. induction a as [|x a IH]; cbn; [reflexivity|]. rewrite IH. reflexivity. Qed.

Lemma prefix_char (c a : ascii) (r : string) :
  String.prefix (String c "") (String a r) = Ascii.eqb a c.
Proof.
  change (String.prefix (String c "") (String a r))
    with (if ascii_dec c a then String.prefix "" r else false).
  destruct (ascii_dec c a) as [E|N].
  - subst a. rewrite Ascii.eqb_refl. destruct r; reflexivity.
  - symmetry. apply Ascii.eqb_neq. congruence.
Qed.

Lemma includes_char (c a : ascii) (r : string) :
  includes (String c "") (String a r)
  = Ascii.eqb a c || includes (String c "") r.
Proof.
  change (includes (String c "") (String a r))
    with (String.prefix (String c "") (String a r)
          || includes (String c "") r).
  rewrite prefix_char. reflexivity.
Qed.

Lemma needs_quotes_plain (s : string) :
  needs_quotes s = false -> all_plain s = true.
Proof.
  unfold needs_quotes. induction s as [|a r IH]; [reflexivity|].
  change "," with (String ","%char ""). rewrite !includes_char.
  intros H.
  apply orb_false_iff in H as [H H4]. apply orb_false_iff in H as [H H3].
  apply orb_false_iff in H as [H1 H2].
  apply orb_false_iff in H1 as [E1 I1]. apply orb_false_iff in H2 as [E2 I2].
  apply orb_false_iff in H3 as [E3 I3]. apply orb_false_iff in H4 as [E4 I4].
  cbn [all_plain]. unfold plain. rewrite E1, E2, E3, E4. cbn [negb andb].
  apply IH. change "," with (String ","%char ""). rewrite I1, I2, I3, I4.
  reflexivity.
Qed.

Lemma concat_sep_fold (sep : string) (l : list string) (a b : string) :
  fold_left (fun acc x => acc ++ sep ++ x) l (a ++ b)
  = a ++ fold_left (fun acc x => acc ++ sep ++ x) l b.
Proof.
  revert b. induction l as [|x l IH]; intros b; cbn; [reflexivity|].
  rewrite append_assoc. apply IH.
Qed.

Lemma concat_sep_cons (sep x y : string) (l : list string) :
  concat_sep sep (x :: y :: l) = x ++ sep ++ concat_sep sep (y :: l).
Proof.
  cbn [concat_sep fold_left]. rewrite !concat_sep_fold. reflexivity.
Qed.

(** ** One cell *)

Lemma escapeCSVField_escaped (v : value) :
  escapeCSVField v = escaped (field_text v).
Proof. destruct v; reflexivity. Qed.

Lemma add_text_empty (st : scanner) : add_text "" st = st.
Proof. destruct st. unfold add_text. cbn. rewrite append_empty. reflexivity. Qed.

Lemma add_text_extend (c : ascii) (s : string) (st : scanner) :
  add_text s (extend c st) = add_text (String c s) st.
Proof.
  unfold add_text, extend. cbn. rewrite append_assoc. reflexivity.
Qed.

Lemma scan_plain (s rest : string) : forall st,
  all_plain s = true ->
  scan (s ++ rest) st = scan rest (add_text s st).
Proof.
  induction s as [|c s IH]; intros st P.
  - rewrite add_text_empty. reflexivity.
  - cbn [all_plain] in P. apply andb_true_iff in P as [Pc Ps].
    unfold plain in Pc.
    repeat (apply andb_true_iff in Pc as [Pc ?]).
    repeat match goal with
           | H : negb _ = true |- _ => apply negb_true_iff in H
           end.
    cbn [append scan]. rewrite Pc, H, H0, H1. cbn [andb orb].
    rewrite (IH _ Ps), add_text_extend. reflexivity.
Qed.

Lemma scan_quoted (s rest : string) : forall st,
  inQuotes st = true -> after_field rest ->
  scan (double_quotes s ++ String double_quote rest) st
  = scan rest (toggle (add_text s st)).
Proof.
  induction s as [|c s IH]; intros st Q A.
  - rewrite add_text_empty. cbn [double_quotes append scan].
    rewrite Ascii.eqb_refl.
    destruct rest as [|n rest']; [reflexivity|].
    destruct A as [-> | ->]; rewrite andb_false_r; reflexivity.
  - cbn [double_quotes].
    destruct (Ascii.eqb c double_quote) eqn:E.
    + apply Ascii.eqb_eq in E. subst c.
      cbn [append scan]. rewrite Ascii.eqb_refl, Q. cbn [andb].
      rewrite (IH (extend double_quote st) Q A), add_text_extend.
      reflexivity.
    + cbn [append scan]. rewrite E, Q. cbn [negb]. rewrite !andb_false_r.
      rewrite (IH (extend c st) Q A), add_text_extend. reflexivity.
Qed.

Lemma scan_field (v : value) (rest : string) (st : scanner) :
  inQuotes st = false -> after_field rest ->
  scan (escapeCSVField v ++ rest) st = scan rest (add_text (field_text v) st).
Proof.
  intros Q A. rewrite escapeCSVField_escaped. unfold escaped.
  destruct (needs_quotes (field_text v)) eqn:N.
  - cbn [append]. rewrite append_assoc. cbn [append].
    assert (Open : forall text,
               scan (String double_quote text) st = scan text (toggle st)).
    { intros text. cbn [scan]. rewrite Ascii.eqb_refl, Q. cbn [andb].
      destruct text; reflexivity. }
    rewrite Open, (scan_quoted _ _ (toggle st)); [|cbn; rewrite Q; reflexivity|exact A].
    f_equal. destruct st. unfold toggle, add_text. cbn in *. subst.
    reflexivity.
  - apply scan_plain, needs_quotes_plain, N.
Qed.

(** ** One line *)

Lemma scan_line (cells : list value) : forall rest st,
  cells <> [] -> inQuotes st = false -> current st = "" ->
  after_line rest ->
  scan (csv_line cells ++ rest) st = scan rest (after_cells cells st).
Proof.
  induction cells as [|v cells IH]; intros rest st Ne Q C A; [congruence|].
  destruct cells as [|w cells].
  - unfold csv_line. cbn [map concat_sep fold_left].
    rewrite scan_field; [|exact Q|destruct rest; [exact I|right; exact A]].
    f_equal. destruct st. unfold add_text, after_cells. cbn in *. subst.
    rewrite app_nil_r. reflexivity.
  - unfold csv_line. cbn [map]. rewrite concat_sep_cons, !append_assoc.
    rewrite scan_field; [|exact Q|left; reflexivity].
    change ("," ++ concat_sep "," (escapeCSVField w :: map escapeCSVField cells)
            ++ rest)
      with (String ","%char (csv_line (w :: cells) ++ rest)).
    cbn [scan]. cbn [add_text inQuotes]. rewrite Q.
    change (Ascii.eqb ","%char double_quote) with false.
    change (Ascii.eqb ","%char ","%char) with true. cbn [andb negb].
    rewrite IH; [|discriminate|exact Q|reflexivity|exact A].
    f_equal. destruct st. unfold after_cells, end_field, add_text.
    cbn in *. subst. cbn. rewrite <- app_assoc. reflexivity.
Qed.

Lemma cells_again (cells : list value) :
  cells <> [] ->
  (map field_text (removelast cells) ++ [field_text (last cells VUndef)])%list
  = map field_text cells.
Proof.
  intros Ne. rewrite (app_removelast_last VUndef Ne) at 3.
  rewrite map_app. reflexivity.
Qed.

(** What a line adds to the rows found. *)
Lemma pushed_after_cells (cells : list value) (found : list (list string)) :
  cells <> [] ->
  pushed (after_cells cells (between_lines found))
  = (found ++ filter has_content [map field_text cells])%list.
Proof.
  intros Ne. unfold pushed, after_cells, between_lines.
  cbn [rows currentRow current app filter].
  rewrite (cells_again cells Ne).
  destruct (has_content (map field_text cells));
    [reflexivity|rewrite app_nil_r; reflexivity].
Qed.

(** ** The whole text *)

Lemma scan_table (table : list (list value)) : forall found,
  flush (scan (table_text table) (between_lines found))
  = (found ++ filter has_content (map (map field_text) table))%list.
Proof.
  induction table as [|cells table IH]; intros found.
  - cbn. rewrite app_nil_r. reflexivity.
  - destruct table as [|cells' table].
    + unfold table_text. cbn [map concat_sep fold_left].
      destruct cells as [|v cells].
      * cbn. rewrite app_nil_r. reflexivity.
      * rewrite <- (append_empty (csv_line (v :: cells))).
        rewrite scan_line; [|discriminate|reflexivity|reflexivity|exact I].
        cbn [scan]. rewrite <- pushed_after_cells by discriminate.
        unfold flush.
        destruct (negb (current (after_cells (v :: cells) (between_lines found))
                        =? "")
                  || (0 <? List.length
                             (currentRow (after_cells (v :: cells)
                                            (between_lines found))))%nat)
          eqn:K; [reflexivity|].
        apply orb_false_iff in K as [K1 K2].
        apply negb_false_iff, String.eqb_eq in K1.
        apply Nat.ltb_ge in K2. unfold pushed.
        destruct (currentRow (after_cells (v :: cells) (between_lines found)))
          as [|x l]; [|cbn in K2; lia].
        rewrite K1. reflexivity.
    + unfold table_text. cbn [map]. rewrite concat_sep_cons.
      fold (table_text (cells' :: table)).
      destruct cells as [|v cells].
      * cbn. exact (IH found).
      * rewrite scan_line; [|discriminate|reflexivity|reflexivity|reflexivity].
        cbn [append scan after_cells inQuotes].
        change (Ascii.eqb line_feed double_quote) with false.
        change (Ascii.eqb line_feed ","%char) with false.
        rewrite Ascii.eqb_refl. cbn [orb andb negb].
        change (end_row (after_cells (v :: cells) (between_lines found)))
          with (between_lines
                  (pushed (after_cells (v :: cells) (between_lines found)))).
        rewrite IH, pushed_after_cells by discriminate.
        rewrite <- app_assoc. f_equal. cbn [map filter app].
        destruct (has_content (field_text v :: map field_text cells));
          reflexivity.
Qed.

Lemma parse_rows_table (table : list (list value)) :
  parse_rows (table_text table)
  = filter has_content (map (map field_text) table).
Proof. exact (scan_table table []). Qed.

Lemma writeCSV_table (headers : list string) (data : list (list (string * value))) :
  writeCSV headers data = table_text (table_of headers data).
Proof.
  unfold writeCSV, table_text, table_of. cbn [map]. rewrite map_map.
  reflexivity.
Qed.


(** ** The objects *)

Lemma lookup_assign (k h : string) (v : value) (obj : list (string * value)) :
  h <> "__proto__" ->
  lookup k (assign h v obj) = if h =? k then v else lookup k obj.
Proof.
  intros N. unfold assign.
  destruct (String.eqb_spec h "__proto__") as [E|_]; [contradiction|].
  apply ReconcilerFacts.lookup_set_prop.
Qed.

Lemma fill_other (k : string) (cells : list string) (headers : list string) :
  forall i obj,
    ~ In "__proto__" headers -> ~ In k headers ->
    lookup k (fill headers i cells obj) = lookup k obj.
Proof.
  induction headers as [|h headers IH]; intros i obj P N; [reflexivity|].
  cbn [fill]. rewrite IH.
  - rewrite lookup_assign by (intros E; apply P; left; exact E).
    destruct (String.eqb_spec h k) as [E|_]; [|reflexivity].
    exfalso. apply N. left. exact E.
  - intros I. apply P. right. exact I.
  - intros I. apply N. right. exact I.
Qed.

Lemma fill_lookup (cells : list string) (headers : list string) :
  forall i obj j h,
    NoDup headers -> ~ In "__proto__" headers ->
    nth_error headers j = Some h ->
    lookup h (fill headers i cells obj) = VStr (nth (i + j) cells "").
Proof.
  induction headers as [|h0 headers IH]; intros i obj j h Nd P E.
  - destruct j; discriminate E.
  - inversion Nd as [|? ? N0 Nd']; subst. cbn [fill].
    destruct j as [|j]; cbn [nth_error] in E.
    + injection E as ->. rewrite fill_other.
      * rewrite lookup_assign by (intros E; apply P; left; exact E).
        rewrite String.eqb_refl, Nat.add_0_r. reflexivity.
      * intros I. apply P. right. exact I.
      * exact N0.
    + rewrite (IH (S i) _ j h Nd'); [|intros I; apply P; right; exact I|exact E].
      rewrite Nat.add_succ_r. reflexivity.
Qed.

Lemma row_cells_nth (headers : list string) (row : list (string * value))
    (j : nat) (h : string) :
  nth_error headers j = Some h ->
  nth j (row_cells headers row) "" = field_text (lookup h row).
Proof.
  revert j. induction headers as [|h0 headers IH]; intros [|j] E;
    try discriminate E; cbn in *.
  - injection E as ->. reflexivity.
  - exact (IH j E).
Qed.

Lemma fill_same_cells (headers : list string) (row : list (string * value)) :
  NoDup headers -> ~ In "__proto__" headers ->
  same_cells headers row (fill headers 0 (row_cells headers row) []).
Proof.
  intros Nd P h I. apply In_nth_error in I as [j E].
  rewrite (fill_lookup _ _ 0 [] j h Nd P E). cbn [Nat.add].
  rewrite (row_cells_nth _ _ _ _ E). reflexivity.
Qed.

Lemma read_back_objects (headers : list string)
    (data : list (list (string * value))) :
  NoDup headers -> ~ In "__proto__" headers ->
  Forall2 (same_cells headers)
    (filter (fun row => has_content (row_cells headers row)) data)
    (map (fun cells => fill headers 0 cells [])
         (filter has_content (map (row_cells headers) data))).
Proof.
  intros Nd P. induction data as [|row data IH]; cbn [map filter];
    [constructor|].
  destruct (has_content (row_cells headers row)); [|exact IH].
  cbn [map]. constructor; [|exact IH].
  exact (fill_same_cells headers row Nd P).
Qed.


End CsvFacts.

(* ===================================================================== *)
(** * Properties of the string operations *)
(* ===================================================================== *)

Module StringFacts.
Import Basics StringVocabulary.

Ltac by_cases_on_char c :=
  destruct c as [[] [] [] [] [] [] [] []]; reflexivity.

Lemma upper_lower_char (c : ascii) : upper_char (lower_char c) = upper_char c.
Proof. by_cases_on_char c. Qed.

Lemma lower_upper_char (c : ascii) : lower_char (upper_char c) = lower_char c.
Proof. by_cases_on_char c. Qed.

Lemma upper_upper_char (c : ascii) : upper_char (upper_char c) = upper_char c.
Proof. by_cases_on_char c. Qed.

Lemma space_lower_char (c : ascii) : is_space (lower_char c) = is_space c.
Proof. by_cases_on_char c. Qed.

Lemma space_upper_char (c : ascii) : is_space (upper_char c) = is_space c.
Proof. by_cases_on_char c. Qed.

Lemma zero_lower_char (c : ascii) :
  Ascii.eqb (lower_char c) "0"%char = Ascii.eqb c "0"%char.
Proof. by_cases_on_char c. Qed.

Lemma zero_upper_char (c : ascii) :
  Ascii.eqb (upper_char c) "0"%char = Ascii.eqb c "0"%char.
Proof. by_cases_on_char c. Qed.

Lemma digit_not_space (c : ascii) : is_digit c = true -> is_space c = false.
Proof. destruct c as [[] [] [] [] [] [] [] []]; vm_compute; congruence. Qed.

Lemma list_of_map_string (f : ascii -> ascii) (s : string) :
  list_ascii_of_string (map_string f s) = map f (list_ascii_of_string s).
Proof. induction s as [|c s IH]; cbn; [reflexivity|]. rewrite IH. reflexivity. Qed.

Lemma string_of_map (f : ascii -> ascii) (l : list ascii) :
  string_of_list_ascii (map f l) = map_string f (string_of_list_ascii l).
Proof. induction l as [|c l IH]; cbn; [reflexivity|]. rewrite IH. reflexivity. Qed.

Lemma map_string_map_string (f g : ascii -> ascii) (s : string) :
  map_string f (map_string g s) = map_string (fun c => f (g c)) s.
Proof. induction s as [|c s IH]; cbn; [reflexivity|]. rewrite IH. reflexivity. Qed.

Lemma map_string_ext (f g : ascii -> ascii) (s : string) :
  (forall c, f c = g c) -> map_string f s = map_string g s.
Proof.
  intros E. induction s as [|c s IH]; cbn; [reflexivity|].
  rewrite E, IH. reflexivity.
Qed.

Lemma drop_while_map (p : ascii -> bool) (f : ascii -> ascii) (l : list ascii) :
  (forall c, p (f c) = p c) ->
  drop_while p (map f l) = map f (drop_while p l).
Proof.
  intros E. induction l as [|c l IH]; cbn; [reflexivity|].
  rewrite E. destruct (p c); [exact IH|reflexivity].
Qed.

Lemma drop_while_idempotent (p : ascii -> bool) (l : list ascii) :
  drop_while p (drop_while p l) = drop_while p l.
Proof.
  induction l as [|c l IH]; cbn; [reflexivity|].
  destruct (p c) eqn:E; [exact IH|]. cbn. rewrite E. reflexivity.
Qed.

Lemma drop_while_suffix (p : ascii -> bool) (l : list ascii) :
  exists w, l = (w ++ drop_while p l)%list.
Proof.
  induction l as [|c l [w IH]]; cbn; [exists []; reflexivity|].
  destruct (p c); [|exists []; reflexivity].
  exists (c :: w). cbn. rewrite <- IH. reflexivity.
Qed.

Lemma drop_while_head (p : ascii -> bool) (l : list ascii) :
  match drop_while p l with
  | [] => True
  | c :: _ => p c = false
  end.
Proof.
  induction l as [|c l IH]; cbn; [exact I|].
  destruct (p c) eqn:E; [exact IH|exact E].
Qed.

Lemma trim_trimmed (s : string) :
  trim s = string_of_list_ascii (trimmed (list_ascii_of_string s)).
Proof. reflexivity. Qed.

Lemma trimmed_fixed (l : list ascii) :
  drop_while is_space (trimmed l) = trimmed l
  /\ drop_while is_space (rev (trimmed l)) = rev (trimmed l).
Proof.
  unfold trimmed. set (t := drop_while is_space l).
  set (u := drop_while is_space (rev t)). split.
  - destruct (drop_while_suffix is_space (rev t)) as [w E]. fold u in E.
    assert (Et : t = (rev u ++ rev w)%list).
    { rewrite <- rev_app_distr, <- E, rev_involutive. reflexivity. }
    pose proof (drop_while_head is_space l) as H. fold t in H.
    destruct (rev u) as [|c r]; [reflexivity|].
    rewrite Et in H. cbn in H. cbn. rewrite H. reflexivity.
  - rewrite rev_involutive. apply drop_while_idempotent.
Qed.

Lemma trimmed_idempotent (l : list ascii) : trimmed (trimmed l) = trimmed l.
Proof.
  destruct (trimmed_fixed l) as [A B].
  unfold trimmed at 1. rewrite A, B. apply rev_involutive.
Qed.

Lemma trim_idempotent (s : string) : trim (trim s) = trim s.
Proof.
  rewrite !trim_trimmed, list_ascii_of_string_of_list_ascii, trimmed_idempotent.
  reflexivity.
Qed.

Lemma trim_no_space (s : string) :
  forallb (fun c => negb (is_space c)) (list_ascii_of_string s) = true ->
  trim s = s.
Proof.
  intros N. unfold trim.
  rewrite (drop_while_none _ _ N).
  rewrite drop_while_none by (rewrite forallb_rev; exact N).
  rewrite rev_involutive. apply string_of_list_ascii_of_string.
Qed.

Lemma trim_map_string (f : ascii -> ascii) (s : string) :
  (forall c, is_space (f c) = is_space c) ->
  trim (map_string f s) = map_string f (trim s).
Proof.
  intros E. unfold trim.
  rewrite list_of_map_string, (drop_while_map _ _ _ E), <- map_rev,
    (drop_while_map _ _ _ E), <- map_rev, string_of_map.
  reflexivity.
Qed.

Lemma strip_leading_zeros_map (f : ascii -> ascii) (s : string) :
  (forall c, Ascii.eqb (f c) "0"%char = Ascii.eqb c "0"%char) ->
  strip_leading_zeros (map_string f s) = map_string f (strip_leading_zeros s).
Proof.
  intros E. unfold strip_leading_zeros.
  rewrite list_of_map_string,
    (drop_while_map (fun c => Ascii.eqb c "0"%char) f _ E), string_of_map.
  reflexivity.
Qed.

Lemma toUpperCase_toLowerCase (s : string) :
  toUpperCase (toLowerCase s) = toUpperCase s.
Proof.
  unfold toUpperCase, toLowerCase. rewrite map_string_map_string.
  apply map_string_ext, upper_lower_char.
Qed.

Lemma toLowerCase_toUpperCase (s : string) :
  toLowerCase (toUpperCase s) = toLowerCase s.
Proof.
  unfold toUpperCase, toLowerCase. rewrite map_string_map_string.
  apply map_string_ext, lower_upper_char.
Qed.

Lemma map_string_empty (f : ascii -> ascii) (s : string) :
  (map_string f s =? "") = (s =? "").
Proof. destruct s; reflexivity. Qed.

End StringFacts.

(* ===================================================================== *)
(** * Properties of the normalisers *)
(* ===================================================================== *)

Module NormalizerFacts.
Import Assembler Matcher Basics StringVocabulary StringFacts.

(** ** Dates *)

Lemma span_digits_digits (l : list ascii) :
  all_digits (fst (span_digits l)) = true.
Proof.
  induction l as [|c l IH]; cbn; [reflexivity|].
  destruct (is_digit c) eqn:D; [|reflexivity].
  destruct (span_digits l) as [ds tl]. cbn in *. rewrite D. exact IH.
Qed.

Lemma split_at_slash_digits (l ds : list ascii) (r : option (list ascii)) :
  split_at_slash l = (ds, r) -> all_digits ds = true.
Proof.
  unfold split_at_slash. pose proof (span_digits_digits l) as D.
  destruct (span_digits l) as [ds' rest]. cbn in D.
  destruct rest as [|c tl]; [|destruct (Ascii.eqb c "/"%char)];
    intros E; injection E as <- _; exact D.
Qed.

Lemma all_digits_no_space (l : list ascii) :
  all_digits l = true -> forallb (fun c => negb (is_space c)) l = true.
Proof.
  induction l as [|c l IH]; cbn [all_digits forallb]; [reflexivity|].
  intros H. apply andb_true_iff in H as [D H].
  rewrite (digit_not_space c D), (IH H). reflexivity.
Qed.

Lemma iso_date_no_space (s : string) : iso_date s = true -> no_space s = true.
Proof.
  unfold iso_date, no_space.
  destruct (list_ascii_of_string s)
    as [|y1 [|y2 [|y3 [|y4 [|d1 [|m1 [|m2 [|d2 [|a1 [|a2 [|x l]]]]]]]]]]];
    try discriminate.
  intros H. apply andb_true_iff in H as [H D2].
  apply andb_true_iff in H as [H D1].
  apply Ascii.eqb_eq in D1, D2. subst d1 d2.
  apply all_digits_no_space in H. rewrite forallb_forall in H.
  apply forallb_forall. intros x Ix. cbn [In] in Ix.
  decompose [or] Ix; subst; try reflexivity; try contradiction;
    apply H; cbn; auto 10.
Qed.

Lemma iso_date_fixed (s : string) :
  iso_date s = true -> normalizeDate (VStr s) = s.
Proof.
  intros I. unfold normalizeDate. cbn [truthy to_string].
  destruct s as [|c s]; [discriminate I|]. cbn [String.eqb negb].
  rewrite (trim_no_space _ (iso_date_no_space _ I)), I. reflexivity.
Qed.

Lemma us_date_gives_iso (s m d y : string) :
  us_date s = Some (m, d, y) ->
  iso_date (y ++ "-" ++ padStart2 m ++ "-" ++ padStart2 d) = true.
Proof.
  unfold us_date.
  destruct (split_at_slash (list_ascii_of_string s)) as [lm [r1|]] eqn:E1;
    [|discriminate].
  destruct (split_at_slash r1) as [ld [ly|]] eqn:E2; [|discriminate].
  apply split_at_slash_digits in E1, E2.
  destruct (one_or_two lm) eqn:Om; [|discriminate].
  destruct (one_or_two ld) eqn:Od; [|discriminate].
  destruct ly as [|y1 [|y2 [|y3 [|y4 [|y5 ly]]]]]; try discriminate.
  cbn [List.length Nat.eqb andb].
  destruct (all_digits [y1; y2; y3; y4]) eqn:Dy; [|discriminate].
  intros H. injection H as <- <- <-.
  cbn [all_digits] in Dy.
  repeat (apply andb_true_iff in Dy as [? Dy]).
  destruct lm as [|m1 [|m2 [|m3 lm]]]; try discriminate Om;
    destruct ld as [|d1 [|d2 [|d3 ld]]]; try discriminate Od;
    cbn [all_digits] in E1, E2;
    repeat match goal with
           | D : _ && _ = true |- _ => apply andb_true_iff in D as [? ?]
           end;
    cbn -[is_digit]; unfold iso_date; cbn -[is_digit];
    repeat match goal with
           | D : is_digit _ = true |- _ => rewrite D; clear D
           end; reflexivity.
Qed.

Lemma normalizeDate_trimmed (v : value) :
  trim (normalizeDate v) = normalizeDate v.
Proof.
  unfold normalizeDate. destruct (truthy v); cbn [negb]; [|reflexivity].
  destruct (iso_date (trim (to_string v))) eqn:I; [apply trim_idempotent|].
  destruct (us_date (trim (to_string v))) as [[[m d] y]|] eqn:U;
    [|apply trim_idempotent].
  apply trim_no_space, iso_date_no_space. exact (us_date_gives_iso _ _ _ _ U).
Qed.

Lemma normalizeDate_again (v : value) :
  normalizeDate (VStr (normalizeDate v)) = normalizeDate v.
Proof.
  unfold normalizeDate at 2 3. destruct (truthy v); cbn [negb]; [|reflexivity].
  destruct (iso_date (trim (to_string v))) eqn:I; [exact (iso_date_fixed _ I)|].
  destruct (us_date (trim (to_string v))) as [[[m d] y]|] eqn:U.
  - apply iso_date_fixed. exact (us_date_gives_iso _ _ _ _ U).
  - unfold normalizeDate. cbn [truthy to_string].
    destruct (String.eqb_spec (trim (to_string v)) "") as [E|N];
      cbn [negb]; [symmetry; exact E|].
    rewrite trim_idempotent, I, U. reflexivity.
Qed.

(** ** Invoice numbers *)

Lemma normalizeInvoiceNumber_string (s : string) :
  normalizeInvoiceNumber (VStr s) = toUpperCase (strip_leading_zeros (trim s)).
Proof.
  unfold normalizeInvoiceNumber. cbn [truthy to_string].
  destruct s; reflexivity.
Qed.

Lemma prefix_zero (c : ascii) (s : string) :
  String.prefix "0" (String c s) = Ascii.eqb c "0"%char.
Proof.
  change (String.prefix "0" (String c s))
    with (if ascii_dec "0"%char c then String.prefix "" s else false).
  destruct (ascii_dec "0"%char c) as [E|N].
  - subst c. destruct s; reflexivity.
  - symmetry. apply Ascii.eqb_neq. congruence.
Qed.

Lemma strip_leading_zeros_head (s : string) :
  String.prefix "0" (strip_leading_zeros s) = false.
Proof.
  unfold strip_leading_zeros.
  pose proof (drop_while_head (fun c => Ascii.eqb c "0"%char)
                (list_ascii_of_string s)) as H.
  destruct (drop_while _ (list_ascii_of_string s)) as [|c l]; [reflexivity|].
  cbn [string_of_list_ascii]. rewrite prefix_zero. exact H.
Qed.

Lemma prefix_zero_upper (s : string) :
  String.prefix "0" (toUpperCase s) = String.prefix "0" s.
Proof.
  destruct s as [|c s]; [reflexivity|].
  unfold toUpperCase. cbn [map_string].
  rewrite !prefix_zero. apply zero_upper_char.
Qed.

(** ** Vendors of the ledger matcher *)

Lemma assoc_in (k : string) (table : list (string * string)) (v : string) :
  assoc k table = Some v -> In v (map snd table).
Proof.
  induction table as [|[k' v'] table IH]; cbn; [discriminate|].
  destruct (k' =? k); [intros H; injection H as <-; left; reflexivity|].
  intros H. right. exact (IH H).
Qed.

(** Every name the table maps to is left as it is. *)
Lemma ledger_names_fixed :
  Forall (fun v => normalizeVendorForLedgerMatch (VStr v) = Ret (VStr v))
         (map snd VENDOR_MAPPINGS).
Proof. repeat (constructor; [vm_compute; reflexivity|]). constructor. Qed.

(** ** Vendors of the assembler *)

Lemma normalizeVendorName_string (s : string) :
  normalizeVendorName (VStr s)
  = Ret (let normalized := trim (toLowerCase s) in
         if includes "extended stay" normalized
            || includes "esa management" normalized
            || includes "esa suites" normalized
         then "esa" else normalized).
Proof.
  unfold normalizeVendorName. cbn [truthy].
  destruct s as [|c s]; [reflexivity|]. cbn [String.eqb negb].
  cbv zeta. destruct (_ || _); reflexivity.
Qed.

(** X18. [normalizeDate] is idempotent: a normalised date normalises to
    itself. *)
Theorem normalizeDate_idempotent (v : value) :
  normalizeDate (VStr (normalizeDate v)) = normalizeDate v.
Proof. exact (normalizeDate_again v). Qed.

(** X19. A date whose trimmed text is an ISO date or has the US form m/d/yyyy
    (one or two digits for the month and the day) normalises to an ISO
    date. *)
Theorem normalizeDate_reads_both_forms (v : value) :
  truthy v = true ->
  iso_date (trim (to_string v)) = true \/ us_date (trim (to_string v)) <> None ->
  iso_date (normalizeDate v) = true.
Proof.
  intros T H. unfold normalizeDate. rewrite T. cbn [negb].
  destruct (iso_date (trim (to_string v))) eqn:I; [exact I|].
  destruct H as [H | H]; [discriminate H|].
  destruct (us_date (trim (to_string v))) as [[[m d] y]|] eqn:U;
    [|congruence].
  exact (us_date_gives_iso _ _ _ _ U).
Qed.


(** X21. The vendor mapping of the matcher is idempotent on names: a name it
    returns is returned as it is. *)
Theorem normalizeVendorForLedgerMatch_idempotent (v : value) (r : string) :
  normalizeVendorForLedgerMatch v = Ret (VStr r) ->
  normalizeVendorForLedgerMatch (VStr r) = Ret (VStr r).
Proof.
  intros H. pose proof H as H0. unfold normalizeVendorForLedgerMatch in H.
  destruct (truthy v) eqn:T; cbn [negb] in H;
    [|injection H as <-; reflexivity].
  destruct v as [| |b|q| |s|its|props]; try discriminate H.
  injection H as H. unfold mapping_lookup, or_else in H.
  destruct (assoc (trim (toLowerCase s)) VENDOR_MAPPINGS) as [c|] eqn:A.
  - destruct (truthy (VStr c)); injection H as <-; [|exact H0].
    pose proof ledger_names_fixed as F. rewrite Forall_forall in F.
    exact (F c (assoc_in _ _ _ A)).
  - destruct ((_ =? "constructor") || (_ =? "__proto__"));
      cbn [truthy] in H; [discriminate H|]. injection H as <-. exact H0.
Qed.


End NormalizerFacts.

(* ===================================================================== *)
(** * What the matcher accounts for *)
(* ===================================================================== *)

Module MatchAccounting.
Import Matcher Vocabulary MatchVocabulary Basics MatcherFacts OneToOneFacts.

Lemma get_own (v : value) (k : string) (a : value) :
  get v k = Ret a -> a = own_prop v k.
Proof.
  destruct v; cbn; intros H; try discriminate; injection H as <-; reflexivity.
Qed.

Lemma upper_string (v a : value) :
  upper v = Ret a -> exists s, v = VStr s /\ a = VStr (toUpperCase s).
Proof.
  destruct v; cbn; intros H; try discriminate. injection H as <-. eauto.
Qed.

(** ** The index *)

Lemma index_step_docs docs o idx ix1 ix2 ix1' ix2' :
  In o docs -> index_of_docs docs ix1 ->
  index_step o idx (ix1, ix2) = Ret (ix1', ix2') ->
  index_of_docs docs ix1'.
Proof.
  intros Io S H. unfold index_step in H.
  apply bind_ret in H as (n & Hn & H).
  apply bind_ret in H as (v & Hv & H).
  apply bind_ret in H as (nv & Hnv & H).
  apply bind_ret in H as (d & Hd & H).
  injection H as H1 _. subst ix1'. apply get_own in Hn. subst n.
  destruct (eligible _); [|exact S].
  intros k l o' i G I.
  apply index_push_get in G as [[G _] | [-> (l0 & -> & G)]].
  - eapply S; eauto.
  - apply in_app_or in I as [I | I].
    + destruct G as [G | [_ ->]]; [eapply S; eauto | destruct I].
    + destruct I as [I | []]. injection I as <- _.
      split; [exact Io|reflexivity].
Qed.

Lemma build_index_docs all docs : forall idx ix1 ix2 ix1' ix2',
  incl docs all -> index_of_docs all ix1 ->
  build_index docs idx (ix1, ix2) = Ret (ix1', ix2') ->
  index_of_docs all ix1'.
Proof.
  induction docs as [|o docs IH]; cbn; intros idx ix1 ix2 ix1' ix2' I S H.
  - injection H as <- _. exact S.
  - apply bind_ret in H as ([j1 j2] & Hs & H).
    eapply IH; [| |exact H].
    + intros x Ix. apply I. right. exact Ix.
    + eapply index_step_docs; [|exact S|exact Hs]. apply I. left. reflexivity.
Qed.

(** ** What a step has established when it claims a document *)

Lemma pass1_scan_detail l num cands : forall st st',
  pass1_scan l num cands st = Ret st' ->
  st' = st
  \/ exists o i info,
       In (o, i) cands /\ vendors_agree l o
       /\ own_prop info "type" = VStr "invoice_number"
       /\ own_prop info "confidence" = VNum 0.95%Q
       /\ st' = claim l o info st.
Proof.
  induction cands as [|[o i] cands IH]; cbn; intros st st' H.
  - injection H as <-. left. reflexivity.
  - apply bind_ret in H as (v & Hv & H).
    apply bind_ret in H as (nv & Hnv & H).
    apply bind_ret in H as (lv & Hlv & H).
    apply bind_ret in H as (a & Ha & H).
    apply bind_ret in H as (b & Hb & H).
    destruct (strict_eq a b || strict_eq nv lv) eqn:E.
    + injection H as <-. right. exists o, i. eexists.
      split; [left; reflexivity|]. split; [|repeat split; reflexivity].
      apply get_own in Hv, Hlv.
      apply upper_string in Ha as (s & Es & Ea), Hb as (t & Et & Eb).
      subst v nv a b. exists t. split; [congruence|].
      unfold vendor_key. rewrite Hnv. f_equal.
      rewrite Et in E. cbn in E. apply orb_true_iff in E as [E | E];
        apply String.eqb_eq in E; congruence.
    + destruct (IH _ _ H) as [-> | (o' & i' & info & I & R)];
        [left; reflexivity|].
      right. exists o', i', info. split; [right; exact I|exact R].
Qed.

Lemma pass1_step_detail ix l st st' :
  pass1_step ix l st = Ret st' ->
  st' = st
  \/ exists o info, pass1_claim ix [l] l o info /\ st' = claim l o info st.
Proof.
  unfold pass1_step. intros H.
  apply bind_ret in H as (t & Ht & H). apply get_own in Ht. subst t.
  destruct (strict_eq (own_prop (body l) "document_type") (str "Invoice")) eqn:Ty;
    cbn [negb] in H; [|injection H as <-; left; reflexivity].
  apply bind_ret in H as (n & Hn & H). apply get_own in Hn. subst n.
  destruct (String.eqb_spec
              (normalizeInvoiceNumber (own_prop (body l) "invoice_number")) "")
    as [E|N]; [injection H as <-; left; reflexivity|].
  apply pass1_scan_detail in H
    as [-> | (o & i & info & I & V & T & C & ->)]; [left; reflexivity|].
  right. exists o, info. split; [|reflexivity].
  unfold pass1_claim, ledger_number.
  split; [left; reflexivity|]. split; [exact Ty|]. split; [exact N|].
  split; [|auto].
  destruct (index_get _ ix) as [cands|]; [|destruct I]. eauto.
Qed.

Lemma pass2_test_hit lvv d x o :
  pass2_test lvv (normalizeDate d) (cents x) o = Ret true ->
  exists lv, lvv = VStr lv /\ agrees lv d x o = true.
Proof.
  unfold pass2_test. intros H.
  apply bind_ret in H as (v & Hv & H).
  apply bind_ret in H as (nv & Hnv & H).
  apply bind_ret in H as (od & Hd & H).
  apply bind_ret in H as (t & Ht & H).
  apply bind_ret in H as (a & Ha & H).
  apply bind_ret in H as (b & Hb & H).
  apply get_own in Hv, Hd, Ht. subst v od t.
  apply upper_string in Ha as (s & Es & Ea), Hb as (lv & El & Eb).
  subst nv a b lvv. exists lv. split; [reflexivity|].
  unfold agrees, vendor_key. rewrite Hnv. injection H as H. exact H.
Qed.

Lemma pass2_scan_hit lvv d x pool : forall o,
  pass2_scan lvv (normalizeDate d) (cents x) pool = Ret (Some o) ->
  In o pool /\ exists lv, lvv = VStr lv /\ agrees lv d x o = true.
Proof.
  induction pool as [|p pool IH]; cbn; intros o H; [discriminate|].
  apply bind_ret in H as (hit & Hh & H). destruct hit.
  - injection H as <-. split; [left; reflexivity|].
    exact (pass2_test_hit _ _ _ _ Hh).
  - destruct (IH o H) as [I R]. split; [right; exact I|exact R].
Qed.

Lemma pass2_step_detail l st st' :
  pass2_step l st = Ret st' ->
  st' = st
  \/ exists o info, pass2_claim [l] st l o info /\ st' = claim l o info st.
Proof.
  unfold pass2_step. intros H.
  apply bind_ret in H as (lv & Hl & H).
  apply bind_ret in H as (d & Hd & H).
  apply bind_ret in H as (x & Hx & H).
  apply get_own in Hl, Hd, Hx. subst lv d x.
  destruct (String.eqb_spec
              (normalizeDate (own_prop (body l) "invoice_date")) "") as [E|N];
    [injection H as <-; left; reflexivity|].
  apply bind_ret in H as ([o|] & S & H); injection H as <-;
    [|left; reflexivity].
  apply pass2_scan_hit in S as (I & lv & El & A).
  right. exists o. eexists. split; [|reflexivity].
  unfold pass2_claim. split; [left; reflexivity|]. split; [exact I|].
  split; [exact N|]. split; [eauto|]. split; reflexivity.
Qed.

(** ** Induction over the two passes *)

Lemma pass1_claim_tail ix l0 ls l o info :
  pass1_claim ix ls l o info -> pass1_claim ix (l0 :: ls) l o info.
Proof. intros (I & R). split; [right; exact I|exact R]. Qed.

Lemma pass1_claim_head ix ls l o info :
  pass1_claim ix [l] l o info -> pass1_claim ix (l :: ls) l o info.
Proof. intros (_ & R). split; [left; reflexivity|exact R]. Qed.

Lemma pass1_invariant ix (P : mstate -> Prop) : forall ls,
  (forall l o info st,
      pass1_claim ix ls l o info -> P st -> P (claim l o info st)) ->
  forall st st', P st -> pass1 ix ls st = Ret st' -> P st'.
Proof.
  induction ls as [|l ls IH]; cbn; intros C st st' Pst H.
  - injection H as <-. exact Pst.
  - apply bind_ret in H as (st1 & H1 & H).
    assert (C' : forall l' o info st,
               pass1_claim ix ls l' o info -> P st -> P (claim l' o info st))
      by (intros l' o info s K; apply C, pass1_claim_tail, K).
    apply pass1_step_detail in H1 as [-> | (o & info & K & ->)].
    + exact (IH C' _ _ Pst H).
    + apply (IH C' _ _ (C _ _ _ _ (pass1_claim_head _ ls _ _ _ K) Pst) H).
Qed.

Lemma pass2_claim_tail l0 ls st l o info :
  pass2_claim ls st l o info -> pass2_claim (l0 :: ls) st l o info.
Proof. intros (I & R). split; [right; exact I|exact R]. Qed.

Lemma pass2_claim_head ls st l o info :
  pass2_claim [l] st l o info -> pass2_claim (l :: ls) st l o info.
Proof. intros (_ & R). split; [left; reflexivity|exact R]. Qed.

Lemma pass2_invariant (P : mstate -> Prop) : forall ls,
  (forall l o info st,
      pass2_claim ls st l o info -> P st -> P (claim l o info st)) ->
  forall st st', P st -> pass2 ls st = Ret st' -> P st'.
Proof.
  induction ls as [|l ls IH]; cbn; intros C st st' Pst H.
  - injection H as <-. exact Pst.
  - apply bind_ret in H as (st1 & H1 & H).
    assert (C' : forall l' o info st,
               pass2_claim ls st l' o info -> P st -> P (claim l' o info st))
      by (intros l' o info s K; apply C, pass2_claim_tail, K).
    apply pass2_step_detail in H1 as [-> | (o & info & K & ->)].
    + exact (IH C' _ _ Pst H).
    + apply (IH C' _ _ (C _ _ _ _ (pass2_claim_head ls _ _ _ _ K) Pst) H).
Qed.

Lemma of_type_typed t l : forall r,
  of_type t l = Ret r ->
  forall x, In x r ->
            strict_eq (own_prop (body x) "document_type") (str t) = true.
Proof.
  induction l as [|y l IH]; cbn; intros r H x I.
  - injection H as <-. destruct I.
  - apply bind_ret in H as (ty & Hty & H). apply get_own in Hty. subst ty.
    apply bind_ret in H as (tl & Htl & H). injection H as <-.
    destruct (strict_eq (own_prop (body y) "document_type") (str t)) eqn:E.
    + destruct I as [<- | I]; [exact E|exact (IH tl Htl x I)].
    + exact (IH tl Htl x I).
Qed.

(** The shape of a run: the index, the state after Pass 1, the entries
    Pass 2 visits. *)
Lemma matchInvoices_run ledgerEntries ocrInvoices st :
  matchInvoices ledgerEntries ocrInvoices = Ret st ->
  exists ix1 st1 remaining,
    index_of_docs ocrInvoices ix1
    /\ pass1 ix1 ledgerEntries (mkState [] ledgerEntries ocrInvoices) = Ret st1
    /\ of_type "Invoice" (unmatchedLedger st1) = Ret remaining
    /\ pass2 remaining st1 = Ret st.
Proof.
  unfold matchInvoices. intros H.
  apply bind_ret in H as ([ix1 ix2] & HI & H).
  apply bind_ret in H as (st1 & H1 & H).
  apply bind_ret in H as (rem & Hr & H).
  exists ix1, st1, rem. split; [|auto].
  eapply build_index_docs; [apply incl_refl| |exact HI].
  intros k l o i G. discriminate G.
Qed.

(** ** Every match rests on its rule *)

Lemma snoc_all {A} (P : A -> Prop) (l : list A) (x : A) :
  Forall P l -> P x -> Forall P (l ++ [x])%list.
Proof. intros F Px. apply Forall_app. split; [exact F|]. constructor; auto. Qed.

Lemma matches_of_invoice_lines ledgerEntries ocrInvoices st :
  matchInvoices ledgerEntries ocrInvoices = Ret st ->
  Forall (fun m => invoice_line (ledger m) = true) (matches st).
Proof.
  intros H.
  apply matchInvoices_run in H as (ix1 & st1 & rem & X & H1 & Hr & H2).
  eapply (pass2_invariant
            (fun s => Forall (fun m => invoice_line (ledger m) = true) (matches s)));
    [| |exact H2].
  - intros l o info s (I & _) F. cbn. apply snoc_all; [exact F|]. cbn.
    exact (of_type_typed _ _ _ Hr l I).
  - eapply (pass1_invariant ix1
              (fun s => Forall (fun m => invoice_line (ledger m) = true) (matches s)));
      [| |exact H1].
    + intros l o info s (_ & Ty & _) F. cbn. apply snoc_all; [exact F|exact Ty].
    + constructor.
Qed.

Lemma matches_justified ledgerEntries ocrInvoices st :
  matchInvoices ledgerEntries ocrInvoices = Ret st ->
  Forall justified (matches st).
Proof.
  intros H.
  apply matchInvoices_run in H as (ix1 & st1 & rem & X & H1 & Hr & H2).
  eapply (pass2_invariant (fun s => Forall justified (matches s)));
    [| |exact H2].
  - intros l o info s (_ & _ & N & A & T & C) F. cbn.
    apply snoc_all; [exact F|]. right. unfold amount_rule. cbn. auto.
  - eapply (pass1_invariant ix1 (fun s => Forall justified (matches s)));
      [| |exact H1].
    + intros l o info s (_ & _ & N & (cands & i & G & I) & V & T & C) F. cbn.
      apply snoc_all; [exact F|]. left. unfold number_rule. cbn.
      split; [exact T|]. split; [exact C|].
      split; [exact (proj2 (X _ _ _ _ G I))|]. auto.
    + constructor.
Qed.

(** ** Nothing is lost and nothing is invented *)

Lemma same_ident_eq (l : list entity) (a b : entity) :
  NoDup (map ident l) -> In a l -> In b l -> ident a = ident b -> a = b.
Proof.
  induction l as [|x l IH]; cbn; intros N Ia Ib E; [destruct Ia|].
  inversion N as [|? ? Nx Nl]; subst.
  destruct Ia as [<- | Ia], Ib as [<- | Ib]; [reflexivity| | |auto].
  - exfalso. apply Nx. rewrite E. apply in_map. exact Ib.
  - exfalso. apply Nx. rewrite <- E. apply in_map. exact Ia.
Qed.

Lemma remove_first_keeps (x z : entity) (pool : list entity) :
  In z pool -> ident z = ident x \/ In z (remove_first x pool).
Proof.
  induction pool as [|y pool IH]; cbn; intros I; [destruct I|].
  unfold same_object. destruct (Nat.eqb_spec (ident y) (ident x)) as [E|D].
  - destruct I as [<- | I]; [left; exact E|right; exact I].
  - destruct I as [<- | I]; [right; left; reflexivity|].
    destruct (IH I) as [E | R]; [left; exact E|right; right; exact R].
Qed.

Lemma claim_accounted L O l o info st :
  NoDup (map ident L) -> NoDup (map ident O) -> In l L -> In o O ->
  accounted L O st -> accounted L O (claim l o info st).
Proof.
  intros NL NO Il Io [Lk Dk Mk Lp Dp]. constructor; cbn.
  - intros x I. apply Lk. exact (remove_first_incl _ _ _ I).
  - intros x I. apply Dk. exact (remove_first_incl _ _ _ I).
  - intros m I. apply in_app_or in I as [I | [<- | []]]; [auto|]. cbn. auto.
  - intros x I. rewrite map_app, in_app_iff. cbn.
    destruct (Lp x I) as [U | M]; [|auto].
    destruct (remove_first_keeps l x _ U) as [E | R]; [|auto].
    right. right. left. symmetry. exact (same_ident_eq L x l NL I Il E).
  - intros x I. rewrite map_app, in_app_iff. cbn.
    destruct (Dp x I) as [U | M]; [|auto].
    destruct (remove_first_keeps o x _ U) as [E | R]; [|auto].
    right. right. left. symmetry. exact (same_ident_eq O x o NO I Io E).
Qed.

Lemma matchInvoices_accounted L O st :
  NoDup (map ident L) -> NoDup (map ident O) ->
  matchInvoices L O = Ret st -> accounted L O st /\ pools_sound st.
Proof.
  intros NL NO H.
  apply matchInvoices_run in H as (ix1 & st1 & rem & X & H1 & Hr & H2).
  assert (A1 : accounted L O st1 /\ pools_sound st1).
  { eapply (pass1_invariant ix1 (fun s => accounted L O s /\ pools_sound s));
      [| |exact H1].
    - intros l o info s (Il & _ & _ & (cands & i & G & I) & _) [A P].
      split; [|apply claim_sound; exact P].
      apply claim_accounted;
        [exact NL|exact NO|exact Il|exact (proj1 (X _ _ _ _ G I))|exact A].
    - split; constructor; cbn; auto using incl_refl.
      intros m []. }
  destruct (of_type_incl _ _ _ Hr) as [Ir _].
  eapply (pass2_invariant
            (fun s => (accounted L O s /\ pools_sound s)
                      /\ incl (unmatchedLedger st1) L));
    [| |exact H2].
  - intros l o info s (Il & Io & _) [[A P] K].
    split; [|exact K]. split; [|apply claim_sound; exact P].
    apply claim_accounted;
      [exact NL|exact NO|apply K, Ir, Il|apply (docs_known _ _ _ A), Io|exact A].
  - split; [exact A1|]. exact (ledger_known _ _ _ (proj1 A1)).
Qed.

Lemma ledger_ids_distinct L O st :
  NoDup (map ident L) -> NoDup (map ident O) ->
  matchInvoices L O = Ret st -> NoDup (ledger_ids st).
Proof.
  intros Nl No H. unfold matchInvoices in H.
  apply bind_ret in H as (ix & _ & H).
  apply bind_ret in H as (st1 & H1 & H).
  apply bind_ret in H as (rem & Hr & H).
  assert (P0 : pools_sound {| matches := []; unmatchedLedger := L;
                              unmatchedOcr := O |})
    by (constructor; cbn; auto).
  destruct (pass1_one_to_one _ _ _ _ P0 (conj Nl (fun _ _ I => I))
              (NoDup_nil _) (Forall_nil _) H1) as (P1 & N1 & A1).
  apply of_type_incl in Hr as [Ir Nr].
  eapply pass2_one_to_one; [exact P1| |exact N1| |exact H].
  - split; [apply Nr, (ledger_distinct _ P1)|].
    intros x Ix I. apply (ledger_consumed _ P1 _ I).
    apply in_map, Ir, Ix.
  - apply ordered_pairs_of_all. exact A1.
Qed.

Lemma matchInvoices_ledger_perm L O st :
  NoDup (map ident L) -> NoDup (map ident O) ->
  matchInvoices L O = Ret st ->
  Permutation L (unmatchedLedger st ++ map ledger (matches st))%list.
Proof.
  intros NL NO H.
  destruct (matchInvoices_accounted _ _ _ NL NO H)
    as [[Lk Dk Mk Lp Dp] [Ld Dd Lc Dc]].
  pose proof (ledger_ids_distinct _ _ _ NL NO H) as Ni.
  apply NoDup_Permutation.
  - exact (NoDup_map_inv _ _ NL).
  - apply NoDup_app.
    + exact (NoDup_map_inv _ _ Ld).
    + apply (NoDup_map_inv ident). rewrite map_map. exact Ni.
    + intros x U M. apply (Lc (ident x)); [|apply in_map; exact U].
      unfold ledger_ids. rewrite <- (map_map ledger ident).
      apply in_map. exact M.
  - intros x. split.
    + intros I. apply in_or_app. exact (Lp x I).
    + intros I. apply in_app_or in I as [U | M]; [exact (Lk x U)|].
      apply in_map_iff in M as (m & <- & I). exact (proj1 (Mk m I)).
Qed.

(** X23. Only ledger entries of type 'Invoice' are matched: Pass 1 skips the
    others and Pass 2 visits the invoices only. *)
Theorem only_invoice_lines_are_matched ledgerEntries ocrInvoices st :
  matchInvoices ledgerEntries ocrInvoices = Ret st ->
  forall m, In m (matches st) -> invoice_line (ledger m) = true.
Proof.
  intros H. apply Forall_forall. exact (matches_of_invoice_lines _ _ _ H).
Qed.


(** X25. No-match cases are never dropped.  On distinct ledger entries and
    distinct documents, the ledger entries of the input are exactly those
    left unmatched together with those of the matches, and the same for the
    documents. *)
Theorem nothing_lost_nothing_invented ledgerEntries ocrInvoices st :
  NoDup (map ident ledgerEntries) ->
  NoDup (map ident ocrInvoices) ->
  matchInvoices ledgerEntries ocrInvoices = Ret st ->
  (forall x, In x ledgerEntries
             <-> In x (unmatchedLedger st) \/ In x (map ledger (matches st)))
  /\ (forall x, In x ocrInvoices
                <-> In x (unmatchedOcr st) \/ In x (map ocr (matches st))).
Proof.
  intros NL NO H.
  destruct (matchInvoices_accounted _ _ _ NL NO H) as [[Lk Dk Mk Lp Dp] _].
  split; intros x; split; auto.
  - intros [U | M]; [exact (Lk x U)|].
    apply in_map_iff in M as (m & <- & I). exact (proj1 (Mk m I)).
  - intros [U | M]; [exact (Dk x U)|].
    apply in_map_iff in M as (m & <- & I). exact (proj2 (Mk m I)).
Qed.

(** X26. On distinct ledger entries and distinct documents, what is left
    unmatched is in no match: no ledger entry is reported both as matched and
    as ledger-only, no document both as matched and as OCR-only. *)
Theorem unmatched_is_in_no_match ledgerEntries ocrInvoices st :
  NoDup (map ident ledgerEntries) ->
  NoDup (map ident ocrInvoices) ->
  matchInvoices ledgerEntries ocrInvoices = Ret st ->
  (forall m, In m (matches st) -> ~ In (ledger m) (unmatchedLedger st))
  /\ (forall m, In m (matches st) -> ~ In (ocr m) (unmatchedOcr st)).
Proof.
  intros NL NO H.
  destruct (matchInvoices_accounted _ _ _ NL NO H) as [_ [_ _ Lc Dc]].
  split; intros m I U.
  - apply (Lc (ident (ledger m))); [|apply in_map; exact U].
    unfold ledger_ids. apply in_map_iff. exists m. auto.
  - apply (Dc (ident (ocr m))); [|apply in_map; exact U].
    unfold doc_ids. apply in_map_iff. exists m. auto.
Qed.

(** X27. On distinct ledger entries and distinct documents every ledger entry is
    counted once: the entries left unmatched followed by the entries of the
    matches are a rearrangement of the input, without repetition. *)
Theorem ledger_entries_counted_once ledgerEntries ocrInvoices st :
  NoDup (map ident ledgerEntries) ->
  NoDup (map ident ocrInvoices) ->
  matchInvoices ledgerEntries ocrInvoices = Ret st ->
  Permutation ledgerEntries
              (unmatchedLedger st ++ map ledger (matches st))%list.
Proof. exact (matchInvoices_ledger_perm ledgerEntries ocrInvoices st). Qed.

End MatchAccounting.

(* ===================================================================== *)
(** * The matcher returns on well-formed input *)
(* ===================================================================== *)

Module MatchTotality.
Import Matcher Vocabulary MatchVocabulary Basics MatcherFacts Pass2Facts.
Import OneToOneFacts MatchAccounting.

Lemma vendor_key_returns (o : entity) :
  well_formed_doc o ->
  exists s, normalizeVendorForLedgerMatch (own_prop (body o) "vendor_name")
            = Ret (VStr s).
Proof.
  intros [_ V]. unfold vendor_key in V.
  destruct (normalizeVendorForLedgerMatch (own_prop (body o) "vendor_name"))
    as [[| | | | |s| |]|e]; try congruence. eauto.
Qed.

Lemma index_step_returns o idx ix :
  well_formed_doc o -> returns (index_step o idx ix).
Proof.
  intros W. destruct (vendor_key_returns o W) as [s E]. destruct W as [Ob _].
  destruct ix as [ix1 ix2]. unfold index_step.
  rewrite !(get_of_object _ _ Ob). cbn [bind]. rewrite E. cbn [bind].
  eexists. reflexivity.
Qed.

Lemma build_index_returns docs : forall idx ix,
  Forall well_formed_doc docs -> returns (build_index docs idx ix).
Proof.
  induction docs as [|o docs IH]; cbn; intros idx ix F.
  - eexists. reflexivity.
  - inversion F as [|? ? W F']; subst.
    destruct (index_step_returns o idx ix W) as [ix' E]. rewrite E. cbn [bind].
    apply IH. exact F'.
Qed.

Lemma pass1_scan_returns l num cands : forall st,
  well_formed_line l ->
  (forall o i, In (o, i) cands -> well_formed_doc o) ->
  returns (pass1_scan l num cands st).
Proof.
  induction cands as [|[o i] cands IH]; cbn; intros st L C.
  - eexists. reflexivity.
  - destruct (vendor_key_returns o (C o i (or_introl eq_refl))) as [s E].
    destruct (C o i (or_introl eq_refl)) as [Ob _].
    destruct L as [Lb [lv Lv]].
    rewrite (get_of_object _ _ Ob). cbn [bind]. rewrite E. cbn [bind].
    rewrite (get_of_object _ _ Lb). cbn [bind]. rewrite Lv. cbn [upper bind].
    destruct (_ || _); [eexists; reflexivity|].
    apply IH; [split; eauto|]. intros o' i' I. apply (C o' i'). right. exact I.
Qed.

Lemma pass1_step_returns docs ix l st :
  Forall well_formed_doc docs -> index_of_docs docs ix ->
  well_formed_line l -> returns (pass1_step ix l st).
Proof.
  intros F X L. unfold pass1_step. pose proof L as [Lb _].
  rewrite !(get_of_object _ _ Lb). cbn [bind].
  destruct (negb _); [eexists; reflexivity|].
  destruct (_ =? ""); [eexists; reflexivity|].
  apply pass1_scan_returns; [exact L|].
  intros o i I. rewrite Forall_forall in F. apply F.
  destruct (index_get _ ix) as [cands|] eqn:G; [|destruct I].
  exact (proj1 (X _ _ _ _ G I)).
Qed.

Lemma pass1_returns docs ix ls : forall st,
  Forall well_formed_doc docs -> index_of_docs docs ix ->
  Forall well_formed_line ls -> returns (pass1 ix ls st).
Proof.
  induction ls as [|l ls IH]; cbn; intros st F X L.
  - eexists. reflexivity.
  - inversion L as [|? ? Wl L']; subst.
    destruct (pass1_step_returns docs ix l st F X Wl) as [st' E].
    rewrite E. cbn [bind]. apply IH; assumption.
Qed.

Lemma of_type_returns t l :
  Forall well_formed_line l -> returns (of_type t l).
Proof.
  induction 1 as [|x l [Ob _] _ [r IH]]; cbn.
  - eexists. reflexivity.
  - rewrite (get_of_object _ _ Ob). cbn [bind]. rewrite IH. cbn [bind].
    eexists. reflexivity.
Qed.

Lemma pass2_step_returns l st :
  well_formed_line l -> Forall well_formed_doc (unmatchedOcr st) ->
  returns (pass2_step l st).
Proof.
  intros [Lb [lv Lv]] F. unfold pass2_step.
  rewrite !(get_of_object _ _ Lb). cbn [bind]. rewrite Lv.
  destruct (_ =? ""); [eexists; reflexivity|].
  rewrite (pass2_scan_find lv _ _ _ F). cbn [bind].
  destruct (find _ _); eexists; reflexivity.
Qed.

Lemma pass2_returns ls : forall st,
  Forall well_formed_line ls -> Forall well_formed_doc (unmatchedOcr st) ->
  returns (pass2 ls st).
Proof.
  induction ls as [|l ls IH]; cbn; intros st L F.
  - eexists. reflexivity.
  - inversion L as [|? ? Wl L']; subst.
    destruct (pass2_step_returns l st Wl F) as [st' E].
    rewrite E. cbn [bind]. apply IH; [exact L'|].
    apply pass2_step_cases in E as [-> | (o & info & _ & _ & ->)];
      [exact F|].
    cbn. rewrite Forall_forall in *. intros x I.
    apply F. exact (remove_first_incl _ _ _ I).
Qed.

Lemma pass1_pools ix L O ls : forall st st',
  pools_from L O st -> pass1 ix ls st = Ret st' -> pools_from L O st'.
Proof.
  intros st st' P H.
  eapply (pass1_invariant ix (pools_from L O)); [|exact P|exact H].
  intros l o info s _ [A B]. split; cbn; intros x I.
  - apply A. exact (remove_first_incl _ _ _ I).
  - apply B. exact (remove_first_incl _ _ _ I).
Qed.


End MatchTotality.

(* ===================================================================== *)
(** * The records of the merged output add up *)
(* ===================================================================== *)

Module PipelineAccounting.
Import Matcher Vocabulary MatchVocabulary Basics OneToOneFacts MatchAccounting.
Import Pipeline.

Lemma of_type_filter l : forall r,
  of_type "Invoice" l = Ret r -> r = filter invoice_line l.
Proof.
  induction l as [|x l IH]; cbn; intros r H.
  - injection H as <-. reflexivity.
  - apply bind_ret in H as (ty & Hty & H). apply get_own in Hty. subst ty.
    apply bind_ret in H as (tl & Htl & H). injection H as <-.
    rewrite (IH tl Htl). reflexivity.
Qed.

Lemma filter_all {A} (p : A -> bool) (l : list A) :
  (forall x, In x l -> p x = true) -> filter p l = l.
Proof.
  induction l as [|x l IH]; cbn; intros H; [reflexivity|].
  rewrite (H x (or_introl eq_refl)). f_equal. apply IH.
  intros y I. apply H. right. exact I.
Qed.

(** X29. The records of the merged output add up (distinct ledger entries,
    distinct documents): the matched invoices and the ledger-only invoices
    together are as many as the ledger entries of type 'Invoice', each of
    which yields one record; the matched invoices and the OCR-only records
    together are at least as many as the documents. *)
Theorem invoice_records_add_up ledgerEntries ocrInvoices s :
  NoDup (map ident ledgerEntries) ->
  NoDup (map ident ocrInvoices) ->
  data_sections ledgerEntries ocrInvoices = Ret s ->
  exists matched still orphans,
    matched_invoices s = VArr matched
    /\ own_prop (ledger_only s) "invoices" = VArr still
    /\ ocr_only s = VArr orphans
    /\ (List.length matched + List.length still
        = List.length (filter invoice_line ledgerEntries))%nat
    /\ (List.length ocrInvoices
        <= List.length matched + List.length orphans)%nat.
Proof.
  intros NL NO H. unfold data_sections in H.
  apply bind_ret in H as (inv & Hi & H).
  apply bind_ret in H as (jou & Hj & H).
  apply bind_ret in H as (r & Hr & H).
  apply bind_ret in H as (still & Hs & H). injection H as <-. cbn.
  do 3 eexists. split; [reflexivity|]. split; [reflexivity|].
  split; [reflexivity|]. rewrite !length_map.
  destruct (of_type_incl _ _ _ Hi) as [Ii Ni]. specialize (Ni NL).
  pose proof (matchInvoices_ledger_perm _ _ _ Ni NO Hr) as P.
  destruct (matchInvoices_accounted _ _ _ Ni NO Hr) as [[Lk Dk Mk Lp Dp] _].
  rewrite <- (of_type_filter _ _ Hi).
  apply of_type_filter in Hs. subst still.
  rewrite filter_all
    by (intros x I; exact (of_type_typed _ _ _ Hi x (Lk x I))).
  split.
  - apply Permutation_length in P. rewrite length_app, length_map in P. lia.
  - assert (Le : (List.length ocrInvoices
                  <= List.length (unmatchedOcr r ++ map ocr (matches r)))%nat).
    { apply NoDup_incl_length; [exact (NoDup_map_inv _ _ NO)|].
      intros x I. apply in_or_app. exact (Dp x I). }
    rewrite length_app, length_map in Le. lia.
Qed.

End PipelineAccounting.

(* ===================================================================== *)
(** * The documents read by the ledger/OCR merge script *)
(* ===================================================================== *)

Module IntakeFacts.
Import Intake PostProcessVocabulary LineItemVocabulary Basics OneToOneFacts.

Lemma strict_eq_sym (a b : value) : strict_eq a b = strict_eq b a.
Proof.
  destruct a, b; cbn; try reflexivity.
  - destruct b, b0; reflexivity.
  - destruct (Qeq_bool q q0) eqn:E, (Qeq_bool q0 q) eqn:E'; try reflexivity.
    + apply Qeq_bool_iff in E. symmetry in E. apply Qeq_bool_iff in E.
      congruence.
    + apply Qeq_bool_iff in E'. symmetry in E'. apply Qeq_bool_iff in E'.
      congruence.
  - apply String.eqb_sym.
Qed.

Lemma same_value_zero_sym (a b : value) :
  same_value_zero a b = same_value_zero b a.
Proof.
  destruct a, b; try reflexivity; apply strict_eq_sym.
Qed.

Lemma unique_invoices_from parseOCR rows : forall seen,
  exists kept,
    kept_rows parseOCR rows kept (unique_invoices parseOCR rows seen)
    /\ (forall k, In k kept ->
          existsb (same_value_zero (invoice_key parseOCR k)) seen = false)
    /\ ForallOrdPairs (other_invoice parseOCR) kept
    /\ (forall r, In r rows -> truthy (postOcr_of parseOCR r) = true ->
          existsb (same_value_zero (invoice_key parseOCR r)) seen = true
          \/ In r kept
          \/ exists k, In k kept
                       /\ same_value_zero (invoice_key parseOCR r)
                                          (invoice_key parseOCR k) = true).
Proof.
  induction rows as [|r rows IH]; intros seen; cbn [unique_invoices].
  - exists []. split; [repeat split; constructor|].
    split; [intros k []|]. split; [constructor|intros r []].
  - destruct (truthy (postOcr_of parseOCR r)) eqn:T.
    + destruct (existsb (same_value_zero (invoice_key parseOCR r)) seen) eqn:S.
      * destruct (IH seen) as (kept & (Sub & Ed & Tk) & Fresh & Ord & Cov).
        exists kept. split; [split; [constructor; exact Sub|auto]|].
        split; [exact Fresh|]. split; [exact Ord|].
        intros r' [<- | I] T'; [left; exact S|exact (Cov r' I T')].
      * destruct (IH (set_add seen (invoice_key parseOCR r)))
          as (kept & (Sub & Ed & Tk) & Fresh & Ord & Cov).
        unfold set_add in Fresh, Cov. rewrite S in Fresh, Cov.
        exists (r :: kept). split; [|split; [|split]].
        -- split; [constructor; exact Sub|]. split; [cbn; rewrite Ed; reflexivity|].
           constructor; assumption.
        -- intros k [<- | I]; [exact S|].
           specialize (Fresh k I). rewrite existsb_app in Fresh.
           apply orb_false_iff in Fresh as [Fs _]. exact Fs.
        -- constructor; [|exact Ord]. apply Forall_forall. intros k I.
           specialize (Fresh k I). rewrite existsb_app in Fresh.
           apply orb_false_iff in Fresh as [_ Fk]. cbn in Fk.
           rewrite orb_false_r in Fk. unfold other_invoice.
           rewrite same_value_zero_sym. exact Fk.
        -- intros r' [<- | I] T'; [right; left; left; reflexivity|].
           destruct (Cov r' I T') as [E | [Ik | (k & Ik & E)]].
           ++ rewrite existsb_app in E. apply orb_true_iff in E as [E | E].
              ** left. exact E.
              ** right. right. exists r. split; [left; reflexivity|].
                 cbn in E. rewrite orb_false_r in E. exact E.
           ++ right. left. right. exact Ik.
           ++ right. right. exists k. split; [right; exact Ik|exact E].
    + destruct (IH seen) as (kept & (Sub & Ed & Tk) & Fresh & Ord & Cov).
      exists kept. split; [split; [constructor; exact Sub|auto]|].
      split; [exact Fresh|]. split; [exact Ord|].
      intros r' [<- | I] T'; [congruence|exact (Cov r' I T')].
Qed.


End IntakeFacts.

(* ===================================================================== *)
(** * The further theorems on the sample inputs *)
(* ===================================================================== *)

Module GroupWitnesses.
Import Classifier Assembler AssemblerVocabulary GroupVocabulary GroupFacts.
Import ReconcilerVocabulary AssemblerSamples ClassifierRules.

(** The sample rows form one group of three pages; its second and third
    page are no header pages. *)
Lemma sample_group_has_one_header :
  exists groups,
    processInvoices sample_parse sample_rows = Ret groups
    /\ Forall (group_ok not_a_header) groups.
Proof.
  eexists. split; [vm_compute; reflexivity|].
  exact (header_pages_start_groups sample_parse sample_rows _ eq_refl).
Defined.

Lemma sample_group_has_one_vendor :
  exists groups,
    processInvoices sample_parse sample_rows = Ret groups
    /\ Forall (group_ok vendor_of_first) groups.
Proof.
  eexists. split; [vm_compute; reflexivity|].
  exact (groups_keep_one_vendor sample_parse sample_rows _ eq_refl).
Defined.

Lemma sample_group_has_no_gap :
  exists groups,
    processInvoices sample_parse sample_rows = Ret groups
    /\ Forall (group_ok no_gap) groups.
Proof.
  eexists. split; [vm_compute; reflexivity|].
  exact (groups_have_no_page_gap sample_parse sample_rows _ eq_refl).
Defined.

Lemma sample_group_follows_page_order :
  exists groups,
    processInvoices sample_parse sample_rows = Ret groups
    /\ Forall (group_ok next_or_same_number) groups.
Proof.
  eexists. split; [vm_compute; reflexivity|].
  exact (groups_follow_page_order sample_parse sample_rows _ eq_refl).
Defined.

(** The header page of the sample invoice is no effective continuation. *)
Lemma header10_is_no_continuation :
  isEffectiveContinuationPage (ocr header10) = Ret (VBool false).
Proof.
  apply (dated_header_is_no_continuation (ocr header10) (VBool true));
    reflexivity.
Defined.

End GroupWitnesses.

Module AccountingWitnesses.
Import Matcher Vocabulary MatchVocabulary Samples MatchSamples.
Import OneToOneFacts MatchAccounting MatchTotality Pipeline PipelineAccounting.

Ltac distinct :=
  repeat (constructor; [cbn; intuition discriminate|]); constructor.

Lemma mixed_ledger_distinct : NoDup (map ident mixed_ledger).
Proof. distinct. Defined.

Lemma mixed_docs_distinct : NoDup (map ident mixed_docs).
Proof. distinct. Defined.

Lemma mixed_matches_are_invoice_lines :
  exists st,
    matchInvoices mixed_ledger mixed_docs = Ret st
    /\ List.length (matches st) = 2%nat
    /\ forall m, In m (matches st) -> invoice_line (ledger m) = true.
Proof.
  eexists. split; [vm_compute; reflexivity|]. split; [reflexivity|].
  exact (only_invoice_lines_are_matched mixed_ledger mixed_docs _ eq_refl).
Defined.


Lemma mixed_input_is_accounted_for :
  exists st,
    matchInvoices mixed_ledger mixed_docs = Ret st
    /\ (forall x, In x mixed_ledger
                  <-> In x (unmatchedLedger st) \/ In x (map ledger (matches st)))
    /\ (forall x, In x mixed_docs
                  <-> In x (unmatchedOcr st) \/ In x (map ocr (matches st))).
Proof.
  eexists. split; [vm_compute; reflexivity|].
  exact (nothing_lost_nothing_invented mixed_ledger mixed_docs _
           mixed_ledger_distinct mixed_docs_distinct eq_refl).
Defined.

Lemma mixed_unmatched_is_in_no_match :
  exists st,
    matchInvoices mixed_ledger mixed_docs = Ret st
    /\ (forall m, In m (matches st) -> ~ In (ledger m) (unmatchedLedger st))
    /\ (forall m, In m (matches st) -> ~ In (ocr m) (unmatchedOcr st)).
Proof.
  eexists. split; [vm_compute; reflexivity|].
  exact (unmatched_is_in_no_match mixed_ledger mixed_docs _
           mixed_ledger_distinct mixed_docs_distinct eq_refl).
Defined.

Lemma mixed_ledger_counted_once :
  exists st,
    matchInvoices mixed_ledger mixed_docs = Ret st
    /\ Permutation mixed_ledger
                   (unmatchedLedger st ++ map ledger (matches st))%list.
Proof.
  eexists. split; [vm_compute; reflexivity|].
  exact (ledger_entries_counted_once mixed_ledger mixed_docs _
           mixed_ledger_distinct mixed_docs_distinct eq_refl).
Defined.

Lemma mixed_matches_one_to_one :
  exists st,
    matchInvoices mixed_ledger mixed_docs = Ret st
    /\ NoDup (ledger_ids st) /\ ForallOrdPairs share_rule (matches st).
Proof.
  eexists. split; [vm_compute; reflexivity|].
  exact (matches_one_to_one_but_for_pass1 mixed_ledger mixed_docs _
           mixed_ledger_distinct mixed_docs_distinct eq_refl).
Defined.

Lemma mixed_records_add_up :
  exists s,
    data_sections mixed_ledger mixed_docs = Ret s
    /\ exists matched still orphans,
         matched_invoices s = VArr matched
         /\ own_prop (ledger_only s) "invoices" = VArr still
         /\ ocr_only s = VArr orphans
         /\ (List.length matched + List.length still
             = List.length (filter invoice_line mixed_ledger))%nat
         /\ (List.length mixed_docs
             <= List.length matched + List.length orphans)%nat.
Proof.
  eexists. split; [vm_compute; reflexivity|].
  exact (invoice_records_add_up mixed_ledger mixed_docs _
           mixed_ledger_distinct mixed_docs_distinct eq_refl).
Defined.


End AccountingWitnesses.

Module ReconcilerWitnesses.
Import Assembler Reconciler ReconcilerVocabulary LineItemVocabulary.
Import LineItemFacts MergedInvoiceFacts.

Lemma three_nights_filtered :
  exists kept,
    deduplicateLineItems three_nights = Ret kept
    /\ List.length kept = 2%nat
    /\ subsequence kept three_nights
    /\ NoDup (map key_of kept)
    /\ incl (map key_of three_nights) (map key_of kept)
    /\ (forall before x after,
           three_nights = (before ++ x :: after)%list ->
           ~ In (key_of x) (map key_of before) ->
           In x kept).
Proof.
  eexists. split; [vm_compute; reflexivity|]. split; [reflexivity|].
  exact (deduplicateLineItems_keeps_first_of_each_key three_nights _ eq_refl).
Defined.

Lemma three_nights_filtered_twice :
  exists kept,
    deduplicateLineItems three_nights = Ret kept
    /\ deduplicateLineItems kept = Ret kept.
Proof.
  eexists. split; [vm_compute; reflexivity|].
  exact (deduplicateLineItems_idempotent three_nights _ eq_refl).
Defined.

Lemma two_pages_are_counted :
  exists doc,
    createMergedInvoice no_JSON [items11; items10] = Ret doc
    /\ own_prop (own_prop doc "merge_info") "page_count" = num 2
    /\ own_prop (own_prop doc "merge_info") "was_merged" = VBool true
    /\ (exists sourcePages,
           own_prop (own_prop doc "merge_info") "source_pages" = VArr sourcePages
           /\ List.length sourcePages = 2%nat)
    /\ own_prop doc "all_source_rows"
       = VArr (map (fun p => lookup "Number" (row p))
                   (sort by_source_page [items11; items10]))
    /\ own_prop doc "all_source_file_ids"
       = VArr (map (fun p => lookup "File ID" (row p))
                   (sort by_source_page [items11; items10])).
Proof.
  eexists. split; [vm_compute; reflexivity|].
  apply (merged_invoice_counts_its_pages no_JSON [items11; items10]).
  - discriminate.
  - vm_compute. reflexivity.
Defined.

Lemma two_pages_share_a_night :
  exists doc,
    createMergedInvoice no_JSON [items11; items10] = Ret doc
    /\ exists kept,
         own_prop doc "line_items" = VArr kept
         /\ NoDup (map key_of kept)
         /\ forall p x, In p [items11; items10] -> In x (page_items (ocr p)) ->
                        In (key_of x) (map key_of kept).
Proof.
  eexists. split; [vm_compute; reflexivity|].
  apply (merged_line_items_are_distinct no_JSON [items11; items10]).
  - cbn. lia.
  - vm_compute. reflexivity.
Defined.


End ReconcilerWitnesses.

Module NormalizerWitnesses.
Import Matcher NormalizerFacts.

(** The date of the example of the specification. *)
Lemma september_eighth_is_read :
  normalizeDate (VStr " 9/8/2024 ") = "2024-09-08"
  /\ iso_date (normalizeDate (VStr " 9/8/2024 ")) = true.
Proof.
  split; [reflexivity|].
  apply (normalizeDate_reads_both_forms (VStr " 9/8/2024 ")).
  - reflexivity.
  - right. vm_compute. discriminate.
Defined.

Lemma esa_is_mapped_once :
  normalizeVendorForLedgerMatch (VStr "ESA MANAGEMENT LLC")
  = Ret (VStr "ESA MANAGEMENT LLC").
Proof.
  apply (normalizeVendorForLedgerMatch_idempotent (VStr " Esa Suites ")).
  vm_compute. reflexivity.
Defined.

End NormalizerWitnesses.

Module CsvWitnesses.
Import Csv CsvVocabulary CsvFacts.

Lemma sample_headers_proper : proper_headers sample_headers.
Proof.
  split; [repeat constructor|]. split.
  - repeat (constructor; [cbn; intuition discriminate|]). constructor.
  - split; [reflexivity|]. cbn. intuition discriminate.
Defined.


End CsvWitnesses.

Module PostProcessWitnesses.
Import Assembler AssemblerVocabulary Reconciler ReconcilerVocabulary.
Import AssemblerSamples LineItemVocabulary PostProcess PostProcessVocabulary.
Import PostProcessFacts.

(** The three pages of the sample invoice all get the merged invoice. *)
Lemma sample_pages_carry_their_invoice :
  exists groups m,
    processInvoices sample_parse sample_rows = Ret groups
    /\ record_groups no_JSON groups [] = Ret m
    /\ forall g p, In g groups -> In p g ->
         exists doc,
           createMergedInvoice no_JSON g = Ret doc
           /\ lookup "postProcessOCR" (updated_row m (row p)) = text_of doc.
Proof.
  do 2 eexists. split; [vm_compute; reflexivity|].
  split; [vm_compute; reflexivity|].
  apply (pages_carry_the_invoice_of_their_group sample_parse no_JSON sample_rows).
  - repeat constructor; eexists; reflexivity.
  - vm_compute.
    repeat (constructor; [cbn; intuition discriminate|]). constructor.
  - reflexivity.
  - reflexivity.
Defined.

Lemma sample_text_pages :
  pagesWithOcr sample_parse (snd (Csv.parseCSV sample_text))
  = [ mkPage [("Number", VStr "1"); ("OCR", VStr "header")] (ocr header10);
      mkPage [("Number", VStr "2"); ("OCR", VStr "continuation")]
             (ocr continuation11);
      mkPage [("Number", VStr "3"); ("OCR", VStr "folio")] (ocr folio12) ].
Proof. vm_compute. reflexivity. Qed.


End PostProcessWitnesses.
